(** * ICU core: UTS #46 label processing and collation tailoring sets

    A shallow embedding of [source/common/uts46.cpp] and
    [source/i18n/collationsets.cpp].

    Conventions.
    - A UTF-16 code unit ([UChar]), a code point ([UChar32]) and every
      32-bit mask is a [Z]; a string's contents are a [list Z] of code units.
    - Indices and lengths of strings are [nat] (ICU keeps them in [int32_t],
      never negative); a label delta is a [Z].
    - A read through a raw pointer outside the buffer it points into is
      undefined in C++: the functions that can do it return [option], with
      [None] for the undefined read (or for a loop that never ends).
    - Functions declared in headers that are not part of the sources at hand
      (the normalizer, the Punycode codec, the character property database,
      the [Collation] bit accessors) are fields of interface records.
    - Memory allocation succeeds: the branches that set
      [U_MEMORY_ALLOCATION_ERROR] are left out.  A [U_ASSERT] compiles to
      nothing in a release build and is left out too. *)

From Stdlib Require Import ZArith Lia Bool.
From stdpp Require Import base option list gmap.

Local Open Scope Z_scope.

(** ** UTF-16 *)

(** Abbreviations rather than definitions, so that the list lemmas apply to
    a [ustring] as they stand. *)
Abbreviation UChar := Z (only parsing).
Abbreviation UChar32 := Z (only parsing).
Abbreviation ustring := (list Z) (only parsing).

(** Modelled from the spec: the surrogate macros of [unicode/utf16.h], which
    is not among the sources; "operations that inspect the next/previous code
    point decode surrogate pairs". *)
Definition U16_IS_LEAD (c : Z) : bool := Z.land c 0xfffffc00 =? 0xd800.
Definition U16_IS_TRAIL (c : Z) : bool := Z.land c 0xfffffc00 =? 0xdc00.
Definition U16_SURROGATE_OFFSET : Z := Z.shiftl 0xd800 10 + 0xdc00 - 0x10000.
Definition U16_GET_SUPPLEMENTARY (lead trail : Z) : Z :=
  Z.shiftl lead 10 + trail - U16_SURROGATE_OFFSET.
Definition U16_LEAD (c : Z) : Z := Z.shiftr c 10 + 0xd7c0.
Definition U16_TRAIL (c : Z) : Z := Z.lor (Z.land c 0x3ff) 0xdc00.

(** [UnicodeString::append(UChar32)]: one unit, a surrogate pair, or nothing
    when the value is no code point. *)
Definition append_cp (s : ustring) (c : UChar32) : ustring :=
  if (0 <=? c) && (c <=? 0xffff) then s ++ [c]
  else if (0 <=? c) && (c <=? 0x10ffff) then s ++ [U16_LEAD c; U16_TRAIL c]
  else s.

(** [UnicodeString::compare]: code unit order. *)
Fixpoint ustr_compare (a b : ustring) : comparison :=
  match a, b with
  | [], [] => Eq
  | [], _ :: _ => Lt
  | _ :: _, [] => Gt
  | x :: a', y :: b' =>
      match Z.compare x y with
      | Eq => ustr_compare a' b'
      | o => o
      end
  end.

(** A read at a signed index of a C array. *)
Definition readZ (l : list Z) (i : Z) : option Z :=
  if i <? 0 then None else l !! Z.to_nat i.

(** ** Status codes ([unicode/utypes.h]) *)

Abbreviation UErrorCode := Z (only parsing).
Definition U_ZERO_ERROR : UErrorCode := 0.
Definition U_ILLEGAL_ARGUMENT_ERROR : UErrorCode := 1.
Definition U_INTERNAL_PROGRAM_ERROR : UErrorCode := 5.
Definition U_MEMORY_ALLOCATION_ERROR : UErrorCode := 7.
Definition U_BUFFER_OVERFLOW_ERROR : UErrorCode := 15.
Definition U_SUCCESS (ec : UErrorCode) : bool := ec <=? U_ZERO_ERROR.
Definition U_FAILURE (ec : UErrorCode) : bool := U_ZERO_ERROR <? ec.

(** ** A [UnicodeSet] of code points and strings

    Modelled from the spec: [UnicodeSet] ([unicode/uniset.h]) is not among the
    sources; it is "a set of code points and strings".  A code point is kept
    as the string of its UTF-16 form, which is how [UnicodeSet::add] treats a
    string that holds a single code point. *)
Abbreviation UnicodeSet := (gset (list Z)) (only parsing).

Definition pinCodePoint (c : UChar32) : UChar32 :=
  if c <? 0 then 0 else if 0x10ffff <? c then 0x10ffff else c.

Definition set_add_cp (c : UChar32) (s : UnicodeSet) : UnicodeSet :=
  {[ append_cp [] (pinCodePoint c) ]} ∪ s.

Definition set_add_str (str : ustring) (s : UnicodeSet) : UnicodeSet :=
  {[ str ]} ∪ s.

(** [add(start, end)]: the code points of a range; nothing when it is empty. *)
Definition set_add_range (start end_ : UChar32) (s : UnicodeSet) : UnicodeSet :=
  let lo := pinCodePoint start in
  let hi := pinCodePoint end_ in
  list_to_set
    (map (fun k => append_cp [] (lo + Z.of_nat k))
         (seq 0 (Z.to_nat (hi - lo + 1)))) ∪ s.

(** [contains(c)] and [containsSome(start, end)]. *)
Definition set_contains (c : UChar32) (s : UnicodeSet) : bool :=
  (0 <=? c) && (c <=? 0x10ffff) && bool_decide (append_cp [] c ∈ s).

Definition set_containsSome (start end_ : UChar32) (s : UnicodeSet) : bool :=
  existsb (fun k => set_contains (start + Z.of_nat k) s)
    (seq 0 (Z.to_nat (end_ - start + 1))).

(** The ranges [getRangeStart(i)..getRangeEnd(i)] of a set that holds code
    points only: the maximal runs among the [n] code points from [c] on that
    [keep] holds for, in ascending order. *)
Fixpoint runs (keep : UChar32 -> bool) (n : nat) (c : UChar32)
    : list (UChar32 * UChar32) :=
  match n with
  | O => []
  | S n =>
      if keep c then
        match runs keep n (c + 1) with
        | (s, e) :: rest =>
            if s =? c + 1 then (c, e) :: rest else (c, c) :: (s, e) :: rest
        | [] => [(c, c)]
        end
      else runs keep n (c + 1)
  end.

(** [set(start, end).removeAll(other)], as the list of its ranges. *)
Definition set_range_removeAll (start end_ : UChar32) (other : UnicodeSet)
    : list (UChar32 * UChar32) :=
  runs (fun c => negb (set_contains c other))
    (Z.to_nat (pinCodePoint end_ - pinCodePoint start + 1)) (pinCodePoint start).

(** C casts to [int32_t] keep the low 32 bits, read as two's complement. *)
Definition to_int32 (z : Z) : Z :=
  let m := z mod 0x100000000 in
  if m <? 0x80000000 then m else m - 0x100000000.

(** * Collation tailoring sets ([collationsets.cpp]) *)

(** The in-memory collation data ([collationdata.h]).  [trie] lists the
    ranges [(start, end, ce32)] in the order in which [utrie2_enum] hands
    them to its callback. *)
#[local] Unset Elimination Schemes.
Inductive CollationData : Type := mkCollationData {
  trie : list (UChar32 * UChar32 * Z);
  ce32s : list Z;
  ces : list Z;
  contexts : list UChar;
  jamoCEs : list Z;
  base : option CollationData
}.
#[local] Set Elimination Schemes.

(** The static accessors of class [Collation] ([collation.h]), the inline
    lookups of [CollationData], [UCharsTrie::Iterator] and
    [Hangul::decompose]: declared in headers that are not among the sources,
    so they are taken as an interface. *)
Record Collation : Type := {
  MIN_SPECIAL_CE32 : Z;
  OFFSET_TAG : Z;
  EXPANSION32_TAG : Z;
  EXPANSION_TAG : Z;
  HANGUL_TAG : Z;
  PREFIX_TAG : Z;
  CONTRACTION_TAG : Z;
  DIGIT_TAG : Z;
  RESERVED_TAG_11 : Z;
  LEAD_SURROGATE_TAG : Z;
  IMPLICIT_TAG : Z;
  isSpecialCE32 : Z -> bool;
  isPrefixCE32 : Z -> bool;
  isContractionCE32 : Z -> bool;
  isLongPrimaryCE32 : Z -> bool;
  getSpecialCE32Tag : Z -> Z;
  getPrefixIndex : Z -> Z;
  getContractionIndex : Z -> Z;
  getExpansionIndex : Z -> Z;
  getExpansionLength : Z -> Z;
  getOffsetIndex : Z -> Z;
  getDigitIndex : Z -> Z;
  primaryFromLongPrimaryCE32 : Z -> Z;
  getThreeBytePrimaryForOffsetData : UChar32 -> Z -> Z;
  getCE32 : CollationData -> UChar32 -> Z;
  getIndirectCE32 : CollationData -> Z -> Z;
  getFinalCE32 : CollationData -> Z -> Z;
  (** the [(string, value)] pairs that a [UCharsTrie::Iterator] started at
      [contexts + index] yields, in its order *)
  UCharsTrie_entries : CollationData -> Z -> list (ustring * Z);
  (** the two or three jamos of a Hangul syllable *)
  Hangul_decompose : UChar32 -> list UChar
}.

(** A [UCharsTrie::Iterator]: what is left to yield, and the string and the
    value that [getString] and [getValue] return. *)
Record Iter : Type := {
  it_rest : list (ustring * Z);
  it_str : ustring;
  it_val : Z
}.

Definition it_start (entries : list (ustring * Z)) : Iter :=
  {| it_rest := entries; it_str := []; it_val := 0 |}.

(** [Iterator::next(errorCode)]: false on a failure status or at the end. *)
Definition it_next (ec : UErrorCode) (it : Iter) : bool * Iter :=
  if U_FAILURE ec then (false, it)
  else match it_rest it with
       | [] => (false, it)
       | (s, v) :: r => (true, {| it_rest := r; it_str := s; it_val := v |})
       end.

(** The three values that the string pointers of the parallel walks take:
    [NULL], the address of the sentinel, the address of the iterator's
    string. *)
Inductive StrPtr : Type := PNull | PNone | PIter.

Definition StrPtr_is_none (p : StrPtr) : bool :=
  match p with PNone => true | _ => false end.

(** [((uint32_t)p[0] << 16) | p[1]] for [p = contexts + index]. *)
Definition contextCE32 (d : CollationData) (index : Z) : option Z :=
  p0 ← readZ (contexts d) index;
  p1 ← readZ (contexts d) (index + 1);
  Some (Z.lor (Z.shiftl p0 16) p1).

Module TailoredSet.

(** The fields of a [TailoredSet] object.  [prefix] and [suffix] are
    pointers to strings, [None] for [NULL]. *)
Record State : Type := {
  data : CollationData;
  baseData : CollationData;
  tailored : UnicodeSet;
  prefix : option ustring;
  suffix : option ustring;
  errorCode : UErrorCode
}.

Definition set_tailored (t : UnicodeSet) (st : State) : State :=
  {| data := data st; baseData := baseData st; tailored := t;
     prefix := prefix st; suffix := suffix st; errorCode := errorCode st |}.

Definition set_prefix (p : option ustring) (st : State) : State :=
  {| data := data st; baseData := baseData st; tailored := tailored st;
     prefix := p; suffix := suffix st; errorCode := errorCode st |}.

Definition set_suffix (s : option ustring) (st : State) : State :=
  {| data := data st; baseData := baseData st; tailored := tailored st;
     prefix := prefix st; suffix := s; errorCode := errorCode st |}.

Definition set_data (d : CollationData) (ec : UErrorCode) (st : State) : State :=
  {| data := d; baseData := baseData st; tailored := tailored st;
     prefix := prefix st; suffix := suffix st; errorCode := ec |}.

Section WithCollation.
Context (C : Collation).

(** [TailoredSet::add]. *)
Definition add (c : UChar32) (st : State) : State :=
  match prefix st, suffix st with
  | None, None => set_tailored (set_add_cp c (tailored st)) st
  | _, _ =>
      let s := default [] (prefix st) in
      let s := append_cp s c in
      let s := s ++ default [] (suffix st) in
      set_tailored (set_add_str s (tailored st)) st
  end.

(** [TailoredSet::addSuffix]. *)
Definition addSuffix (c : UChar32) (sfx : ustring) (st : State) : State :=
  let s := default [] (prefix st) in
  set_tailored (set_add_str (append_cp s c ++ sfx) (tailored st)) st.

(** [TailoredSet::addContractions], with [p] the index in [contexts] at
    which the suffix trie starts.  The iterator yields nothing once the
    status is a failure. *)
Definition addContractions (d : CollationData) (c : UChar32) (p : Z)
    (st : State) : State :=
  if U_FAILURE (errorCode st) then st
  else foldl (fun st e => addSuffix c e.1 st) st (UCharsTrie_entries C d p).

(** [TailoredSet::addPrefix]. *)
Definition addPrefix (d : CollationData) (pfx : ustring) (c : UChar32)
    (ce32 : Z) (st : State) : State :=
  let ce32 := getFinalCE32 C d ce32 in
  let st :=
    if isContractionCE32 C ce32 then
      let p := getContractionIndex C ce32 in
      let st := set_prefix (Some pfx) st in
      let st := addContractions d c (p + 2) st in
      set_prefix None st
    else st in
  set_tailored (set_add_str (append_cp pfx c) (tailored st)) st.

(** [TailoredSet::addPrefixes]. *)
Definition addPrefixes (d : CollationData) (c : UChar32) (p : Z)
    (st : State) : State :=
  if U_FAILURE (errorCode st) then st
  else foldl (fun st e => addPrefix d e.1 c e.2 st) st (UCharsTrie_entries C d p).

(** One fetch of the parallel walks: a [NULL] pointer is refilled from its
    iterator, or set to the sentinel when the iterator has ended. *)
Definition fetch (ec : UErrorCode) (p : StrPtr) (it : Iter) : StrPtr * Iter :=
  match p with
  | PNull => let '(ok, it') := it_next ec it in
             (if ok then PIter else PNone, it')
  | _ => (p, it)
  end.

Definition deref (none : ustring) (p : StrPtr) (it : Iter) : ustring :=
  match p with
  | PIter => it_str it
  | _ => none
  end.

(** The loop of [TailoredSet::comparePrefixes]; [rec] is [compare].
    [fuel] bounds the number of rounds.  As in the source, the test
    [tp != &none || bp != &none] comes before the two fetches: a round that
    finds both iterators at their end compares the sentinel with itself,
    takes the branch for equal strings and leaves both pointers [NULL]. *)
Fixpoint comparePrefixes_loop (rec : UChar32 -> Z -> Z -> State -> option State)
    (fuel : nat) (c : UChar32) (none : ustring)
    (tp bp : StrPtr) (prefixes basePrefixes : Iter) (st : State) : option State :=
  if StrPtr_is_none tp && StrPtr_is_none bp then Some st
  else match fuel with
  | O => None
  | S fuel =>
      let '(tp, prefixes) := fetch (errorCode st) tp prefixes in
      let '(bp, basePrefixes) := fetch (errorCode st) bp basePrefixes in
      let tps := deref none tp prefixes in
      let bps := deref none bp basePrefixes in
      match ustr_compare tps bps with
      | Lt =>
          let st := addPrefix (data st) tps c (it_val prefixes) st in
          comparePrefixes_loop rec fuel c none PNull bp prefixes basePrefixes st
      | Gt =>
          let st := addPrefix (baseData st) bps c (it_val basePrefixes) st in
          comparePrefixes_loop rec fuel c none tp PNull prefixes basePrefixes st
      | Eq =>
          st ← rec c (it_val prefixes) (it_val basePrefixes)
                   (set_prefix (Some tps) st);
          comparePrefixes_loop rec fuel c none PNull PNull prefixes basePrefixes
            (set_prefix None st)
      end
  end.

(** The loop of [TailoredSet::compareContractions]. *)
Fixpoint compareContractions_loop (rec : UChar32 -> Z -> Z -> State -> option State)
    (fuel : nat) (c : UChar32) (none : ustring)
    (ts bs : StrPtr) (suffixes baseSuffixes : Iter) (st : State) : option State :=
  if StrPtr_is_none ts && StrPtr_is_none bs then Some st
  else match fuel with
  | O => None
  | S fuel =>
      let '(ts, suffixes) := fetch (errorCode st) ts suffixes in
      let '(bs, baseSuffixes) := fetch (errorCode st) bs baseSuffixes in
      let tss := deref none ts suffixes in
      let bss := deref none bs baseSuffixes in
      match ustr_compare tss bss with
      | Lt =>
          let st := addSuffix c tss st in
          compareContractions_loop rec fuel c none PNull bs suffixes baseSuffixes st
      | Gt =>
          let st := addSuffix c bss st in
          compareContractions_loop rec fuel c none ts PNull suffixes baseSuffixes st
      | Eq =>
          st ← rec c (it_val suffixes) (it_val baseSuffixes)
                   (set_suffix (Some tss) st);
          compareContractions_loop rec fuel c none PNull PNull suffixes baseSuffixes
            (set_suffix None st)
      end
  end.

(** The [for] loops of [compare] over two expansions of equal length: are
    the [n] elements from [ia] in [a] and from [ib] in [b] different
    somewhere?  The loop stops at the first difference. *)
Fixpoint arraysDiffer (n : nat) (a : list Z) (ia : Z) (b : list Z) (ib : Z)
    : option bool :=
  match n with
  | O => Some false
  | S n =>
      x ← readZ a ia;
      y ← readZ b ib;
      if x =? y then arraysDiffer n a (ia + 1) b (ib + 1) else Some true
  end.

(** The start and the length of an expansion: the length is in the CE32, or,
    when that field is 0, in the first element ([length = (int32_t)*p++]). *)
Definition expansionAt (table : list Z) (ce32 : Z) : option (Z * Z) :=
  let index := getExpansionIndex C ce32 in
  let length := getExpansionLength C ce32 in
  if length =? 0 then
    x ← readZ table index; Some (index + 1, to_int32 x)
  else Some (index, length).

Definition tagOf (ce32 : Z) : Z :=
  if isSpecialCE32 C ce32 then getSpecialCE32Tag C ce32 else -1.

(** The Hangul branch of [compare]: the three comparisons, evaluated from
    the left and only as far as [||] and [&&] need. *)
Definition hangulDiffers (c : UChar32) (st : State) : option bool :=
  let jamos := Hangul_decompose C c in
  let length := length jamos in
  let tailoringJamoCEs := jamoCEs (data st) in
  let baseJamoCEs := jamoCEs (baseData st) in
  l ← jamos !! 0%nat;
  v ← jamos !! 1%nat;
  a ← readZ tailoringJamoCEs l; b ← readZ baseJamoCEs l;
  if negb (a =? b) then Some true else
  a ← readZ tailoringJamoCEs (19 + v); b ← readZ baseJamoCEs (19 + v);
  if negb (a =? b) then Some true else
  if Nat.eqb length 3 then
    t ← jamos !! 2%nat;
    a ← readZ tailoringJamoCEs (39 + t); b ← readZ baseJamoCEs (39 + t);
    Some (negb (a =? b))
  else Some false.

(** What [compare] does once the context layers are peeled off.  The
    [U_ASSERT]s of the source compile to nothing in a release build. *)
Definition compareTags (c : UChar32) (ce32 baseCE32 : Z) (st : State)
    : option State :=
  let tag := tagOf ce32 in
  let baseTag := tagOf baseCE32 in
  if tag =? CONTRACTION_TAG C then Some st
  else
    let after_offset (k : State -> option State) : option State :=
      if baseTag =? OFFSET_TAG C then
        if negb (isLongPrimaryCE32 C ce32) then Some (add c st)
        else
          dataCE ← readZ (ces (baseData st)) (getOffsetIndex C baseCE32);
          let p := getThreeBytePrimaryForOffsetData C c dataCE in
          if negb (primaryFromLongPrimaryCE32 C ce32 =? p) then Some (add c st)
          else k st
      else k st in
    after_offset (fun st =>
      if negb (tag =? baseTag) then Some (add c st)
      else if tag =? EXPANSION32_TAG C then
        '(i, length) ← expansionAt (ce32s (data st)) ce32;
        '(bi, baseLength) ← expansionAt (ce32s (baseData st)) baseCE32;
        if negb (length =? baseLength) then Some (add c st)
        else
          d ← arraysDiffer (Z.to_nat length) (ce32s (data st)) i
                (ce32s (baseData st)) bi;
          Some (if d : bool then add c st else st)
      else if tag =? EXPANSION_TAG C then
        '(i, length) ← expansionAt (ces (data st)) ce32;
        '(bi, baseLength) ← expansionAt (ces (baseData st)) baseCE32;
        if negb (length =? baseLength) then Some (add c st)
        else
          d ← arraysDiffer (Z.to_nat length) (ces (data st)) i
                (ces (baseData st)) bi;
          Some (if d : bool then add c st else st)
      else if tag =? HANGUL_TAG C then
        d ← hangulDiffers c st;
        Some (if d : bool then add c st else st)
      else if negb (ce32 =? baseCE32) then Some (add c st)
      else Some st).

Definition comparePrefixes (rec : UChar32 -> Z -> Z -> State -> option State)
    (c : UChar32) (p q : Z) (st : State) : option State :=
  let prefixes := UCharsTrie_entries C (data st) p in
  let basePrefixes := UCharsTrie_entries C (baseData st) q in
  comparePrefixes_loop rec (S (length prefixes + length basePrefixes)) c [0xffff]
    PNull PNull (it_start prefixes) (it_start basePrefixes) st.

Definition compareContractions (rec : UChar32 -> Z -> Z -> State -> option State)
    (c : UChar32) (p q : Z) (st : State) : option State :=
  let suffixes := UCharsTrie_entries C (data st) p in
  let baseSuffixes := UCharsTrie_entries C (baseData st) q in
  compareContractions_loop rec (S (length suffixes + length baseSuffixes)) c
    [0xffff; 0xffff] PNull PNull (it_start suffixes) (it_start baseSuffixes) st.

(** [TailoredSet::compare].  [fuel] bounds the depth of the recursion through
    [comparePrefixes] and [compareContractions]. *)
Fixpoint compare (fuel : nat) (c : UChar32) (ce32 baseCE32 : Z) (st : State)
    : option State :=
  match fuel with
  | O => None
  | S fuel =>
      '(ce32, baseCE32, st) ←
        (if isPrefixCE32 C ce32 then
           let p := getPrefixIndex C ce32 in
           dflt ← contextCE32 (data st) p;
           let ce32 := getFinalCE32 C (data st) dflt in
           if isPrefixCE32 C baseCE32 then
             let q := getPrefixIndex C baseCE32 in
             bdflt ← contextCE32 (baseData st) q;
             let baseCE32 := getFinalCE32 C (baseData st) bdflt in
             st ← comparePrefixes (compare fuel) c (p + 2) (q + 2) st;
             Some (ce32, baseCE32, st)
           else Some (ce32, baseCE32, addPrefixes (data st) c (p + 2) st)
         else if isPrefixCE32 C baseCE32 then
           let q := getPrefixIndex C baseCE32 in
           bdflt ← contextCE32 (baseData st) q;
           let baseCE32 := getFinalCE32 C (baseData st) bdflt in
           Some (ce32, baseCE32, addPrefixes (baseData st) c (q + 2) st)
         else Some (ce32, baseCE32, st));
      '(ce32, baseCE32, st) ←
        (if isContractionCE32 C ce32 then
           let p := getContractionIndex C ce32 in
           dflt ← contextCE32 (data st) p;
           let ce32 := getFinalCE32 C (data st) dflt in
           if isContractionCE32 C baseCE32 then
             let q := getContractionIndex C baseCE32 in
             bdflt ← contextCE32 (baseData st) q;
             let baseCE32 := getFinalCE32 C (baseData st) bdflt in
             st ← compareContractions (compare fuel) c (p + 2) (q + 2) st;
             Some (ce32, baseCE32, st)
           else Some (ce32, baseCE32, addContractions (data st) c (p + 2) st)
         else if isContractionCE32 C baseCE32 then
           let q := getContractionIndex C baseCE32 in
           bdflt ← contextCE32 (baseData st) q;
           let baseCE32 := getFinalCE32 C (baseData st) bdflt in
           Some (ce32, baseCE32, addContractions (baseData st) c (q + 2) st)
         else Some (ce32, baseCE32, st));
      compareTags c ce32 baseCE32 st
  end.

(** The [do ... while(++start <= end)] loop of [handleCE32]; [n] counts the
    rounds that may follow the first one. *)
Fixpoint handleCE32_loop (fuel n : nat) (start end_ : UChar32) (ce32 : Z)
    (st : State) : option State :=
  let baseCE32 := getFinalCE32 C (baseData st) (getCE32 C (baseData st) start) in
  st ← (if isSpecialCE32 C ce32 || isSpecialCE32 C baseCE32 then
          compare fuel start ce32 baseCE32 st
        else if negb (ce32 =? baseCE32) then
          Some (set_tailored (set_add_cp start (tailored st)) st)
        else Some st);
  if start + 1 <=? end_ then
    match n with
    | O => None
    | S n => handleCE32_loop fuel n (start + 1) end_ ce32 st
    end
  else Some st.

(** [TailoredSet::handleCE32]. *)
Definition handleCE32 (fuel : nat) (start end_ : UChar32) (ce32 : Z)
    (st : State) : option State :=
  let go ce32 :=
    handleCE32_loop fuel (Z.to_nat (end_ - start)) start end_ ce32 st in
  if isSpecialCE32 C ce32 then
    let ce32 := getIndirectCE32 C (data st) ce32 in
    if ce32 =? MIN_SPECIAL_CE32 C then Some st
    else go ce32
  else go ce32.

(** The callback [enumTailoredRange]: the answer tells [utrie2_enum]
    whether to go on. *)
Definition enumTailoredRange (fuel : nat) (st : State)
    (start end_ : UChar32) (ce32 : Z) : option (bool * State) :=
  if ce32 =? MIN_SPECIAL_CE32 C then Some (true, st)
  else
    st ← handleCE32 fuel start end_ ce32 st;
    Some (U_SUCCESS (errorCode st), st).

(** [utrie2_enum] over the ranges of a trie: the callback is called range by
    range until it answers false. *)
Fixpoint utrie2_enum (callback : State -> UChar32 -> UChar32 -> Z -> option (bool * State))
    (ranges : list (UChar32 * UChar32 * Z)) (st : State) : option State :=
  match ranges with
  | [] => Some st
  | (start, end_, value) :: ranges =>
      '(go_on, st) ← callback st start end_ value;
      if go_on : bool then utrie2_enum callback ranges st else Some st
  end.

(** [TailoredSet::forData]: the object afterwards, and the status handed
    back through [ec]. *)
Definition forData (fuel : nat) (d : CollationData) (ec : UErrorCode)
    (st : State) : option (State * UErrorCode) :=
  if U_FAILURE ec then Some (st, ec)
  else
    let st := set_data d ec st in
    st ← utrie2_enum (enumTailoredRange fuel) (trie (data st)) st;
    Some (st, errorCode st).

End WithCollation.
End TailoredSet.

Module ContractionsAndExpansions.

(** The walk of [ContractionsAndExpansions] from [handleCE32] down.
    [contractions] and [expansions] are pointers to sets that the caller
    owns, [None] for [NULL]; the sets themselves live in [heap], so that two
    pointers can name one set. *)
Abbreviation loc := nat (only parsing).

Record State : Type := {
  data : CollationData;
  contractions : option loc;
  expansions : option loc;
  prefix : option ustring;
  suffix : option ustring;
  addPrefixes : bool;
  errorCode : UErrorCode;
  heap : gmap loc UnicodeSet
}.

Definition set_prefix (p : option ustring) (st : State) : State :=
  {| data := data st; contractions := contractions st;
     expansions := expansions st; prefix := p; suffix := suffix st;
     addPrefixes := addPrefixes st; errorCode := errorCode st;
     heap := heap st |}.

Definition set_suffix (s : option ustring) (st : State) : State :=
  {| data := data st; contractions := contractions st;
     expansions := expansions st; prefix := prefix st; suffix := s;
     addPrefixes := addPrefixes st; errorCode := errorCode st;
     heap := heap st |}.

Definition set_errorCode (ec : UErrorCode) (st : State) : State :=
  {| data := data st; contractions := contractions st;
     expansions := expansions st; prefix := prefix st; suffix := suffix st;
     addPrefixes := addPrefixes st; errorCode := ec; heap := heap st |}.

Definition set_heap (h : gmap loc UnicodeSet) (st : State) : State :=
  {| data := data st; contractions := contractions st;
     expansions := expansions st; prefix := prefix st; suffix := suffix st;
     addPrefixes := addPrefixes st; errorCode := errorCode st; heap := h |}.

(** [p->add(...)]: undefined through [NULL] or a dangling pointer. *)
Definition update_set (p : option loc) (f : UnicodeSet -> UnicodeSet)
    (st : State) : option State :=
  l ← p;
  s ← heap st !! l;
  Some (set_heap (<[l := f s]> (heap st)) st).

(** The [do ... while(++start <= end)] loop of [addStrings]; [n] counts the
    rounds that may follow the first one.  The string is added through the
    member [expansions], as the source has it. *)
Fixpoint addStrings_loop (n : nat) (start end_ : UChar32) (s : ustring)
    (prefixLength : nat) (st : State) : option State :=
  let s := append_cp s start in
  let s := match suffix st with Some sfx => s ++ sfx | None => s end in
  st ← update_set (expansions st) (set_add_str s) st;
  let s := take prefixLength s in
  if start + 1 <=? end_ then
    match n with
    | O => None
    | S n => addStrings_loop n (start + 1) end_ s prefixLength st
    end
  else Some st.

(** [ContractionsAndExpansions::addStrings]. *)
Definition addStrings (start end_ : UChar32) (set : option loc) (st : State)
    : option State :=
  match set with
  | None => Some st
  | Some _ =>
      let '(s, prefixLength) :=
        match prefix st with
        | Some p => (p, length p)
        | None => ([], 0%nat)
        end in
      addStrings_loop (Z.to_nat (end_ - start)) start end_ s prefixLength st
  end.

(** [ContractionsAndExpansions::addExpansions]. *)
Definition addExpansions (start end_ : UChar32) (st : State) : option State :=
  match prefix st, suffix st with
  | None, None =>
      match expansions st with
      | Some _ => update_set (expansions st) (set_add_range start end_) st
      | None => Some st
      end
  | _, _ => addStrings start end_ (expansions st) st
  end.

Section WithCollation.
Context (C : Collation).

(** The [while(prefixes.next(errorCode))] loop of [handlePrefixes]; [rec] is
    [handleCE32]. *)
Fixpoint handlePrefixes_loop (rec : UChar32 -> UChar32 -> Z -> State -> option State)
    (start end_ : UChar32) (prefixes : list (ustring * Z)) (st : State)
    : option State :=
  if U_FAILURE (errorCode st) then Some st
  else match prefixes with
  | [] => Some st
  | (str, value) :: prefixes =>
      let st := set_prefix (Some str) st in
      st ← addStrings start end_ (contractions st) st;
      st ← addStrings start end_ (expansions st) st;
      st ← rec start end_ value st;
      handlePrefixes_loop rec start end_ prefixes st
  end.

(** [ContractionsAndExpansions::handlePrefixes]. *)
Definition handlePrefixes (rec : UChar32 -> UChar32 -> Z -> State -> option State)
    (start end_ : UChar32) (ce32 : Z) (st : State) : option State :=
  let p := getPrefixIndex C ce32 in
  ce32 ← contextCE32 (data st) p;
  st ← rec start end_ ce32 st;
  if negb (addPrefixes st) then Some st
  else
    st ← handlePrefixes_loop rec start end_
           (UCharsTrie_entries C (data st) (p + 2)) st;
    Some (set_prefix None st).

(** The [while(suffixes.next(errorCode))] loop of [handleContractions]. *)
Fixpoint handleContractions_loop (rec : UChar32 -> UChar32 -> Z -> State -> option State)
    (start end_ : UChar32) (suffixes : list (ustring * Z)) (st : State)
    : option State :=
  if U_FAILURE (errorCode st) then Some st
  else match suffixes with
  | [] => Some st
  | (str, value) :: suffixes =>
      let st := set_suffix (Some str) st in
      st ← addStrings start end_ (contractions st) st;
      st ← (match prefix st with
            | Some _ => addStrings start end_ (expansions st) st
            | None => Some st
            end);
      st ← rec start end_ value st;
      handleContractions_loop rec start end_ suffixes st
  end.

(** [ContractionsAndExpansions::handleContractions]. *)
Definition handleContractions (rec : UChar32 -> UChar32 -> Z -> State -> option State)
    (start end_ : UChar32) (ce32 : Z) (st : State) : option State :=
  let p := getContractionIndex C ce32 in
  ce32 ← contextCE32 (data st) p;
  st ← (if isContractionCE32 C ce32 then Some st
        else rec start end_ ce32 st);
  st ← handleContractions_loop rec start end_
         (UCharsTrie_entries C (data st) (p + 2)) st;
  Some (set_suffix None st).

(** [ContractionsAndExpansions::handleCE32]; [fuel] bounds the rounds of its
    loop and the depth of the recursion through the two functions above. *)
Fixpoint handleCE32 (fuel : nat) (start end_ : UChar32) (ce32 : Z) (st : State)
    : option State :=
  match fuel with
  | O => None
  | S fuel =>
      if ce32 <=? MIN_SPECIAL_CE32 C then Some st
      else
        let tag := getSpecialCE32Tag C ce32 in
        if (tag <=? EXPANSION_TAG C) || (tag =? HANGUL_TAG C) then
          match prefix st with
          | None => addExpansions start end_ st
          | Some _ => Some st
          end
        else if tag =? PREFIX_TAG C then
          handlePrefixes (handleCE32 fuel) start end_ ce32 st
        else if tag =? CONTRACTION_TAG C then
          handleContractions (handleCE32 fuel) start end_ ce32 st
        else if tag =? DIGIT_TAG C then
          ce32 ← readZ (ce32s (data st)) (getDigitIndex C ce32);
          handleCE32 fuel start end_ ce32 st
        else if (tag =? RESERVED_TAG_11 C) || (tag =? LEAD_SURROGATE_TAG C) then
          Some (if U_SUCCESS (errorCode st)
                then set_errorCode U_INTERNAL_PROGRAM_ERROR st else st)
        else if (tag =? IMPLICIT_TAG C) && (Z.land ce32 1 =? 0) then
          ce32 ← readZ (ce32s (data st)) 0;
          handleCE32 fuel start end_ ce32 st
        else Some st
  end.

End WithCollation.

(** The members that the callback [enumCnERange] and [forData] use on top
    of those of the walk: [tailored] and [ranges] are sets that the object
    owns; [ranges] only ever holds code points and is kept as the list of
    its ranges.  [tailored_frozen] says whether [tailored] has been
    frozen. *)
Record Object : Type := {
  walk : State;
  tailoring : option CollationData;
  checkTailored : Z;
  tailored : UnicodeSet;
  tailored_frozen : bool;
  ranges : list (UChar32 * UChar32)
}.

Definition set_walk (w : State) (o : Object) : Object :=
  {| walk := w; tailoring := tailoring o; checkTailored := checkTailored o;
     tailored := tailored o; tailored_frozen := tailored_frozen o;
     ranges := ranges o |}.

Definition set_tailored (t : UnicodeSet) (o : Object) : Object :=
  {| walk := walk o; tailoring := tailoring o; checkTailored := checkTailored o;
     tailored := t; tailored_frozen := tailored_frozen o;
     ranges := ranges o |}.

Definition set_ranges (r : list (UChar32 * UChar32)) (o : Object) : Object :=
  {| walk := walk o; tailoring := tailoring o; checkTailored := checkTailored o;
     tailored := tailored o; tailored_frozen := tailored_frozen o;
     ranges := r |}.

(** Modelled from the spec: [tailored.add(start, end)] and
    [tailored.freeze()] of [UnicodeSet] (not among the sources): [add]
    leaves a frozen set as it is, and [freeze] is for good. *)
Definition tailored_add (start end_ : UChar32) (o : Object) : Object :=
  if tailored_frozen o then o
  else set_tailored (set_add_range start end_ (tailored o)) o.

Definition tailored_freeze (o : Object) : Object :=
  {| walk := walk o; tailoring := tailoring o; checkTailored := checkTailored o;
     tailored := tailored o; tailored_frozen := true; ranges := ranges o |}.

Definition set_data (d : CollationData) (st : State) : State :=
  {| data := d; contractions := contractions st;
     expansions := expansions st; prefix := prefix st; suffix := suffix st;
     addPrefixes := addPrefixes st; errorCode := errorCode st;
     heap := heap st |}.

Section Enumeration.
Context (C : Collation).

(** [cne->handleCE32(start, end, ce32)] on the object. *)
Definition handle (fuel : nat) (ce32 : Z) (o : Object) (r : UChar32 * UChar32)
    : option Object :=
  w ← handleCE32 C fuel r.1 r.2 ce32 (walk o);
  Some (set_walk w o).

(** The [for] loop of [enumCnERange] over the ranges that are left. *)
Fixpoint handleRanges (fuel : nat) (ce32 : Z) (rs : list (UChar32 * UChar32))
    (o : Object) : option Object :=
  match rs with
  | [] => Some o
  | r :: rs =>
      o ← handle fuel ce32 o r;
      handleRanges fuel ce32 rs o
  end.

(** The callback [enumCnERange]. *)
Definition enumCnERange (fuel : nat) (o : Object)
    (start end_ : UChar32) (ce32 : Z) : option (bool * Object) :=
  let finish (o : option Object) : option (bool * Object) :=
    o ← o; Some (U_SUCCESS (errorCode (walk o)), o) in
  if checkTailored o =? 0 then finish (handle fuel ce32 o (start, end_))
  else if checkTailored o <? 0 then
    if ce32 =? MIN_SPECIAL_CE32 C then Some (true, o)
    else
      let o := tailored_add start end_ o in
      finish (handle fuel ce32 o (start, end_))
  else if start =? end_ then
    if set_contains start (tailored o) then Some (true, o)
    else finish (handle fuel ce32 o (start, end_))
  else if set_containsSome start end_ (tailored o) then
    let o := set_ranges (set_range_removeAll start end_ (tailored o)) o in
    finish (handleRanges fuel ce32 (ranges o) o)
  else finish (handle fuel ce32 o (start, end_)).

(** [utrie2_enum] with this callback. *)
Fixpoint utrie2_enum (fuel : nat) (trieRanges : list (UChar32 * UChar32 * Z))
    (o : Object) : option Object :=
  match trieRanges with
  | [] => Some o
  | (start, end_, value) :: trieRanges =>
      '(go_on, o) ← enumCnERange fuel o start end_ value;
      if go_on : bool then utrie2_enum fuel trieRanges o else Some o
  end.

(** [ContractionsAndExpansions::forData]: the object afterwards, and the
    status handed back through [ec]. *)
Definition forData (fuel : nat) (d : CollationData) (ec : UErrorCode)
    (o : Object) : option (Object * UErrorCode) :=
  if U_FAILURE ec then Some (o, ec)
  else
    let o := set_walk (set_errorCode ec (walk o)) o in
    let o :=
      match base d with
      | Some _ =>
          {| walk := walk o; tailoring := tailoring o; checkTailored := -1;
             tailored := tailored o; tailored_frozen := tailored_frozen o;
             ranges := ranges o |}
      | None => o
      end in
    let o := set_walk (set_data d (walk o)) o in
    o ← utrie2_enum fuel (trie (data (walk o))) o;
    match base d with
    | Some b =>
        if U_FAILURE (errorCode (walk o)) then Some (o, errorCode (walk o))
        else
          let o := tailored_freeze o in
          let o :=
            {| walk := set_data b (walk o); tailoring := Some d;
               checkTailored := 1; tailored := tailored o;
               tailored_frozen := tailored_frozen o; ranges := ranges o |} in
          o ← utrie2_enum fuel (trie (data (walk o))) o;
          Some (o, errorCode (walk o))
    | None => Some (o, errorCode (walk o))
    end.

End Enumeration.
End ContractionsAndExpansions.

(** * UTS #46 ([uts46.cpp]) *)

Module UTS46.

(** ** Constants of [unicode/uidna.h] and [unicode/uchar.h]

    Modelled from the spec: the option flags and the error taxonomy are
    declared in [unicode/uidna.h], the property enumerations in
    [unicode/uchar.h]; neither header is among the sources.  The values are
    those of the public ICU API. *)
Definition UIDNA_USE_STD3_RULES : Z := 2.
Definition UIDNA_CHECK_BIDI : Z := 4.
Definition UIDNA_CHECK_CONTEXTJ : Z := 8.
Definition UIDNA_NONTRANSITIONAL_TO_ASCII : Z := 0x10.
Definition UIDNA_NONTRANSITIONAL_TO_UNICODE : Z := 0x20.

Definition UIDNA_ERROR_EMPTY_LABEL : Z := 1.
Definition UIDNA_ERROR_LABEL_TOO_LONG : Z := 2.
Definition UIDNA_ERROR_DOMAIN_NAME_TOO_LONG : Z := 4.
Definition UIDNA_ERROR_LEADING_HYPHEN : Z := 8.
Definition UIDNA_ERROR_TRAILING_HYPHEN : Z := 0x10.
Definition UIDNA_ERROR_HYPHEN_3_4 : Z := 0x20.
Definition UIDNA_ERROR_LEADING_COMBINING_MARK : Z := 0x40.
Definition UIDNA_ERROR_DISALLOWED : Z := 0x80.
Definition UIDNA_ERROR_PUNYCODE : Z := 0x100.
Definition UIDNA_ERROR_LABEL_HAS_DOT : Z := 0x200.
Definition UIDNA_ERROR_INVALID_ACE_LABEL : Z := 0x400.
Definition UIDNA_ERROR_BIDI : Z := 0x800.
Definition UIDNA_ERROR_CONTEXTJ : Z := 0x1000.

(** The bidi classes, in the order of the C enumeration [UCharDirection]. *)
Inductive UCharDirection : Type :=
  | U_LEFT_TO_RIGHT
  | U_RIGHT_TO_LEFT
  | U_EUROPEAN_NUMBER
  | U_EUROPEAN_NUMBER_SEPARATOR
  | U_EUROPEAN_NUMBER_TERMINATOR
  | U_ARABIC_NUMBER
  | U_COMMON_NUMBER_SEPARATOR
  | U_BLOCK_SEPARATOR
  | U_SEGMENT_SEPARATOR
  | U_WHITE_SPACE_NEUTRAL
  | U_OTHER_NEUTRAL
  | U_LEFT_TO_RIGHT_EMBEDDING
  | U_LEFT_TO_RIGHT_OVERRIDE
  | U_RIGHT_TO_LEFT_ARABIC
  | U_RIGHT_TO_LEFT_EMBEDDING
  | U_RIGHT_TO_LEFT_OVERRIDE
  | U_POP_DIRECTIONAL_FORMAT
  | U_DIR_NON_SPACING_MARK
  | U_BOUNDARY_NEUTRAL.

Definition dir_value (d : UCharDirection) : Z :=
  match d with
  | U_LEFT_TO_RIGHT => 0
  | U_RIGHT_TO_LEFT => 1
  | U_EUROPEAN_NUMBER => 2
  | U_EUROPEAN_NUMBER_SEPARATOR => 3
  | U_EUROPEAN_NUMBER_TERMINATOR => 4
  | U_ARABIC_NUMBER => 5
  | U_COMMON_NUMBER_SEPARATOR => 6
  | U_BLOCK_SEPARATOR => 7
  | U_SEGMENT_SEPARATOR => 8
  | U_WHITE_SPACE_NEUTRAL => 9
  | U_OTHER_NEUTRAL => 10
  | U_LEFT_TO_RIGHT_EMBEDDING => 11
  | U_LEFT_TO_RIGHT_OVERRIDE => 12
  | U_RIGHT_TO_LEFT_ARABIC => 13
  | U_RIGHT_TO_LEFT_EMBEDDING => 14
  | U_RIGHT_TO_LEFT_OVERRIDE => 15
  | U_POP_DIRECTIONAL_FORMAT => 16
  | U_DIR_NON_SPACING_MARK => 17
  | U_BOUNDARY_NEUTRAL => 18
  end.

#[global] Instance UCharDirection_eq_dec : EqDecision UCharDirection.
Proof. solve_decision. Defined.

(** [U_MASK(x)] is [((uint32_t)1<<(x))]. *)
Definition U_MASK (d : UCharDirection) : Z := Z.shiftl 1 (dir_value d).

(** The joining types, in the order of the C enumeration [UJoiningType]. *)
Inductive UJoiningType : Type :=
  | U_JT_NON_JOINING
  | U_JT_JOIN_CAUSING
  | U_JT_DUAL_JOINING
  | U_JT_LEFT_JOINING
  | U_JT_RIGHT_JOINING
  | U_JT_TRANSPARENT.

#[global] Instance UJoiningType_eq_dec : EqDecision UJoiningType.
Proof. solve_decision. Defined.

(** [U_GC_M_MASK]: the general categories Mn, Me and Mc. *)
Definition U_GC_M_MASK : Z :=
  Z.lor (Z.shiftl 1 6) (Z.lor (Z.shiftl 1 7) (Z.shiftl 1 8)).

(** ** The collaborators

    The character property database, the normalizers and the Punycode codec
    are called through their public interfaces; their code is not among the
    sources. *)
Record UCharProps : Type := {
  U_GET_GC_MASK : UChar32 -> Z;
  u_charDirection : UChar32 -> UCharDirection;
  u_getCombiningClass : UChar32 -> Z;
  (** [u_getIntPropertyValue(c, UCHAR_JOINING_TYPE)] *)
  u_getJoiningType : UChar32 -> UJoiningType
}.

(** [normalize(src, dest, errorCode)] and
    [normalizeSecondAndAppend(first, second, errorCode)]: the contents of the
    destination afterwards, and the status. *)
Record Normalizer2 : Type := {
  normalize : ustring -> UErrorCode -> ustring * UErrorCode;
  normalizeSecondAndAppend : ustring -> ustring -> UErrorCode -> ustring * UErrorCode
}.

(** [u_strFromPunycode] and [u_strToPunycode], called with the source units,
    the capacity of the destination and the status: the units returned have
    the length that the C function returns, which on
    [U_BUFFER_OVERFLOW_ERROR] is the length that the result needs.
    [capacityFor n] is the capacity of the buffer that
    [UnicodeString::getBuffer(n)] hands out. *)
Record Punycode : Type := {
  u_strFromPunycode : ustring -> Z -> UErrorCode -> ustring * UErrorCode;
  u_strToPunycode : ustring -> Z -> UErrorCode -> ustring * UErrorCode;
  capacityFor : Z -> Z
}.

(** The output structure [IDNAInfo]. *)
Record IDNAInfo : Type := {
  errors : Z;
  hasDevChars : bool
}.

Definition reset : IDNAInfo := {| errors := 0; hasDevChars := false |}.
Definition hasErrors (info : IDNAInfo) : bool := negb (errors info =? 0).

Definition or_error (bit : Z) (info : IDNAInfo) : IDNAInfo :=
  {| errors := Z.lor (errors info) bit; hasDevChars := hasDevChars info |}.
Definition set_hasDevChars (info : IDNAInfo) : IDNAInfo :=
  {| errors := errors info; hasDevChars := true |}.

(** A [UnicodeString] object: bogus, or a string. *)
Inductive UnicodeString : Type :=
  | Bogus
  | Str (s : ustring).

Definition us_length (u : UnicodeString) : nat :=
  match u with Bogus => 0%nat | Str s => length s end.

(** [operator[]] answers [0xffff] outside the string. *)
Definition us_charAt (u : UnicodeString) (i : nat) : UChar :=
  match u with
  | Bogus => 0xffff
  | Str s => default 0xffff (s !! i)
  end.

(** [UnicodeString::replace(start, length, text)], [insert] and [remove]:
    they pin their indices to the string. *)
Definition us_replace (s : ustring) (start len : nat) (text : ustring) : ustring :=
  take start s ++ text ++ drop (start + len) s.
Definition us_insert (s : ustring) (start : nat) (c : UChar) : ustring :=
  us_replace s start 0 [c].
Definition us_remove (s : ustring) (start len : nat) : ustring :=
  us_replace s start len [].
(** [tempSubString(start, length)]. *)
Definition tempSubString (s : ustring) (start len : nat) : ustring :=
  take len (drop start s).

(** A write [*p = c] through a pointer at index [i] of a buffer: undefined
    outside it. *)
Definition poke (buf : ustring) (i : nat) (c : UChar) : option ustring :=
  if decide (i < length buf)%nat then Some (<[i := c]> buf) else None.

(** The [len] units that a C function reads from [buf + start]. *)
Definition slice (buf : ustring) (start len : nat) : option ustring :=
  if decide (start + len <= length buf)%nat then Some (take len (drop start buf))
  else None.

(** The table [asciiData]: -1 disallowed, 0 valid, 1 mapped (lowercase). *)
Definition asciiData : list Z :=
  [ -1; -1; -1; -1; -1; -1; -1; -1; -1; -1; -1; -1; -1; -1; -1; -1;
    -1; -1; -1; -1; -1; -1; -1; -1; -1; -1; -1; -1; -1; -1; -1; -1;
    -1; -1; -1; -1; -1; -1; -1; -1; -1; -1; -1; -1; -1;  0;  0; -1;
     0;  0;  0;  0;  0;  0;  0;  0;  0;  0; -1; -1; -1; -1; -1; -1;
    -1;  1;  1;  1;  1;  1;  1;  1;  1;  1;  1;  1;  1;  1;  1;  1;
     1;  1;  1;  1;  1;  1;  1;  1;  1;  1;  1; -1; -1; -1; -1; -1;
    -1;  0;  0;  0;  0;  0;  0;  0;  0;  0;  0;  0;  0;  0;  0;  0;
     0;  0;  0;  0;  0;  0;  0;  0;  0;  0;  0; -1; -1; -1; -1; -1 ].

(** [asciiData[c]], read only for [c <= 0x7f]. *)
Definition asciiDataAt (c : UChar) : Z := default (-1) (readZ asciiData c).

(** Modelled from the spec: [U16_NEXT_UNSAFE(s, i, c)] and
    [U16_PREV_UNSAFE(s, i, c)] of [unicode/utf16.h] (not among the sources),
    which decode the code point after or before index [i] without any bounds
    check.  [rd] reads one unit at an index relative to the pointer [s]; the
    result is the code point and the new value of [i]. *)
Definition U16_NEXT_UNSAFE (rd : Z -> option UChar) (i : Z) : option (UChar32 * Z) :=
  c ← rd i;
  if U16_IS_LEAD c then
    t ← rd (i + 1); Some (U16_GET_SUPPLEMENTARY c t, i + 2)
  else Some (c, i + 1).

Definition U16_PREV_UNSAFE (rd : Z -> option UChar) (i : Z) : option (UChar32 * Z) :=
  c ← rd (i - 1);
  if U16_IS_TRAIL c then
    l ← rd (i - 2); Some (U16_GET_SUPPLEMENTARY l c, i - 2)
  else Some (c, i - 1).

(** The pointer [label = buf + labelStart], read at a relative index. *)
Definition labelAt (buf : ustring) (labelStart : nat) (k : Z) : option UChar :=
  readZ buf (Z.of_nat labelStart + k).

(** The 32-bit complement [~x]. *)
Definition not32 (x : Z) : Z := Z.land (Z.lnot x) 0xffffffff.

(** A C comparison as an [int]. *)
Definition b2z (b : bool) : Z := if b then 1 else 0.

Section WithProps.
Context (props : UCharProps).

Definition dirMask (c : UChar32) : Z := U_MASK (u_charDirection props c).

(** The loop of [isLabelOkBiDi] that finds the class of the last character
    that is not NSM: the mask found and the decremented [labelLength]. *)
Fixpoint bidiLast (fuel : nat) (rd : Z -> option UChar) (i labelLength firstMask : Z)
    : option (Z * Z) :=
  if i >=? labelLength then Some (firstMask, labelLength)
  else match fuel with
  | O => None
  | S fuel =>
      '(c, labelLength) ← U16_PREV_UNSAFE rd labelLength;
      let dir := u_charDirection props c in
      if negb (dir_value dir =? dir_value U_DIR_NON_SPACING_MARK)
      then Some (U_MASK dir, labelLength)
      else bidiLast fuel rd i labelLength firstMask
  end.

(** The loop that ORs the classes of the intervening characters. *)
Fixpoint bidiMask (fuel : nat) (rd : Z -> option UChar) (i labelLength mask : Z)
    : option Z :=
  if i <? labelLength then
    match fuel with
    | O => None
    | S fuel =>
        '(c, i) ← U16_NEXT_UNSAFE rd i;
        bidiMask fuel rd i labelLength (Z.lor mask (dirMask c))
    end
  else Some mask.

(** [UTS46::isLabelOkBiDi].  The mask macros of the source are defined
    without parentheses around their bodies, for example
    [#define R_AL_MASK U_MASK(U_RIGHT_TO_LEFT)|U_MASK(U_RIGHT_TO_LEFT_ARABIC)]
    and [#define L_R_AL_MASK L_MASK|R_AL_MASK]; each test below is the text
    that the preprocessor produces, grouped by the precedence of C ([~]
    before [&], [&] before [|], [==] before [&] and [|]). *)
Definition isLabelOkBiDi (buf : ustring) (labelStart labelLength : nat)
    : option bool :=
  let rd := labelAt buf labelStart in
  let L := U_MASK U_LEFT_TO_RIGHT in
  let R := U_MASK U_RIGHT_TO_LEFT in
  let AL := U_MASK U_RIGHT_TO_LEFT_ARABIC in
  let EN := U_MASK U_EUROPEAN_NUMBER in
  let AN := U_MASK U_ARABIC_NUMBER in
  let ES := U_MASK U_EUROPEAN_NUMBER_SEPARATOR in
  let CS := U_MASK U_COMMON_NUMBER_SEPARATOR in
  let ET := U_MASK U_EUROPEAN_NUMBER_TERMINATOR in
  let ON := U_MASK U_OTHER_NEUTRAL in
  let BN := U_MASK U_BOUNDARY_NEUTRAL in
  let NSM := U_MASK U_DIR_NON_SPACING_MARK in
  let lors := foldl Z.lor in
  '(c, i) ← U16_NEXT_UNSAFE rd 0;
  let firstMask := dirMask c in
  (* (firstMask&~L_R_AL_MASK)!=0  is  (firstMask & ~L | R | AL) != 0 *)
  if negb (lors (Z.land firstMask (not32 L)) [R; AL] =? 0) then Some false
  else
    '(lastMask, labelLength) ←
      bidiLast (S labelLength) rd i (Z.of_nat labelLength) firstMask;
    (* (firstMask&L_MASK)!=0 ? (lastMask & ~L | EN) != 0
                             : (lastMask & ~R | AL | EN | AN) != 0 *)
    if (if negb (Z.land firstMask L =? 0)
        then negb (lors (Z.land lastMask (not32 L)) [EN] =? 0)
        else negb (lors (Z.land lastMask (not32 R)) [AL; EN; AN] =? 0))
    then Some false
    else
      mask ← bidiMask (Z.to_nat labelLength) rd i labelLength 0;
      if negb (Z.land firstMask L =? 0) then
        (* (mask & ~L | EN | ES | CS | ET | ON | BN | NSM) != 0 *)
        if negb (lors (Z.land mask (not32 L)) [EN; ES; CS; ET; ON; BN; NSM] =? 0)
        then Some false else Some true
      else
        (* (mask & ~R | AL | EN | AN | ES | CS | ET | ON | BN | NSM) != 0 *)
        if negb (lors (Z.land mask (not32 R))
                   [AL; EN; AN; ES; CS; ET; ON; BN; NSM] =? 0)
        then Some false
        (* (mask&EN_AN_MASK)==EN_AN_MASK  is
           ((mask & EN | AN) == EN) | AN *)
        else if negb (Z.lor (b2z (Z.lor (Z.land mask EN) AN =? EN)) AN =? 0)
        then Some false
        else Some true.

(** The precontext loop of [isLabelOkContextJ]: is the precontext
    fulfilled? *)
Fixpoint contextJPre (fuel : nat) (rd : Z -> option UChar) (c : UChar32) (j : Z)
    : option bool :=
  match u_getJoiningType props c with
  | U_JT_TRANSPARENT =>
      if j =? 0 then Some false
      else match fuel with
      | O => None
      | S fuel =>
          '(c, j) ← U16_PREV_UNSAFE rd j;
          contextJPre fuel rd c j
      end
  | U_JT_LEFT_JOINING | U_JT_DUAL_JOINING => Some true
  | _ => Some false
  end.

(** The postcontext loop, [for(j=i+1;;)]: the source tests [j] against
    [labelLength] but decodes at [i] and advances [i].  The answer is the
    value of [i] when the postcontext is fulfilled, and [None] inside for
    [return FALSE]. *)
Fixpoint contextJPost (fuel : nat) (rd : Z -> option UChar) (i j labelLength : Z)
    : option (option Z) :=
  if j =? labelLength then Some None
  else match fuel with
  | O => None
  | S fuel =>
      '(c, i) ← U16_NEXT_UNSAFE rd i;
      match u_getJoiningType props c with
      | U_JT_TRANSPARENT => contextJPost fuel rd i j labelLength
      | U_JT_RIGHT_JOINING | U_JT_DUAL_JOINING => Some (Some i)
      | _ => Some None
      end
  end.

(** The outer loop of [isLabelOkContextJ]. *)
Fixpoint contextJLoop (fuel inner : nat) (rd : Z -> option UChar) (i labelLength : Z)
    : option bool :=
  if i <? labelLength then
    match fuel with
    | O => None
    | S fuel =>
        u ← rd i;
        if u =? 0x200c then
          if i =? 0 then Some false
          else
            '(c, j) ← U16_PREV_UNSAFE rd i;
            if u_getCombiningClass props c =? 9
            then contextJLoop fuel inner rd (i + 1) labelLength
            else
              pre ← contextJPre inner rd c j;
              if negb pre then Some false
              else
                post ← contextJPost inner rd i (i + 1) labelLength;
                match post with
                | None => Some false
                | Some i => contextJLoop fuel inner rd (i + 1) labelLength
                end
        else if u =? 0x200d then
          if i =? 0 then Some false
          else
            '(c, j) ← U16_PREV_UNSAFE rd i;
            if negb (u_getCombiningClass props c =? 9) then Some false
            else contextJLoop fuel inner rd (i + 1) labelLength
        else contextJLoop fuel inner rd (i + 1) labelLength
    end
  else Some true.

(** [UTS46::isLabelOkContextJ]. *)
Definition isLabelOkContextJ (buf : ustring) (labelStart labelLength : nat)
    : option bool :=
  contextJLoop (S labelLength) (S (length buf)) (labelAt buf labelStart)
    0 (Z.of_nat labelLength).

End WithProps.

(** ** Label processing *)

(** [replaceLabel]: [label_is_dest] says whether [&label==&dest]. *)
Definition replaceLabel (dest : ustring) (destLabelStart destLabelLength : nat)
    (label_is_dest : bool) (label : ustring) (labelLength : nat) : ustring * Z :=
  (if label_is_dest then dest
   else us_replace dest destLabelStart destLabelLength label,
   Z.of_nat labelLength - Z.of_nat destLabelLength).

(** One comparison [buf[i]==v] of a chain of [&&]. *)
Definition unitIs (buf : ustring) (i : nat) (v : UChar) : option bool :=
  c ← buf !! i; Some (c =? v).

(** [a && b] over reads that may be undefined: [b] is evaluated only when
    [a] holds. *)
Definition andM (a b : option bool) : option bool :=
  x ← a; if x : bool then b else Some false.

(** What the scan of a label carries from one round to the next: the buffer
    that [labelString] points to, the label length, the index [s] in that
    buffer, and the flags. *)
Record Scan : Type := {
  sc_buf : ustring;
  sc_labelLength : nat;
  sc_s : nat;
  sc_oredChars : Z;
  sc_didMapDevChars : bool;
  sc_info : IDNAInfo
}.

Section WithEnv.
Context (props : UCharProps) (puny : Punycode).
Context (uts46Norm2 nfcNorm2 : Normalizer2) (options : Z).

Definition disallowNonLDHDot : bool :=
  negb (Z.land options UIDNA_USE_STD3_RULES =? 0).

(** One round of the loop that follows a Punycode decoding error, on the unit
    [c] read at index [s]: the destination, [onlyLDH] and the info after
    it. *)
Definition punycodeErrorStep (dest : ustring) (s : nat) (c : UChar)
    (onlyLDH : bool) (info : IDNAInfo) : ustring * bool * IDNAInfo :=
  if c <=? 0x7f then
    if c =? 0x2e then
      (<[s := 0xfffd]> dest, false, or_error UIDNA_ERROR_LABEL_HAS_DOT info)
    else if asciiDataAt c <? 0 then
      (if disallowNonLDHDot then <[s := 0xfffd]> dest else dest, false, info)
    else (dest, onlyLDH, info)
  else (dest, false, info).

(** The [do ... while(++s<limit)] loop that follows a Punycode decoding error.
    [n] counts the rounds that may follow this one. *)
Fixpoint punycodeErrorScan (n : nat) (dest : ustring) (s limit : nat)
    (onlyLDH : bool) (info : IDNAInfo) : option (ustring * bool * IDNAInfo) :=
  c ← dest !! s;
  let '(dest, onlyLDH, info) := punycodeErrorStep dest s c onlyLDH info in
  if decide (s + 1 < limit)%nat then
    match n with
    | O => None
    | S n => punycodeErrorScan n dest (s + 1) limit onlyLDH info
    end
  else Some (dest, onlyLDH, info).

(** The Punycode decoding of the units after ["xn--"], with the second call
    that follows a [U_BUFFER_OVERFLOW_ERROR]: the decoded string and
    [punycodeErrorCode]. *)
Definition decodePunycode (src : ustring) : ustring * UErrorCode :=
  let '(unicode, punycodeErrorCode) :=
    u_strFromPunycode puny src (capacityFor puny (-1)) U_ZERO_ERROR in
  if punycodeErrorCode =? U_BUFFER_OVERFLOW_ERROR then
    u_strFromPunycode puny src (capacityFor puny (Z.of_nat (length unicode)))
      U_ZERO_ERROR
  else (unicode, punycodeErrorCode).

(** One round of the main scan of [processLabel], the body of
    [do ... while(s<limit)]. *)
Definition scanStep (wasPunycode doMapDevChars : bool) (sc : Scan) : option Scan :=
  let buf := sc_buf sc in
  let s := sc_s sc in
  let info := sc_info sc in
  c ← buf !! s;
  if c <=? 0x7f then
    if c =? 0x2e then
      Some {| sc_buf := <[s := 0xfffd]> buf;
              sc_labelLength := sc_labelLength sc; sc_s := S s;
              sc_oredChars := sc_oredChars sc;
              sc_didMapDevChars := sc_didMapDevChars sc;
              sc_info := or_error UIDNA_ERROR_LABEL_HAS_DOT info |}
    else if disallowNonLDHDot && (asciiDataAt c <? 0) then
      let info := or_error UIDNA_ERROR_DISALLOWED info in
      let info := if wasPunycode
                  then or_error UIDNA_ERROR_INVALID_ACE_LABEL info else info in
      Some {| sc_buf := <[s := 0xfffd]> buf;
              sc_labelLength := sc_labelLength sc; sc_s := S s;
              sc_oredChars := sc_oredChars sc;
              sc_didMapDevChars := sc_didMapDevChars sc;
              sc_info := info |}
    else
      Some {| sc_buf := buf;
              sc_labelLength := sc_labelLength sc; sc_s := S s;
              sc_oredChars := sc_oredChars sc;
              sc_didMapDevChars := sc_didMapDevChars sc;
              sc_info := info |}
  else
    let oredChars := Z.lor (sc_oredChars sc) c in
    if c =? 0xdf then
      if doMapDevChars then
        (* sharp s: the first s in place, the second one inserted after it *)
        Some {| sc_buf := us_insert (<[s := 0x73]> buf) (S s) 0x73;
                sc_labelLength := S (sc_labelLength sc); sc_s := S (S s);
                sc_oredChars := oredChars;
                sc_didMapDevChars := true;
                sc_info := set_hasDevChars info |}
      else
        Some {| sc_buf := buf;
                sc_labelLength := sc_labelLength sc; sc_s := S s;
                sc_oredChars := oredChars;
                sc_didMapDevChars := sc_didMapDevChars sc;
                sc_info := set_hasDevChars info |}
    else if c =? 0x3c2 then
      Some {| sc_buf := if doMapDevChars then <[s := 0x3c3]> buf else buf;
              sc_labelLength := sc_labelLength sc; sc_s := S s;
              sc_oredChars := oredChars;
              sc_didMapDevChars := if doMapDevChars then true
                                   else sc_didMapDevChars sc;
              sc_info := set_hasDevChars info |}
    else if (c =? 0x200c) || (c =? 0x200d) then
      if doMapDevChars then
        (* the joiner is removed; [continue] skips the [++s] *)
        Some {| sc_buf := us_remove buf s 1;
                sc_labelLength := pred (sc_labelLength sc); sc_s := s;
                sc_oredChars := oredChars;
                sc_didMapDevChars := true;
                sc_info := set_hasDevChars info |}
      else
        Some {| sc_buf := buf;
                sc_labelLength := sc_labelLength sc; sc_s := S s;
                sc_oredChars := oredChars;
                sc_didMapDevChars := sc_didMapDevChars sc;
                sc_info := set_hasDevChars info |}
    else if c =? 0xfffd then
      Some {| sc_buf := buf;
              sc_labelLength := sc_labelLength sc; sc_s := S s;
              sc_oredChars := oredChars;
              sc_didMapDevChars := sc_didMapDevChars sc;
              sc_info := or_error UIDNA_ERROR_DISALLOWED info |}
    else
      Some {| sc_buf := buf;
              sc_labelLength := sc_labelLength sc; sc_s := S s;
              sc_oredChars := oredChars;
              sc_didMapDevChars := sc_didMapDevChars sc;
              sc_info := info |}.

(** The loop [do ... while(s<limit)] with [limit = label + labelLength];
    [n] counts the rounds that may follow this one. *)
Fixpoint scanLoop (n : nat) (wasPunycode doMapDevChars : bool) (labelStart : nat)
    (sc : Scan) : option Scan :=
  sc ← scanStep wasPunycode doMapDevChars sc;
  if decide (sc_s sc < labelStart + sc_labelLength sc)%nat then
    match n with
    | O => None
    | S n => scanLoop n wasPunycode doMapDevChars labelStart sc
    end
  else Some sc.

(** [return replaceLabel(dest, destLabelStart, destLabelLength, *labelString,
    labelLength)]: what [processLabel] hands back.  [labelString] is [None]
    when it points to [dest] and holds the string otherwise. *)
Definition returnLabel (dest : ustring) (destLabelStart destLabelLength : nat)
    (labelString : option ustring) (labelLength : nat)
    (info : IDNAInfo) (errorCode : UErrorCode)
    : ustring * Z * IDNAInfo * UErrorCode :=
  let '(dest, delta) :=
    replaceLabel dest destLabelStart destLabelLength
      (bool_decide (labelString = None)) (default dest labelString)
      labelLength in
  (dest, delta, info, errorCode).

(** The BiDi and CONTEXTJ checks of [processLabel]: the info after them. *)
Definition checkBiDiContextJ (label : ustring) (labelStart labelLength : nat)
    (oredChars : Z) (info : IDNAInfo) : option IDNAInfo :=
  bidi ←
    (if negb (Z.land options UIDNA_CHECK_BIDI =? 0) && (oredChars >=? 0x590)
     then ok ← isLabelOkBiDi props label labelStart labelLength;
          Some (negb ok)
     else Some false);
  let info := if bidi : bool then or_error UIDNA_ERROR_BIDI info else info in
  contextj ←
    (if negb (Z.land options UIDNA_CHECK_CONTEXTJ =? 0)
        && (Z.land oredChars 0x200c =? 0x200c)
     then ok ← isLabelOkContextJ props label labelStart labelLength;
          Some (negb ok)
     else Some false);
  Some (if contextj : bool then or_error UIDNA_ERROR_CONTEXTJ info else info).

(** The Punycode encoding of a label, with the second call that follows a
    [U_BUFFER_OVERFLOW_ERROR]: the units after ["xn--"] and the status. *)
Definition encodePunycode (src : ustring) (errorCode : UErrorCode)
    : ustring * UErrorCode :=
  let '(out, errorCode) :=
    u_strToPunycode puny src (capacityFor puny 63 - 4) errorCode in
  if errorCode =? U_BUFFER_OVERFLOW_ERROR then
    u_strToPunycode puny src
      (capacityFor puny (Z.of_nat (length out)) - 4) U_ZERO_ERROR
  else (out, errorCode).

(** The end of [processLabel], from the BiDi check on. *)
Definition encodeLabel (dest : ustring) (labelString : option ustring)
    (labelStart labelLength destLabelStart destLabelLength : nat)
    (wasPunycode toASCII : bool) (oredChars : Z) (didMapDevChars : bool)
    (info : IDNAInfo) (errorCode : UErrorCode)
    : option (ustring * Z * IDNAInfo * UErrorCode) :=
  let label := default dest labelString in
  info ← checkBiDiContextJ label labelStart labelLength oredChars info;
  if toASCII &&
     (if wasPunycode then didMapDevChars || negb (errors info =? 0)
      else oredChars >=? 0x80)
  then
    src ← slice label labelStart labelLength;
    let '(out, errorCode) := encodePunycode src errorCode in
    let punycode := [0x78; 0x6e; 0x2d; 0x2d] ++ out in
    let punycodeLength := (length out + 4)%nat in
    if U_SUCCESS errorCode then
      let info := if decide (63 < punycodeLength)%nat
                  then or_error UIDNA_ERROR_LABEL_TOO_LONG info else info in
      Some (returnLabel dest destLabelStart destLabelLength
              (Some punycode) punycodeLength info errorCode)
    else Some (returnLabel dest destLabelStart destLabelLength
                 labelString labelLength info errorCode)
  else Some (returnLabel dest destLabelStart destLabelLength
               labelString labelLength info errorCode).

(** The end of [processLabel], from the NFC normalization on. *)
Definition finishLabel (dest : ustring) (labelString : option ustring)
    (labelStart labelLength destLabelStart destLabelLength : nat)
    (wasPunycode toASCII : bool) (oredChars : Z) (didMapDevChars : bool)
    (info : IDNAInfo) (errorCode : UErrorCode)
    : option (ustring * Z * IDNAInfo * UErrorCode) :=
  if didMapDevChars then
    let '(normalized, errorCode) :=
      normalize nfcNorm2
        (match labelString with
         | None => tempSubString dest labelStart labelLength
         | Some str => str
         end) errorCode in
    if U_FAILURE errorCode then
      Some (returnLabel dest destLabelStart destLabelLength
              labelString labelLength info errorCode)
    else
      encodeLabel dest (Some normalized) 0 (length normalized)
        destLabelStart destLabelLength wasPunycode toASCII
        oredChars didMapDevChars info errorCode
  else
    encodeLabel dest labelString labelStart labelLength
      destLabelStart destLabelLength wasPunycode toASCII
      oredChars didMapDevChars info errorCode.

(** [processLabel] once the label is known to be Punycode or not: the
    validity checks and the scan. *)
Definition checkLabel (dest : ustring) (labelString : option ustring)
    (labelStart labelLength destLabelStart destLabelLength : nat)
    (wasPunycode toASCII : bool) (info : IDNAInfo) (errorCode : UErrorCode)
    : option (ustring * Z * IDNAInfo * UErrorCode) :=
  if decide (labelLength = 0)%nat then
    let info := if toASCII then or_error UIDNA_ERROR_EMPTY_LABEL info else info in
    Some (returnLabel dest destLabelStart destLabelLength
            labelString labelLength info errorCode)
  else
    let buf := default dest labelString in
    h34 ← (if decide (4 <= labelLength)%nat
           then andM (unitIs buf (labelStart + 2) 0x2d)
                     (unitIs buf (labelStart + 3) 0x2d)
           else Some false);
    let info := if h34 : bool then or_error UIDNA_ERROR_HYPHEN_3_4 info else info in
    first ← unitIs buf labelStart 0x2d;
    let info := if first : bool
                then or_error UIDNA_ERROR_LEADING_HYPHEN info else info in
    last ← unitIs buf (labelStart + labelLength - 1) 0x2d;
    let info := if last : bool
                then or_error UIDNA_ERROR_TRAILING_HYPHEN info else info in
    '(c, cpLength) ← U16_NEXT_UNSAFE (labelAt buf labelStart) 0;
    let '(buf, labelLength, info) :=
      if negb (Z.land (U_GET_GC_MASK props c) U_GC_M_MASK =? 0) then
        (us_replace buf labelStart (Z.to_nat cpLength) [0xfffd],
         (labelLength + 1 - Z.to_nat cpLength)%nat,
         or_error UIDNA_ERROR_LEADING_COMBINING_MARK info)
      else (buf, labelLength, info) in
    let doMapDevChars :=
      negb wasPunycode &&
      (if toASCII
       then Z.land options UIDNA_NONTRANSITIONAL_TO_ASCII =? 0
       else Z.land options UIDNA_NONTRANSITIONAL_TO_UNICODE =? 0) in
    sc ← scanLoop labelLength wasPunycode doMapDevChars labelStart
           {| sc_buf := buf; sc_labelLength := labelLength; sc_s := labelStart;
              sc_oredChars := 0; sc_didMapDevChars := false; sc_info := info |};
    let '(dest, labelString) :=
      match labelString with
      | None => (sc_buf sc, None)
      | Some _ => (dest, Some (sc_buf sc))
      end in
    finishLabel dest labelString labelStart (sc_labelLength sc)
      destLabelStart destLabelLength wasPunycode toASCII
      (sc_oredChars sc) (sc_didMapDevChars sc) (sc_info sc) errorCode.

(** [UTS46::processLabel]: the destination, the delta, the info and the
    status afterwards. *)
Definition processLabel (dest : ustring) (labelStart labelLength : nat)
    (toASCII : bool) (info : IDNAInfo) (errorCode : UErrorCode)
    : option (ustring * Z * IDNAInfo * UErrorCode) :=
  xn ← (if decide (4 <= labelLength)%nat
        then andM (unitIs dest labelStart 0x78)
               (andM (unitIs dest (labelStart + 1) 0x6e)
                  (andM (unitIs dest (labelStart + 2) 0x2d)
                        (unitIs dest (labelStart + 3) 0x2d)))
        else Some false);
  if xn : bool then
    src ← slice dest (labelStart + 4) (labelLength - 4);
    let '(unicode, punycodeErrorCode) := decodePunycode src in
    if U_FAILURE punycodeErrorCode then
      let info := or_error UIDNA_ERROR_PUNYCODE info in
      '(dest, onlyLDH, info) ←
        punycodeErrorScan labelLength dest (labelStart + 4)
          (labelStart + labelLength) true info;
      if onlyLDH : bool then
        Some (us_insert dest (labelStart + labelLength) 0xfffd, 1,
              info, errorCode)
      else Some (dest, 0, info, errorCode)
    else
      let '(fromPunycode, errorCode) := normalize uts46Norm2 unicode errorCode in
      if U_FAILURE errorCode then Some (dest, 0, info, errorCode)
      else
        let info := if bool_decide (unicode = fromPunycode) then info
                    else or_error UIDNA_ERROR_INVALID_ACE_LABEL info in
        checkLabel dest (Some fromPunycode) 0 (length fromPunycode)
          labelStart labelLength true toASCII info errorCode
  else
    checkLabel dest None labelStart labelLength labelStart labelLength
      false toASCII info errorCode.

(** ** Whole names *)

(** The [while(labelLimit<destLength)] loop of [processUnicode].  [n] bounds
    the rounds.  The answer carries [true] when the loop was left by
    [return dest] after a failure. *)
Fixpoint labelsLoop (n : nat) (toASCII : bool) (dest : ustring)
    (destLength labelStart labelLimit : Z) (info : IDNAInfo)
    (errorCode : UErrorCode)
    : option (bool * ustring * Z * Z * IDNAInfo * UErrorCode) :=
  if labelLimit <? destLength then
    match n with
    | O => None
    | S n =>
        c ← readZ dest labelLimit;
        if c =? 0x2e then
          '(dest, delta, info, errorCode) ←
            processLabel dest (Z.to_nat labelStart)
              (Z.to_nat (labelLimit - labelStart)) toASCII info errorCode;
          if U_FAILURE errorCode
          then Some (true, dest, labelStart, labelLimit, info, errorCode)
          else
            let destLength := destLength + delta in
            let labelLimit := labelLimit + (delta + 1) in
            labelsLoop n toASCII dest destLength labelLimit labelLimit
              info errorCode
        else
          labelsLoop n toASCII dest destLength labelStart (labelLimit + 1)
            info errorCode
    end
  else Some (false, dest, labelStart, labelLimit, info, errorCode).

(** [UTS46::processUnicode]; [dest] holds what the ASCII fastpath wrote. *)
Definition processUnicode (src : ustring) (labelStart mappingStart : nat)
    (isLabel toASCII : bool) (dest : ustring) (info : IDNAInfo)
    (errorCode : UErrorCode) : option (ustring * IDNAInfo * UErrorCode) :=
  let '(dest, errorCode) :=
    if decide (mappingStart = 0)%nat then normalize uts46Norm2 src errorCode
    else normalizeSecondAndAppend uts46Norm2 dest (drop mappingStart src)
           errorCode in
  if U_FAILURE errorCode then Some (dest, info, errorCode)
  else if isLabel then
    '(dest, _, info, errorCode) ←
      processLabel dest 0 (length dest) toASCII info errorCode;
    Some (dest, info, errorCode)
  else
    let destLength := Z.of_nat (length dest) in
    '(failed, dest, labelStart, labelLimit, info, errorCode) ←
      labelsLoop (length dest) toASCII dest destLength (Z.of_nat labelStart)
        (Z.of_nat labelStart) info errorCode;
    if failed : bool then Some (dest, info, errorCode)
    else if (0 =? labelStart) || (labelStart <? labelLimit) then
      '(dest, _, info, errorCode) ←
        processLabel dest (Z.to_nat labelStart)
          (Z.to_nat (labelLimit - labelStart)) toASCII info errorCode;
      Some (dest, info, errorCode)
    else Some (dest, info, errorCode).

(** How the ASCII fastpath of [process] ends: at the end of the source, or
    by a [break] at index [i]. *)
Inductive FastPath : Type :=
  | AtEnd (destArray : ustring) (i : nat) (info : IDNAInfo)
  | Break (destArray : ustring) (i : nat) (labelStart : nat) (info : IDNAInfo).

Definition fastPath_info (r : FastPath) : IDNAInfo :=
  match r with
  | AtEnd _ _ info => info
  | Break _ _ _ info => info
  end.

(** The [for(i=0;; ++i)] loop of [process].  [rest] is what is left of the
    source from index [i] on, so that [i==srcLength] is [rest = []] and
    [srcArray[i+1]] is the second unit of [rest]; [destArray] is the buffer
    that [dest.getBuffer(srcLength)] handed out. *)
Fixpoint fastPath (src rest : ustring) (isLabel toASCII : bool)
    (destArray : ustring) (i labelStart : nat) (info : IDNAInfo) : FastPath :=
  match rest with
  | [] =>
      AtEnd destArray i
        (if toASCII && bool_decide (63 < i - labelStart)%nat
         then or_error UIDNA_ERROR_LABEL_TOO_LONG info else info)
  | c :: rest =>
      if 0x7f <? c then Break destArray i labelStart info
      else
        let cData := asciiDataAt c in
        if 0 <? cData then
          fastPath src rest isLabel toASCII (<[i := c + 0x20]> destArray)
            (S i) labelStart info
        else if (cData <? 0) && disallowNonLDHDot then
          Break destArray i labelStart info
        else
          let destArray := <[i := c]> destArray in
          if c =? 0x2d then
            if bool_decide (i = labelStart + 3)%nat
               && bool_decide (src !! (i - 1)%nat = Some 0x2d)
            then Break destArray i labelStart info
            else
              let info := if bool_decide (i = labelStart)
                          then or_error UIDNA_ERROR_LEADING_HYPHEN info
                          else info in
              let info := if match rest with
                             | [] => true
                             | next :: _ => next =? 0x2e
                             end
                          then or_error UIDNA_ERROR_TRAILING_HYPHEN info
                          else info in
              fastPath src rest isLabel toASCII destArray (S i) labelStart info
          else if c =? 0x2e then
            if isLabel then Break destArray i labelStart info
            else
              let info :=
                if bool_decide (i = labelStart)
                   && bool_decide (i < length src - 1)%nat
                then or_error UIDNA_ERROR_EMPTY_LABEL info
                else if toASCII && bool_decide (63 < i - labelStart)%nat
                then or_error UIDNA_ERROR_LABEL_TOO_LONG info
                else info in
              fastPath src rest isLabel toASCII destArray (S i) (S i) info
          else fastPath src rest isLabel toASCII destArray (S i) labelStart info
  end.

(** [UTS46::process].  [src] is [Bogus] when [src.getBuffer()] is [NULL];
    [dest_is_src] says whether [&dest==&src].  [info] and [errorCode] are
    the values that the caller's objects hold on entry. *)
Definition process (src : UnicodeString) (dest_is_src : bool)
    (isLabel toASCII : bool) (info : IDNAInfo) (errorCode : UErrorCode)
    : option (UnicodeString * IDNAInfo * UErrorCode) :=
  if U_FAILURE errorCode then Some (Bogus, info, errorCode)
  else match src with
  | Bogus => Some (Bogus, info, U_ILLEGAL_ARGUMENT_ERROR)
  | Str srcArray =>
      if dest_is_src then Some (Bogus, info, U_ILLEGAL_ARGUMENT_ERROR)
      else
        let info := reset in
        let srcLength := length srcArray in
        if decide (srcLength = 0)%nat then
          Some (Str [], or_error UIDNA_ERROR_EMPTY_LABEL info, errorCode)
        else
          match fastPath srcArray srcArray isLabel toASCII
                  (replicate srcLength 0) 0 0 info with
          | AtEnd destArray i info =>
              Some (Str (take i destArray), info, errorCode)
          | Break destArray i labelStart info =>
              '(dest, info, errorCode) ←
                processUnicode srcArray labelStart i isLabel toASCII
                  (take i destArray) info errorCode;
              Some (Str dest, info, errorCode)
          end
  end.

(** The four entry points. *)
Definition labelToASCII (label : UnicodeString) (dest_is_src : bool)
    (info : IDNAInfo) (errorCode : UErrorCode)
    : option (UnicodeString * IDNAInfo * UErrorCode) :=
  '(dest, info, errorCode) ← process label dest_is_src true true info errorCode;
  Some (if hasErrors info then Bogus else dest, info, errorCode).

Definition labelToUnicode (label : UnicodeString) (dest_is_src : bool)
    (info : IDNAInfo) (errorCode : UErrorCode)
    : option (UnicodeString * IDNAInfo * UErrorCode) :=
  process label dest_is_src true false info errorCode.

Definition nameToASCII (name : UnicodeString) (dest_is_src : bool)
    (info : IDNAInfo) (errorCode : UErrorCode)
    : option (UnicodeString * IDNAInfo * UErrorCode) :=
  '(dest, info, errorCode) ← process name dest_is_src false true info errorCode;
  let info :=
    if bool_decide (254 <= us_length dest)%nat
       && (bool_decide (254 < us_length dest)%nat
           || negb (us_charAt dest 253 =? 0x2e))
    then or_error UIDNA_ERROR_DOMAIN_NAME_TOO_LONG info else info in
  Some (if hasErrors info then Bogus else dest, info, errorCode).

Definition nameToUnicode (name : UnicodeString) (dest_is_src : bool)
    (info : IDNAInfo) (errorCode : UErrorCode)
    : option (UnicodeString * IDNAInfo * UErrorCode) :=
  process name dest_is_src false false info errorCode.

End WithEnv.
End UTS46.

(** * Reference definitions

    The words of the specification that the theorems compare the code with,
    and the relations in which the theorems are stated. *)

Module Spec.
Import UTS46.

(** "LDH: Letters, Digits, Hyphen". *)
Definition isLDH (c : UChar) : bool :=
  ((0x61 <=? c) && (c <=? 0x7a)) || ((0x41 <=? c) && (c <=? 0x5a))
  || ((0x30 <=? c) && (c <=? 0x39)) || (c =? 0x2d).

(** The code points of a string, surrogate pairs decoded. *)
Fixpoint codePoints (fuel : nat) (s : ustring) : list UChar32 :=
  match fuel with
  | O => []
  | S fuel =>
      match s with
      | [] => []
      | c :: rest =>
          match rest with
          | t :: rest' =>
              if U16_IS_LEAD c && U16_IS_TRAIL t
              then U16_GET_SUPPLEMENTARY c t :: codePoints fuel rest'
              else c :: codePoints fuel rest
          | [] => [c]
          end
      end
  end.

(** "Postcontext: walking right from i, skipping Transparent, the first
    non-Transparent must be Right-Joining or Dual-Joining.  Hitting the end
    is failure."  [after] holds the code points that follow the joiner. *)
Fixpoint postcontext (props : UCharProps) (after : list UChar32) : bool :=
  match after with
  | [] => false
  | c :: after =>
      match u_getJoiningType props c with
      | U_JT_TRANSPARENT => postcontext props after
      | U_JT_RIGHT_JOINING | U_JT_DUAL_JOINING => true
      | _ => false
      end
  end.

(** What the scan after a Punycode decoding error leaves in place of a unit:
    U+FFFD for a dot, and for a disallowed ASCII character, one that is no
    letter, digit or hyphen, when STD3 rules are on. *)
Definition afterPunycodeError (std3 : bool) (c : UChar) : UChar :=
  if c =? 0x2e then 0xfffd
  else if (c <=? 0x7f) && negb (isLDH c) && std3 then 0xfffd
  else c.

(** The error bits that [process] and [processLabel] write. *)
Definition labelErrorBits : list Z :=
  [ UIDNA_ERROR_EMPTY_LABEL; UIDNA_ERROR_LABEL_TOO_LONG;
    UIDNA_ERROR_LEADING_HYPHEN; UIDNA_ERROR_TRAILING_HYPHEN;
    UIDNA_ERROR_HYPHEN_3_4; UIDNA_ERROR_LEADING_COMBINING_MARK;
    UIDNA_ERROR_DISALLOWED; UIDNA_ERROR_PUNYCODE; UIDNA_ERROR_LABEL_HAS_DOT;
    UIDNA_ERROR_INVALID_ACE_LABEL; UIDNA_ERROR_BIDI; UIDNA_ERROR_CONTEXTJ ].

(** The writes to an [IDNAInfo]: [writes a b] when [b] comes from [a] by a
    sequence of [errors |= bit] with one of the bits above and of
    [hasDevChars = TRUE]. *)
Inductive writes (a : IDNAInfo) : IDNAInfo -> Prop :=
  | writes_refl : writes a a
  | writes_or b bit : writes a b -> bit ∈ labelErrorBits ->
      writes a (or_error bit b)
  | writes_dev b : writes a b -> writes a (set_hasDevChars b).

(** No error bit and no flag that is set in [a] is clear in [b]. *)
Definition info_le (a b : IDNAInfo) : Prop :=
  (forall n, Z.testbit (errors a) n = true -> Z.testbit (errors b) n = true)
  /\ (hasDevChars a = true -> hasDevChars b = true).

(** The total length rule of [nameToASCII]. *)
Definition tooLong (dest : UnicodeString) : Prop :=
  (254 <= us_length dest)%nat /\
  ((254 < us_length dest)%nat \/ us_charAt dest 253 <> 0x2e).

(** An error bit is set in an info. *)
Definition has_error (bit : Z) (info : IDNAInfo) : Prop :=
  Z.land (errors info) bit <> 0.

(** The rule for [UIDNA_ERROR_DOMAIN_NAME_TOO_LONG] at one call of
    [nameToASCII]: when the call returns, the bit is set if and only if the
    result of [process] is too long. *)
Definition DomainNameRule (props : UCharProps) (puny : Punycode)
    (uts46Norm2 nfcNorm2 : Normalizer2) (options : Z)
    (name : UnicodeString) (dest_is_src : bool) (info : IDNAInfo)
    (errorCode : UErrorCode) : Prop :=
  forall dest info' errorCode',
    nameToASCII props puny uts46Norm2 nfcNorm2 options name dest_is_src
      info errorCode = Some (dest, info', errorCode') ->
    exists processed info1 errorCode1,
      process props puny uts46Norm2 nfcNorm2 options name dest_is_src
        false true info errorCode = Some (processed, info1, errorCode1) /\
      (has_error UIDNA_ERROR_DOMAIN_NAME_TOO_LONG info' <-> tooLong processed).

(** What a [toASCII] entry point hands back, given what [process] returned:
    a bogus string when an error bit is set, the processed string
    otherwise. *)
Definition BogusIffErrors (processed : option (UnicodeString * IDNAInfo * UErrorCode))
    (dest : UnicodeString) (info : IDNAInfo) (errorCode : UErrorCode) : Prop :=
  (errors info <> 0 -> dest = Bogus) /\
  (errors info = 0 ->
   exists s, dest = Str s /\ processed = Some (Str s, info, errorCode)).

(** A range falls back to the base data when its CE32 is the fallback value
    itself, or is special and resolves to it by one [getIndirectCE32]. *)
Definition fallback (C : Collation) (d : CollationData) (ce32 : Z) : Prop :=
  ce32 = MIN_SPECIAL_CE32 C \/
  (isSpecialCE32 C ce32 = true /\ getIndirectCE32 C d ce32 = MIN_SPECIAL_CE32 C).

(** The fields of a [TailoredSet] that [handleCE32] and all it calls leave
    alone. *)
Definition same_env (st st' : TailoredSet.State) : Prop :=
  TailoredSet.data st' = TailoredSet.data st /\
  TailoredSet.baseData st' = TailoredSet.baseData st /\
  TailoredSet.errorCode st' = TailoredSet.errorCode st.

Definition keeps_env (f : TailoredSet.State -> option TailoredSet.State) : Prop :=
  forall st st', f st = Some st' -> same_env st st'.

(** ASCII letters and digits, and the lowercase form of a unit. *)
Definition isAlnum (c : UChar) : bool :=
  ((0x61 <=? c) && (c <=? 0x7a)) || ((0x41 <=? c) && (c <=? 0x5a))
  || ((0x30 <=? c) && (c <=? 0x39)).

Definition toLower (c : UChar) : UChar :=
  if (0x41 <=? c) && (c <=? 0x5a) then c + 0x20 else c.

(** What the comments in the table [asciiData] say of its entries. *)
Definition asciiClass (c : UChar) : Z :=
  if (0x41 <=? c) && (c <=? 0x5a) then 1
  else if ((0x61 <=? c) && (c <=? 0x7a)) || ((0x30 <=? c) && (c <=? 0x39))
          || (c =? 0x2d) || (c =? 0x2e) then 0
  else -1.

(** Labels joined by full stops. *)
Fixpoint joinLabels (labels : list ustring) : ustring :=
  match labels with
  | [] => []
  | [l] => l
  | l :: ls => l ++ 0x2e :: joinLabels ls
  end.

(** A label of a host name: one to 63 letters and digits. *)
Definition hostLabel (l : ustring) : Prop :=
  l <> [] /\ (length l <= 63)%nat /\ Forall (fun c => isAlnum c = true) l.

(** The error bits that [process] and all it calls can write, by the
    direction and the options: [UIDNA_ERROR_LABEL_TOO_LONG] only for
    [toASCII], the bits of the BiDi and CONTEXTJ checks only when the option
    asks for the check. *)
Definition writableBits (options : Z) (toASCII : bool) : list Z :=
  [ UIDNA_ERROR_EMPTY_LABEL; UIDNA_ERROR_LEADING_HYPHEN;
    UIDNA_ERROR_TRAILING_HYPHEN; UIDNA_ERROR_HYPHEN_3_4;
    UIDNA_ERROR_LEADING_COMBINING_MARK; UIDNA_ERROR_DISALLOWED;
    UIDNA_ERROR_PUNYCODE; UIDNA_ERROR_LABEL_HAS_DOT;
    UIDNA_ERROR_INVALID_ACE_LABEL ]
  ++ (if toASCII then [UIDNA_ERROR_LABEL_TOO_LONG] else [])
  ++ (if Z.land options UIDNA_CHECK_BIDI =? 0 then [] else [UIDNA_ERROR_BIDI])
  ++ (if Z.land options UIDNA_CHECK_CONTEXTJ =? 0 then []
      else [UIDNA_ERROR_CONTEXTJ]).

(** [writes_in bits a b]: [b] comes from [a] by writes [errors |= bit] with
    bits of the list, and by [hasDevChars = TRUE]. *)
Inductive writes_in (bits : list Z) (a : IDNAInfo) : IDNAInfo -> Prop :=
  | writes_in_refl : writes_in bits a a
  | writes_in_or b bit : writes_in bits a b -> bit ∈ bits ->
      writes_in bits a (or_error bit b)
  | writes_in_dev b : writes_in bits a b -> writes_in bits a (set_hasDevChars b).

(** Every joiner of a label stands directly after a code point of combining
    class 9 (a virama). *)
Definition joinersFollowVirama (props : UCharProps) (buf : ustring)
    (labelStart labelLength : nat) : Prop :=
  forall i u, (i < labelLength)%nat ->
    buf !! (labelStart + i)%nat = Some u -> u = 0x200c \/ u = 0x200d ->
    i <> 0%nat /\
    exists c j, U16_PREV_UNSAFE (labelAt buf labelStart) (Z.of_nat i) = Some (c, j) /\
                u_getCombiningClass props c = 9.

(** What the walk of [ContractionsAndExpansions] keeps: the data, the two
    set pointers and [addPrefixes] are as before; a set that [expansions]
    does not point to is as before; every set holds what it held; and the
    status is as before or, from a success, [U_INTERNAL_PROGRAM_ERROR]. *)
Definition walk_keeps (st st' : ContractionsAndExpansions.State) : Prop :=
  ContractionsAndExpansions.data st' = ContractionsAndExpansions.data st /\
  ContractionsAndExpansions.contractions st'
    = ContractionsAndExpansions.contractions st /\
  ContractionsAndExpansions.expansions st'
    = ContractionsAndExpansions.expansions st /\
  ContractionsAndExpansions.addPrefixes st'
    = ContractionsAndExpansions.addPrefixes st /\
  (forall l, ContractionsAndExpansions.expansions st <> Some l ->
     ContractionsAndExpansions.heap st' !! l
     = ContractionsAndExpansions.heap st !! l) /\
  (forall l s, ContractionsAndExpansions.heap st !! l = Some s ->
     exists s', ContractionsAndExpansions.heap st' !! l = Some s' /\ s ⊆ s') /\
  (ContractionsAndExpansions.errorCode st' = ContractionsAndExpansions.errorCode st \/
   (U_SUCCESS (ContractionsAndExpansions.errorCode st) = true /\
    ContractionsAndExpansions.errorCode st' = U_INTERNAL_PROGRAM_ERROR)).

End Spec.

(** * Sample collaborators

    Small tables with the values that the real property database, normalizers
    and Punycode codec have at the code points used in the examples below. *)

Module Samples.
Import UTS46.

(** U+0628 ARABIC LETTER BEH is AL and Dual_Joining, U+05D0 HEBREW LETTER
    ALEF is R, U+0661 ARABIC-INDIC DIGIT ONE is AN, the ASCII digits are EN;
    U+200C ZERO WIDTH NON-JOINER is Non_Joining; U+094D DEVANAGARI SIGN
    VIRAMA has combining class 9 and general category Mn. *)
Definition props : UCharProps :=
  {| U_GET_GC_MASK := fun c => if c =? 0x94d then Z.shiftl 1 6 else Z.shiftl 1 2;
     u_charDirection := fun c =>
       if c =? 0x628 then U_RIGHT_TO_LEFT_ARABIC
       else if c =? 0x5d0 then U_RIGHT_TO_LEFT
       else if c =? 0x661 then U_ARABIC_NUMBER
       else if (0x30 <=? c) && (c <=? 0x39) then U_EUROPEAN_NUMBER
       else U_LEFT_TO_RIGHT;
     u_getCombiningClass := fun c => if c =? 0x94d then 9 else 0;
     u_getJoiningType := fun c =>
       if c =? 0x628 then U_JT_DUAL_JOINING else U_JT_NON_JOINING |}.

(** ["bücher"] and its Punycode form ["bcher-kva"]. *)
Definition buecher : ustring := [0x62; 0xfc; 0x63; 0x68; 0x65; 0x72].
Definition bcher_kva : ustring :=
  [0x62; 0x63; 0x68; 0x65; 0x72; 0x2d; 0x6b; 0x76; 0x61].
Definition xn_bcher_kva : ustring := [0x78; 0x6e; 0x2d; 0x2d] ++ bcher_kva.

(** A codec that knows this one pair, decodes the empty string to itself and
    reports [U_INVALID_CHAR_FOUND] (10) for everything else. *)
Definition puny : Punycode :=
  {| u_strFromPunycode := fun s _ ec =>
       if bool_decide (s = bcher_kva) then (buecher, ec)
       else if bool_decide (s = []) then ([], ec)
       else ([], 10);
     u_strToPunycode := fun s _ ec =>
       if bool_decide (s = buecher) then (bcher_kva, ec) else ([], 10);
     capacityFor := fun n => Z.max n 27 |}.

(** A normalizer that leaves its input as it is, as the UTS #46 and NFC
    normalizers do on lowercase letters, digits, hyphens and dots. *)
Definition norm : Normalizer2 :=
  {| normalize := fun s ec => (s, ec);
     normalizeSecondAndAppend := fun first second ec => (first ++ second, ec) |}.

(** A [Collation] whose special CE32s are those from [0xC0000000] on, with
    the tag in bits 24 to 27, and a data object that maps every special
    CE32 below [0xD0000000] to the fallback value. *)
Definition collation : Collation :=
  {| MIN_SPECIAL_CE32 := 0xC0000000;
     OFFSET_TAG := 0; EXPANSION32_TAG := 1; EXPANSION_TAG := 2;
     HANGUL_TAG := 3; PREFIX_TAG := 4; CONTRACTION_TAG := 5; DIGIT_TAG := 6;
     RESERVED_TAG_11 := 11; LEAD_SURROGATE_TAG := 12; IMPLICIT_TAG := 13;
     isSpecialCE32 := fun ce32 => 0xC0000000 <=? ce32;
     isPrefixCE32 := fun ce32 =>
       (0xC0000000 <=? ce32) && (Z.land (Z.shiftr ce32 24) 0xf =? 4);
     isContractionCE32 := fun ce32 =>
       (0xC0000000 <=? ce32) && (Z.land (Z.shiftr ce32 24) 0xf =? 5);
     isLongPrimaryCE32 := fun ce32 => Z.land ce32 0xff =? 1;
     getSpecialCE32Tag := fun ce32 => Z.land (Z.shiftr ce32 24) 0xf;
     getPrefixIndex := fun ce32 => Z.land ce32 0xffffff;
     getContractionIndex := fun ce32 => Z.land ce32 0xffffff;
     getExpansionIndex := fun ce32 => Z.land (Z.shiftr ce32 3) 0x1fffff;
     getExpansionLength := fun ce32 => Z.land ce32 7;
     getOffsetIndex := fun ce32 => Z.land ce32 0xffffff;
     getDigitIndex := fun ce32 => Z.land ce32 0xffffff;
     primaryFromLongPrimaryCE32 := fun ce32 => Z.land ce32 0xffffff00;
     getThreeBytePrimaryForOffsetData := fun c dataCE => dataCE + c;
     getCE32 := fun _ c => c;
     getIndirectCE32 := fun _ ce32 =>
       if ce32 <? 0xD0000000 then 0xC0000000 else ce32;
     getFinalCE32 := fun _ ce32 => ce32;
     UCharsTrie_entries := fun _ _ => [];
     Hangul_decompose := fun _ => [0x1100; 0x1161] |}.

Definition emptyData : CollationData := mkCollationData [] [] [] [] [] None.

Definition tailoring : CollationData :=
  mkCollationData [(0x41, 0x5a, 0xC0000000); (0x61, 0x7a, 0xC1000000);
                   (0xe0, 0xe5, 0x12345)]
    [] [] [] [] (Some emptyData).

(** A second tailoring, of U+0100 alone. *)
Definition tailoring_0100 : CollationData :=
  mkCollationData [(0x100, 0x100, 0x12345)] [] [] [] [] (Some emptyData).

Definition tailoredSet : TailoredSet.State :=
  {| TailoredSet.data := tailoring; TailoredSet.baseData := emptyData;
     TailoredSet.tailored := ∅; TailoredSet.prefix := None;
     TailoredSet.suffix := None; TailoredSet.errorCode := U_ZERO_ERROR |}.

(** A [ContractionsAndExpansions] object with two distinct sets, both empty,
    and the suffix ["b"]. *)
Definition cne : ContractionsAndExpansions.State :=
  {| ContractionsAndExpansions.data := emptyData;
     ContractionsAndExpansions.contractions := Some 0%nat;
     ContractionsAndExpansions.expansions := Some 1%nat;
     ContractionsAndExpansions.prefix := None;
     ContractionsAndExpansions.suffix := Some [0x62];
     ContractionsAndExpansions.addPrefixes := true;
     ContractionsAndExpansions.errorCode := U_ZERO_ERROR;
     ContractionsAndExpansions.heap := {[ 0%nat := ∅; 1%nat := ∅ ]} |}.

(** A [ContractionsAndExpansions] object as its constructor leaves it, with
    the same two sets. *)
Definition cneObject : ContractionsAndExpansions.Object :=
  {| ContractionsAndExpansions.walk :=
       ContractionsAndExpansions.set_suffix None cne;
     ContractionsAndExpansions.tailoring := None;
     ContractionsAndExpansions.checkTailored := 0;
     ContractionsAndExpansions.tailored := ∅;
     ContractionsAndExpansions.tailored_frozen := false;
     ContractionsAndExpansions.ranges := [] |}.

(** The same [Collation] with one context trie, at [contexts + 2], that
    holds the string ["h"] with a plain CE32; a data object whose [contexts]
    start with a plain default CE32; and the object above on that data. *)
Definition collationWithTrie : Collation :=
  {| MIN_SPECIAL_CE32 := MIN_SPECIAL_CE32 collation;
     OFFSET_TAG := OFFSET_TAG collation;
     EXPANSION32_TAG := EXPANSION32_TAG collation;
     EXPANSION_TAG := EXPANSION_TAG collation;
     HANGUL_TAG := HANGUL_TAG collation;
     PREFIX_TAG := PREFIX_TAG collation;
     CONTRACTION_TAG := CONTRACTION_TAG collation;
     DIGIT_TAG := DIGIT_TAG collation;
     RESERVED_TAG_11 := RESERVED_TAG_11 collation;
     LEAD_SURROGATE_TAG := LEAD_SURROGATE_TAG collation;
     IMPLICIT_TAG := IMPLICIT_TAG collation;
     isSpecialCE32 := isSpecialCE32 collation;
     isPrefixCE32 := isPrefixCE32 collation;
     isContractionCE32 := isContractionCE32 collation;
     isLongPrimaryCE32 := isLongPrimaryCE32 collation;
     getSpecialCE32Tag := getSpecialCE32Tag collation;
     getPrefixIndex := getPrefixIndex collation;
     getContractionIndex := getContractionIndex collation;
     getExpansionIndex := getExpansionIndex collation;
     getExpansionLength := getExpansionLength collation;
     getOffsetIndex := getOffsetIndex collation;
     getDigitIndex := getDigitIndex collation;
     primaryFromLongPrimaryCE32 := primaryFromLongPrimaryCE32 collation;
     getThreeBytePrimaryForOffsetData :=
       getThreeBytePrimaryForOffsetData collation;
     getCE32 := getCE32 collation;
     getIndirectCE32 := getIndirectCE32 collation;
     getFinalCE32 := getFinalCE32 collation;
     UCharsTrie_entries := fun _ index =>
       if index =? 2 then [([0x68], 0x6789)] else [];
     Hangul_decompose := Hangul_decompose collation |}.

Definition contextData : CollationData :=
  mkCollationData [] [] [] [0x1; 0x2345] [] None.

(** A [TailoredSet] object whose tailoring and base both have that
    [contexts] array. *)
Definition tailoredSetWithContext : TailoredSet.State :=
  {| TailoredSet.data := contextData; TailoredSet.baseData := contextData;
     TailoredSet.tailored := ∅; TailoredSet.prefix := None;
     TailoredSet.suffix := None; TailoredSet.errorCode := U_ZERO_ERROR |}.

Definition cneWithContext : ContractionsAndExpansions.State :=
  ContractionsAndExpansions.set_data contextData
    (ContractionsAndExpansions.walk cneObject).

(** The labels of ["WWW.Example.COM"], and the name ["A-b.c"]. *)
Definition www_example_com : list ustring :=
  [ [0x57; 0x57; 0x57]; [0x45; 0x78; 0x61; 0x6d; 0x70; 0x6c; 0x65];
    [0x43; 0x4f; 0x4d] ].
Definition a_b_c : ustring := [0x41; 0x2d; 0x62; 0x2e; 0x63].

(** ["a.faß"], with the label ["faß"] at index 2, and ["xn--b.de"], whose
    first label has the remainder ["b"], which is no Punycode: it ends in the
    middle of a number. *)
Definition a_fass : ustring := [0x61; 0x2e; 0x66; 0x61; 0xdf].
Definition xn_b_de : ustring := [0x78; 0x6e; 0x2d; 0x2d; 0x62; 0x2e; 0x64; 0x65].

(** ["xn--a_.b"], taken as one label: its remainder ["a_.b"] is no Punycode
    and holds a low line and a dot. *)
Definition xn_a_lowline_dot_b : ustring :=
  [0x78; 0x6e; 0x2d; 0x2d; 0x61; 0x5f; 0x2e; 0x62].


End Samples.


(** * Theorems: collation tailoring sets *)

Module CollationFacts.

Module CnE := ContractionsAndExpansions.
Module TS := TailoredSet.
Import Spec.

(** A call [p->add(...)] changes no set other than the one [p] points to. *)
Lemma update_set_other p f st st' l :
  CnE.update_set p f st = Some st' -> p <> Some l ->
  CnE.heap st' !! l = CnE.heap st !! l.
Proof.
  unfold CnE.update_set. intros H Hne.
  destruct p as [l0|]; simpl in H; [|discriminate].
  destruct (CnE.heap st !! l0) eqn:E; simpl in H; [|discriminate].
  injection H as <-. simpl. rewrite lookup_insert_ne; [done|]. congruence.
Qed.

Lemma update_set_expansions p f st st' :
  CnE.update_set p f st = Some st' -> CnE.expansions st' = CnE.expansions st.
Proof.
  unfold CnE.update_set. intros H.
  destruct p as [l0|]; simpl in H; [|discriminate].
  destruct (CnE.heap st !! l0) eqn:E; simpl in H; [|discriminate].
  by injection H as <-.
Qed.

Lemma addStrings_loop_other n : forall start end_ s pl st st' l,
  CnE.addStrings_loop n start end_ s pl st = Some st' ->
  CnE.expansions st <> Some l ->
  CnE.heap st' !! l = CnE.heap st !! l.
Proof.
  induction n as [|n IH]; intros start end_ s pl st st' l H Hne; simpl in H;
    destruct (CnE.update_set _ _ st) as [st1|] eqn:E; simpl in H;
    try discriminate;
    pose proof (update_set_other _ _ _ _ l E Hne) as H1;
    pose proof (update_set_expansions _ _ _ _ E) as He;
    destruct (start + 1 <=? end_); try discriminate.
  - by injection H as <-.
  - rewrite <- H1. eapply IH; eauto. congruence.
  - by injection H as <-.
Qed.

(** Whatever set is passed to [addStrings], a set that [expansions] does not
    point to comes out as it went in. *)
Lemma addStrings_other start end_ set st st' l :
  CnE.addStrings start end_ set st = Some st' ->
  CnE.expansions st <> Some l ->
  CnE.heap st' !! l = CnE.heap st !! l.
Proof.
  unfold CnE.addStrings. intros H Hne. destruct set; [|congruence].
  destruct (CnE.prefix st); eapply addStrings_loop_other; eauto.
Qed.

(** C1 (the code departs from the claim).  [addStrings('a', 'a', contractions)]
    on an object with the suffix ["b"] and two distinct, empty sets: the call
    returns, the set passed as the argument is still empty, and the string
    ["ab"] is in [expansions] instead. *)
Theorem addStrings_ignores_its_set :
  exists st',
    CnE.addStrings 0x61 0x61 (CnE.contractions Samples.cne) Samples.cne = Some st' /\
    CnE.heap st' !! 0%nat = Some ∅ /\
    CnE.heap st' !! 1%nat = Some {[ [0x61; 0x62] ]}.
Proof.
  eexists. split; [reflexivity|]. split.
  - reflexivity.
  - simpl. rewrite lookup_insert_eq. reflexivity.
Qed.




Lemma same_env_refl st : same_env st st.
Proof. done. Qed.

Lemma same_env_trans a b c : same_env a b -> same_env b c -> same_env a c.
Proof. unfold same_env. intros (?&?&?) (?&?&?). repeat split; congruence. Qed.

Lemma add_env c st : same_env st (TS.add c st).
Proof. unfold TS.add. repeat case_match; done. Qed.

Lemma addSuffix_env c sfx st : same_env st (TS.addSuffix c sfx st).
Proof. done. Qed.

Lemma foldl_env {A} (f : TS.State -> A -> TS.State) l :
  (forall st a, same_env st (f st a)) -> forall st, same_env st (foldl f st l).
Proof.
  intros Hf. induction l as [|a l IH]; intros st; simpl; [done|].
  eapply same_env_trans; [apply Hf|apply IH].
Qed.

Lemma addContractions_env C d c p st : same_env st (TS.addContractions C d c p st).
Proof.
  unfold TS.addContractions. case_match; [done|].
  apply foldl_env. intros. apply addSuffix_env.
Qed.

Lemma addPrefix_env C d pfx c ce32 st : same_env st (TS.addPrefix C d pfx c ce32 st).
Proof.
  unfold TS.addPrefix. case_match; [|done].
  pose proof (addContractions_env C d c (getContractionIndex C (getFinalCE32 C d ce32) + 2)
                (TS.set_prefix (Some pfx) st)) as (?&?&?).
  done.
Qed.

Lemma addPrefixes_env C d c p st : same_env st (TS.addPrefixes C d c p st).
Proof.
  unfold TS.addPrefixes. case_match; [done|].
  apply foldl_env. intros. apply addPrefix_env.
Qed.


Lemma comparePrefixes_loop_env C rec :
  (forall c a b, keeps_env (rec c a b)) ->
  forall fuel c none tp bp P Q,
    keeps_env (TS.comparePrefixes_loop C rec fuel c none tp bp P Q).
Proof.
  intros Hrec. induction fuel as [|fuel IH]; intros c none tp bp P Q st st' H;
    simpl in H.
  - case_match; simplify_eq. done.
  - case_match; simplify_eq; [done|].
    repeat case_match; simplify_option_eq.
    + apply Hrec in Heqo. apply IH in H.
      destruct Heqo as (?&?&?), H as (?&?&?). repeat split; simpl in *; congruence.
    + apply IH in H. eapply same_env_trans; [apply addPrefix_env|done].
    + apply IH in H. eapply same_env_trans; [apply addPrefix_env|done].
Qed.

Lemma compareContractions_loop_env rec :
  (forall c a b, keeps_env (rec c a b)) ->
  forall fuel c none tp bp P Q,
    keeps_env (TS.compareContractions_loop rec fuel c none tp bp P Q).
Proof.
  intros Hrec. induction fuel as [|fuel IH]; intros c none tp bp P Q st st' H;
    simpl in H.
  - case_match; simplify_eq. done.
  - case_match; simplify_eq; [done|].
    repeat case_match; simplify_option_eq.
    + apply Hrec in Heqo. apply IH in H.
      destruct Heqo as (?&?&?), H as (?&?&?). repeat split; simpl in *; congruence.
    + apply IH in H. eapply same_env_trans; [apply addSuffix_env|done].
    + apply IH in H. eapply same_env_trans; [apply addSuffix_env|done].
Qed.

Lemma compareTags_env C c ce32 baseCE32 : keeps_env (TS.compareTags C c ce32 baseCE32).
Proof.
  intros st st' H. unfold TS.compareTags in H.
  repeat (case_match; simplify_option_eq); try done; try apply add_env.
Qed.

Lemma comparePrefixes_env C rec :
  (forall c a b, keeps_env (rec c a b)) ->
  forall c p q, keeps_env (TS.comparePrefixes C rec c p q).
Proof.
  intros Hrec c p q st st' H. unfold TS.comparePrefixes in H.
  eapply comparePrefixes_loop_env; eauto.
Qed.

Lemma compareContractions_env C rec :
  (forall c a b, keeps_env (rec c a b)) ->
  forall c p q, keeps_env (TS.compareContractions C rec c p q).
Proof.
  intros Hrec c p q st st' H. unfold TS.compareContractions in H.
  eapply compareContractions_loop_env; eauto.
Qed.

#[local] Arguments TS.comparePrefixes : simpl never.
#[local] Arguments TS.compareContractions : simpl never.
#[local] Arguments TS.compareTags : simpl never.
#[local] Arguments TS.addPrefixes : simpl never.
#[local] Arguments TS.addContractions : simpl never.

Lemma compare_env C fuel : forall c ce32 baseCE32,
  keeps_env (TS.compare C fuel c ce32 baseCE32).
Proof.
  induction fuel as [|fuel IH]; intros c ce32 baseCE32 st st' H; [done|].
  simpl in H.
  pose proof (comparePrefixes_env C _ IH) as HP.
  pose proof (compareContractions_env C _ IH) as HC.
  repeat (case_match; simplify_option_eq);
    repeat match goal with
    | H : TS.compareTags _ _ _ _ _ = Some _ |- _ => apply compareTags_env in H
    | H : TS.comparePrefixes _ _ _ _ _ _ = Some _ |- _ => apply HP in H
    | H : TS.compareContractions _ _ _ _ _ _ = Some _ |- _ => apply HC in H
    end;
    repeat match goal with
    | H : same_env (TS.addPrefixes ?C ?d ?c ?p ?st) _ |- _ =>
        apply (same_env_trans _ _ _ (addPrefixes_env C d c p st)) in H
    | H : same_env (TS.addContractions ?C ?d ?c ?p ?st) _ |- _ =>
        apply (same_env_trans _ _ _ (addContractions_env C d c p st)) in H
    end;
    eauto using same_env_trans.
Qed.

Lemma handleCE32_loop_env C fuel n : forall start end_ ce32,
  keeps_env (TS.handleCE32_loop C fuel n start end_ ce32).
Proof.
  induction n as [|n IH]; intros start end_ ce32 st st' H; simpl in H;
    repeat (case_match; simplify_option_eq);
    repeat match goal with
    | H : TS.compare _ _ _ _ _ _ = Some _ |- _ => apply compare_env in H
    | H : TS.handleCE32_loop _ _ _ _ _ _ _ = Some _ |- _ => apply IH in H
    end; unfold same_env in *; simpl in *; intuition congruence.
Qed.

Lemma handleCE32_env C fuel start end_ ce32 :
  keeps_env (TS.handleCE32 C fuel start end_ ce32).
Proof.
  intros st st' H. unfold TS.handleCE32 in H.
  repeat (case_match; simplify_option_eq);
    try (apply handleCE32_loop_env in H); eauto using same_env_refl.
Qed.

Lemma enumTailoredRange_env C fuel st start end_ ce32 go_on st' :
  TS.enumTailoredRange C fuel st start end_ ce32 = Some (go_on, st') ->
  same_env st st' /\ (U_SUCCESS (TS.errorCode st) = true -> go_on = true).
Proof.
  unfold TS.enumTailoredRange. intros H.
  repeat (case_match; simplify_option_eq); [done|].
  apply handleCE32_env in Heqo. split; [done|].
  destruct Heqo as (_&_&->). done.
Qed.


Lemma handleCE32_fallback C fuel start end_ ce32 st :
  isSpecialCE32 C ce32 = true ->
  getIndirectCE32 C (TS.data st) ce32 = MIN_SPECIAL_CE32 C ->
  TS.handleCE32 C fuel start end_ ce32 st = Some st.
Proof.
  intros Hs Hi. unfold TS.handleCE32. rewrite Hs, Hi, Z.eqb_refl. done.
Qed.

Lemma enumTailoredRange_fallback C fuel st start end_ ce32 :
  fallback C (TS.data st) ce32 ->
  TS.enumTailoredRange C fuel st start end_ ce32
  = Some (if ce32 =? MIN_SPECIAL_CE32 C then true
          else U_SUCCESS (TS.errorCode st), st).
Proof.
  intros [->|[Hs Hi]]; unfold TS.enumTailoredRange.
  - by rewrite Z.eqb_refl.
  - destruct (ce32 =? _); [done|]. rewrite handleCE32_fallback by done. done.
Qed.

Lemma utrie2_enum_skip C fuel start end_ ce32 before : forall after st,
  fallback C (TS.data st) ce32 ->
  U_SUCCESS (TS.errorCode st) = true ->
  TS.utrie2_enum (TS.enumTailoredRange C fuel)
    (before ++ (start, end_, ce32) :: after) st
  = TS.utrie2_enum (TS.enumTailoredRange C fuel) (before ++ after) st.
Proof.
  induction before as [|[[s e] v] before IH]; intros after st Hf Hok; simpl.
  - rewrite enumTailoredRange_fallback by done. simpl.
    rewrite Hok. by destruct (ce32 =? _).
  - destruct (TS.enumTailoredRange C fuel st s e v) as [[go_on st1]|] eqn:E;
      simpl; [|done].
    destruct go_on; [|done].
    apply enumTailoredRange_env in E as [(Hd & _ & Hec) _].
    apply IH; [by rewrite Hd|by rewrite Hec].
Qed.

(** C8.  A range that [utrie2_enum] reports with the fallback CE32, or with
    a special CE32 that one [getIndirectCE32] resolves to it, contributes
    nothing: the callback returns with the [TailoredSet] object (and so its
    [tailored] set) as it was, and, while the status is a success as it is
    throughout [forData], the enumeration of a trie ends in the same object
    with the range or without it. *)
Theorem fallback_range_contributes_nothing C fuel st start end_ ce32 :
  fallback C (TS.data st) ce32 ->
  (exists go_on,
     TS.enumTailoredRange C fuel st start end_ ce32 = Some (go_on, st)) /\
  (U_SUCCESS (TS.errorCode st) = true ->
   forall before after,
     TS.utrie2_enum (TS.enumTailoredRange C fuel)
       (before ++ (start, end_, ce32) :: after) st
     = TS.utrie2_enum (TS.enumTailoredRange C fuel) (before ++ after) st).
Proof.
  intros Hf. split.
  - eexists. by apply enumTailoredRange_fallback.
  - intros Hok before after. by apply utrie2_enum_skip.
Qed.

Lemma fallback_range_contributes_nothing_witness :
  fallback Samples.collation (TS.data Samples.tailoredSet) 0xC1000000 /\
  ((exists go_on,
      TS.enumTailoredRange Samples.collation 3 Samples.tailoredSet
        0x61 0x7a 0xC1000000 = Some (go_on, Samples.tailoredSet)) /\
   (U_SUCCESS (TS.errorCode Samples.tailoredSet) = true ->
    forall before after,
      TS.utrie2_enum (TS.enumTailoredRange Samples.collation 3)
        (before ++ (0x61, 0x7a, 0xC1000000) :: after) Samples.tailoredSet
      = TS.utrie2_enum (TS.enumTailoredRange Samples.collation 3)
          (before ++ after) Samples.tailoredSet)).
Proof.
  assert (H : fallback Samples.collation (TS.data Samples.tailoredSet) 0xC1000000)
    by (right; split; reflexivity).
  split; [exact H|].
  exact (fallback_range_contributes_nothing Samples.collation 3
           Samples.tailoredSet 0x61 0x7a 0xC1000000 H).
Defined.

(** On the sample tailoring, [forData] keeps the letters of the two fallback
    ranges out of [tailored] and puts U+00E0, whose CE32 differs from the
    base, into it. *)
Example forData_sample :
  exists st,
    TS.forData Samples.collation 3 Samples.tailoring U_ZERO_ERROR
      Samples.tailoredSet = Some (st, U_ZERO_ERROR) /\
    ([0x41] ∉ TS.tailored st) /\ ([0x61] ∉ TS.tailored st) /\
    ([0xe0] ∈ TS.tailored st).
Proof.
  eexists. split; [reflexivity|].
  repeat split; apply (bool_decide_unpack _); vm_compute; reflexivity.
Qed.

End CollationFacts.


(** * Theorems: the label checks of UTS #46 *)

Module LabelChecks.
Import UTS46.

Lemma lor_mask_nonzero x (d : UCharDirection) :
  (Z.lor x (U_MASK d) =? 0) = false.
Proof.
  apply Z.eqb_neq. intros H. apply Z.lor_eq_0_iff in H as [_ H].
  by destruct d.
Qed.

(** With the mask macros expanded as the preprocessor expands them, the
    first test of [isLabelOkBiDi] holds for every mask: the function answers
    [FALSE] as soon as the first code point is decoded. *)
Lemma isLabelOkBiDi_rejects props buf labelStart labelLength c i :
  U16_NEXT_UNSAFE (labelAt buf labelStart) 0 = Some (c, i) ->
  isLabelOkBiDi props buf labelStart labelLength = Some false.
Proof.
  intros H. unfold isLabelOkBiDi. rewrite H. simpl.
  by rewrite lor_mask_nonzero.
Qed.

Lemma isLabelOkBiDi_never_accepts props buf labelStart labelLength :
  isLabelOkBiDi props buf labelStart labelLength <> Some true.
Proof.
  destruct (U16_NEXT_UNSAFE (labelAt buf labelStart) 0) as [[c i]|] eqn:E.
  - by rewrite (isLabelOkBiDi_rejects _ _ _ _ _ _ E).
  - unfold isLabelOkBiDi. by rewrite E.
Qed.

(** C7.  [isLabelOkBiDi] answers true only if the class of the first code
    point is L, R or AL; and on a label whose first code point is R or AL and
    which holds both an EN and an AN code point it answers false. *)
Theorem isLabelOkBiDi_first_class_and_numbers props buf labelStart labelLength :
  (isLabelOkBiDi props buf labelStart labelLength = Some true ->
   exists c i,
     U16_NEXT_UNSAFE (labelAt buf labelStart) 0 = Some (c, i) /\
     (u_charDirection props c = U_LEFT_TO_RIGHT \/
      u_charDirection props c = U_RIGHT_TO_LEFT \/
      u_charDirection props c = U_RIGHT_TO_LEFT_ARABIC)) /\
  (forall label c i,
     slice buf labelStart labelLength = Some label ->
     U16_NEXT_UNSAFE (labelAt buf labelStart) 0 = Some (c, i) ->
     u_charDirection props c = U_RIGHT_TO_LEFT \/
     u_charDirection props c = U_RIGHT_TO_LEFT_ARABIC ->
     U_EUROPEAN_NUMBER ∈
       map (u_charDirection props) (Spec.codePoints (length label) label) ->
     U_ARABIC_NUMBER ∈
       map (u_charDirection props) (Spec.codePoints (length label) label) ->
     isLabelOkBiDi props buf labelStart labelLength = Some false).
Proof.
  split.
  - intros H. by apply isLabelOkBiDi_never_accepts in H.
  - intros label c i _ H _ _ _. by eapply isLabelOkBiDi_rejects.
Qed.

Lemma isLabelOkBiDi_first_class_and_numbers_witness :
  slice [0x5d0; 0x31; 0x661] 0 3 = Some [0x5d0; 0x31; 0x661] /\
  U16_NEXT_UNSAFE (labelAt [0x5d0; 0x31; 0x661] 0) 0 = Some (0x5d0, 1) /\
  u_charDirection Samples.props 0x5d0 = U_RIGHT_TO_LEFT /\
  isLabelOkBiDi Samples.props [0x5d0; 0x31; 0x661] 0 3 = Some false.
Proof.
  split; [reflexivity|]. split; [reflexivity|]. split; [reflexivity|].
  refine (proj2 (isLabelOkBiDi_first_class_and_numbers Samples.props
                   [0x5d0; 0x31; 0x661] 0 3)
            [0x5d0; 0x31; 0x661] 0x5d0 1 eq_refl eq_refl (or_introl eq_refl) _ _).
  - apply (bool_decide_unpack _). reflexivity.
  - apply (bool_decide_unpack _). reflexivity.
Defined.

(** The postcontext loop decodes at [i], where the joiner itself stands, and
    the joining type of U+200C is Non_Joining: the loop rejects whatever
    follows the joiner. *)
Lemma contextJPost_rejects props fuel rd i labelLength :
  u_getJoiningType props 0x200c = U_JT_NON_JOINING ->
  rd i = Some 0x200c ->
  contextJPost props (S fuel) rd i (i + 1) labelLength = Some None.
Proof.
  intros Hjt Hrd. simpl. destruct (i + 1 =? labelLength); [done|].
  unfold U16_NEXT_UNSAFE. rewrite Hrd. simpl. by rewrite Hjt.
Qed.

(** One round of the outer loop on a unit that is no joiner. *)
Lemma contextJLoop_skip props fuel inner rd i labelLength u :
  (i <? labelLength) = true -> rd i = Some u ->
  (u =? 0x200c) = false -> (u =? 0x200d) = false ->
  contextJLoop props (S fuel) inner rd i labelLength
  = contextJLoop props fuel inner rd (i + 1) labelLength.
Proof. intros Hi Hrd H1 H2. simpl. by rewrite Hi, Hrd; simpl; rewrite H1, H2. Qed.

(** One round on U+200C whose precontext is fulfilled: the label is
    rejected. *)
Lemma contextJLoop_zwnj props fuel inner rd i labelLength c j :
  u_getJoiningType props 0x200c = U_JT_NON_JOINING ->
  (i <? labelLength) = true -> rd i = Some 0x200c -> (i =? 0) = false ->
  U16_PREV_UNSAFE rd i = Some (c, j) ->
  (u_getCombiningClass props c =? 9) = false ->
  contextJPre props (S inner) rd c j = Some true ->
  contextJLoop props (S fuel) (S inner) rd i labelLength = Some false.
Proof.
  intros Hnj Hi Hrd H0 Hprev Hccc Hpre.
  cbn [contextJLoop]. rewrite Hi, Hrd. cbn [mbind option_bind].
  rewrite Z.eqb_refl, H0, Hprev. cbn [mbind option_bind].
  rewrite Hccc, Hpre. cbn [mbind option_bind negb].
  by rewrite contextJPost_rejects.
Qed.

(** C2 (the code departs from the claim).  On the label U+0628 U+200C U+0628
    the walk that the claim describes accepts: the code point after the
    joiner is Dual_Joining.  The postcontext loop of the code rejects it, as
    it rejects every label, and [isLabelOkContextJ] answers false. *)
Theorem isLabelOkContextJ_postcontext_rejects props :
  u_getJoiningType props 0x200c = U_JT_NON_JOINING ->
  u_getJoiningType props 0x628 = U_JT_DUAL_JOINING ->
  u_getCombiningClass props 0x628 <> 9 ->
  Spec.postcontext props (Spec.codePoints 1 [0x628]) = true /\
  contextJPost props 4 (labelAt [0x628; 0x200c; 0x628] 0) 1 2 3 = Some None /\
  isLabelOkContextJ props [0x628; 0x200c; 0x628] 0 3 = Some false.
Proof.
  intros Hnj Hd Hccc. split; [|split].
  - simpl. by rewrite Hd.
  - by apply (contextJPost_rejects props 3 _ 1 3).
  - unfold isLabelOkContextJ.
    rewrite (contextJLoop_skip props _ _ _ 0 _ 0x628) by reflexivity.
    apply (contextJLoop_zwnj props _ _ _ (0 + 1) _ 0x628 0);
      try reflexivity; try done.
    + by apply Z.eqb_neq.
    + simpl. by rewrite Hd.
Qed.

Lemma isLabelOkContextJ_postcontext_rejects_witness :
  u_getJoiningType Samples.props 0x200c = U_JT_NON_JOINING /\
  u_getJoiningType Samples.props 0x628 = U_JT_DUAL_JOINING /\
  u_getCombiningClass Samples.props 0x628 <> 9 /\
  Spec.postcontext Samples.props (Spec.codePoints 1 [0x628]) = true /\
  contextJPost Samples.props 4 (labelAt [0x628; 0x200c; 0x628] 0) 1 2 3
    = Some None /\
  isLabelOkContextJ Samples.props [0x628; 0x200c; 0x628] 0 3 = Some false.
Proof.
  assert (H1 : u_getJoiningType Samples.props 0x200c = U_JT_NON_JOINING)
    by reflexivity.
  assert (H2 : u_getJoiningType Samples.props 0x628 = U_JT_DUAL_JOINING)
    by reflexivity.
  assert (H3 : u_getCombiningClass Samples.props 0x628 <> 9)
    by (simpl; lia).
  split; [exact H1|]. split; [exact H2|]. split; [exact H3|].
  exact (isLabelOkContextJ_postcontext_rejects Samples.props H1 H2 H3).
Defined.

End LabelChecks.


(** * Theorems: label processing *)

Module LabelFacts.
Import UTS46 Spec.

(** ** The writes to [IDNAInfo] *)

Lemma writes_trans a b c : writes a b -> writes b c -> writes a c.
Proof. induction 2; eauto using writes. Qed.

Ltac in_bits := unfold labelErrorBits; set_solver.

Lemma writes_or_here bit a : bit ∈ labelErrorBits -> writes a (or_error bit a).
Proof. intros. by apply writes_or; [apply writes_refl|]. Qed.

Create HintDb writes.
#[local] Hint Resolve writes_refl writes_dev : writes.
#[local] Hint Extern 2 (writes _ (or_error _ _)) =>
  apply writes_or; [|in_bits] : writes.
#[local] Hint Extern 5 (writes _ _) =>
  match goal with
  | H : writes ?a ?b |- writes ?a _ => apply (writes_trans a b); [exact H|]
  end : writes.

Ltac solve_writes :=
  first
    [ by eauto 12 with writes
    | match goal with
      | H : writes _ ?b |- writes _ ?b =>
          eapply writes_trans; [|exact H]; by eauto 12 with writes
      end ].

Lemma labelErrorBits_testbit bit n :
  bit ∈ labelErrorBits -> Z.testbit bit n = true -> n <> 2.
Proof.
  unfold labelErrorBits. intros Hin Hn ->.
  repeat (apply elem_of_cons in Hin as [->|Hin]; [by vm_compute in Hn|]).
  by apply elem_of_nil in Hin.
Qed.

(** Writes only add: nothing that is set is cleared. *)
Lemma writes_info_le a b : writes a b -> info_le a b.
Proof.
  induction 1 as [|b bit _ [IH1 IH2] _|b _ [IH1 IH2]].
  - by split.
  - split; [|done]. intros n Hn. cbn [errors or_error].
    by rewrite Z.lor_spec, (IH1 n Hn).
  - split; [done|]. by intros _.
Qed.

(** The writes never touch the bit of [UIDNA_ERROR_DOMAIN_NAME_TOO_LONG]. *)
Lemma writes_domain_bit a b :
  writes a b -> Z.testbit (errors b) 2 = Z.testbit (errors a) 2.
Proof.
  induction 1 as [|b bit _ IH Hin|b _ IH]; [done| |done].
  cbn [errors or_error]. rewrite Z.lor_spec, IH.
  destruct (Z.testbit bit 2) eqn:E; [|by rewrite orb_false_r].
  by apply (labelErrorBits_testbit _ _ Hin) in E.
Qed.

(** ** Strings *)

Lemma take_us_replace s start len text k :
  (k <= start)%nat -> (start <= length s)%nat ->
  take k (us_replace s start len text) = take k s.
Proof.
  intros Hk Hs. unfold us_replace.
  rewrite take_app_le by (rewrite length_take; lia).
  rewrite take_take. f_equal. lia.
Qed.

Lemma take_eq_length {A} (l l' : list A) k :
  take k l' = take k l -> (k <= length l)%nat -> (k <= length l')%nat.
Proof.
  intros H Hk. apply (f_equal length) in H. rewrite !length_take in H. lia.
Qed.

(** ** The scan of a label *)

Section WithEnv.
Context (props : UCharProps) (puny : Punycode).
Context (uts46Norm2 nfcNorm2 : Normalizer2) (options : Z).

Lemma scanStep_inv wasPunycode doMap sc sc' :
  scanStep options wasPunycode doMap sc = Some sc' ->
  writes (sc_info sc) (sc_info sc') /\
  (sc_s sc <= sc_s sc')%nat /\ (sc_s sc < length (sc_buf sc))%nat /\
  forall k, (k <= sc_s sc)%nat -> take k (sc_buf sc') = take k (sc_buf sc).
Proof.
  unfold scanStep. intros H.
  destruct (sc_buf sc !! sc_s sc) as [c|] eqn:Hc; simpl in H; [|done].
  apply lookup_lt_Some in Hc.
  repeat case_match; simplify_eq; simpl;
    (split; [solve_writes|]); (split; [lia|]); (split; [done|]);
    intros k Hk; unfold us_insert, us_remove;
    rewrite ?take_us_replace, ?take_insert_ge;
    rewrite ?length_insert; try done; try lia.
Qed.

Lemma scanLoop_inv n : forall wasPunycode doMap labelStart sc sc',
  scanLoop options n wasPunycode doMap labelStart sc = Some sc' ->
  writes (sc_info sc) (sc_info sc') /\
  forall k, (k <= sc_s sc)%nat -> take k (sc_buf sc') = take k (sc_buf sc).
Proof.
  induction n as [|n IH]; intros wasPunycode doMap labelStart sc sc' H;
    simpl in H;
    destruct (scanStep options wasPunycode doMap sc) as [sc1|] eqn:E;
    simpl in H; try done;
    apply scanStep_inv in E as (Hw & Hs & _ & Ht);
    case_decide; simplify_eq; try done.
  apply IH in H as [Hw' Ht'].
  split; [by eapply writes_trans|].
  intros k Hk. rewrite Ht' by lia. by apply Ht.
Qed.

Lemma punycodeErrorStep_inv dest s c onlyLDH info d1 o1 i1 :
  punycodeErrorStep options dest s c onlyLDH info = (d1, o1, i1) ->
  writes info i1 /\ length d1 = length dest /\
  forall k, (k <= s)%nat -> take k d1 = take k dest.
Proof.
  unfold punycodeErrorStep. intros H.
  repeat case_match; simplify_eq; rewrite ?length_insert;
    (split; [solve_writes|]); (split; [done|]);
    intros k Hk; by rewrite ?take_insert_ge by lia.
Qed.

Lemma punycodeErrorScan_inv n : forall dest s limit onlyLDH info dest' onlyLDH' info',
  punycodeErrorScan options n dest s limit onlyLDH info
    = Some (dest', onlyLDH', info') ->
  writes info info' /\ length dest' = length dest /\
  forall k, (k <= s)%nat -> take k dest' = take k dest.
Proof.
  induction n as [|n IH]; intros dest s limit onlyLDH info dest' onlyLDH' info' H;
    simpl in H;
    (destruct (dest !! s) as [c|] eqn:Hc; simpl in H; [|done]);
    destruct (punycodeErrorStep options dest s c onlyLDH info) as [[d1 o1] i1] eqn:E;
    apply punycodeErrorStep_inv in E as (Hw & Hl & Ht);
    case_decide; simplify_eq; try done.
  apply IH in H as (Hw' & Hl' & Ht').
  split; [by eapply writes_trans|]. split; [congruence|].
  intros k Hk. rewrite Ht' by lia. by apply Ht.
Qed.

Lemma returnLabel_inv dest dls dll labelString labelLength info ec
    dest' delta info' ec' :
  returnLabel dest dls dll labelString labelLength info ec
    = (dest', delta, info', ec') ->
  info' = info /\ ec' = ec /\
  forall k, (k <= dls)%nat -> (labelString <> None -> (dls <= length dest)%nat) ->
    take k dest' = take k dest.
Proof.
  unfold returnLabel, replaceLabel. intros H. simplify_eq.
  split; [done|]. split; [done|]. intros k Hk Hd.
  case_bool_decide; [done|]. apply take_us_replace; auto.
Qed.

Lemma checkBiDiContextJ_writes label labelStart labelLength oredChars info info' :
  checkBiDiContextJ props options label labelStart labelLength oredChars info
    = Some info' ->
  writes info info'.
Proof.
  unfold checkBiDiContextJ. intros H.
  apply bind_Some in H as (bidi & _ & H).
  apply bind_Some in H as (contextj & _ & H).
  simplify_eq. destruct bidi, contextj; solve_writes.
Qed.

Lemma encodeLabel_inv dest labelString labelStart labelLength dls dll
    wasPunycode toASCII oredChars didMap info ec dest' delta info' ec' :
  encodeLabel props puny options dest labelString labelStart labelLength
    dls dll wasPunycode toASCII oredChars didMap info ec
    = Some (dest', delta, info', ec') ->
  writes info info' /\
  forall k, (k <= dls)%nat -> (dls <= length dest)%nat ->
    take k dest' = take k dest.
Proof.
  unfold encodeLabel. intros H.
  apply bind_Some in H as (info1 & Ec & H).
  apply checkBiDiContextJ_writes in Ec.
  destruct (toASCII && _).
  - apply bind_Some in H as (src & _ & H).
    destruct (encodePunycode _ _ _) as [out ec1].
    destruct (U_SUCCESS ec1); simplify_eq;
      apply returnLabel_inv in H as (-> & -> & Ht);
      (split; [case_decide || idtac; solve_writes|]); auto.
  - simplify_eq. apply returnLabel_inv in H as (-> & -> & Ht). auto.
Qed.

Lemma finishLabel_inv dest labelString labelStart labelLength dls dll
    wasPunycode toASCII oredChars didMap info ec dest' delta info' ec' :
  finishLabel props puny nfcNorm2 options dest labelString labelStart
    labelLength dls dll wasPunycode toASCII oredChars didMap info ec
    = Some (dest', delta, info', ec') ->
  writes info info' /\
  forall k, (k <= dls)%nat -> (dls <= length dest)%nat ->
    take k dest' = take k dest.
Proof.
  unfold finishLabel. intros H. destruct didMap.
  - destruct (normalize _ _ _) as [normalized ec1].
    destruct (U_FAILURE ec1).
    + simplify_eq. apply returnLabel_inv in H as (-> & -> & Ht).
      split; [solve_writes|]. auto.
    + by apply encodeLabel_inv in H.
  - by apply encodeLabel_inv in H.
Qed.

Lemma unitIs_lt buf i v b : unitIs buf i v = Some b -> (i < length buf)%nat.
Proof.
  unfold unitIs. intros H. apply bind_Some in H as (c & Hc & _).
  by apply lookup_lt_Some in Hc.
Qed.

Lemma checkLabel_inv dest labelString labelStart labelLength dls dll
    wasPunycode toASCII info ec dest' delta info' ec' :
  checkLabel props puny nfcNorm2 options dest labelString labelStart
    labelLength dls dll wasPunycode toASCII info ec
    = Some (dest', delta, info', ec') ->
  writes info info' /\
  ((labelString = None -> labelStart = dls) ->
   (labelString <> None -> (dls <= length dest)%nat) ->
   forall k, (k <= dls)%nat -> take k dest' = take k dest).
Proof.
  unfold checkLabel. intros H. case_decide as Hlen.
  - simplify_eq. apply returnLabel_inv in H as (-> & -> & Ht).
    split; [destruct toASCII; solve_writes|]. auto.
  - apply bind_Some in H as (h34 & _ & H).
    apply bind_Some in H as (hy1 & Hfirst & H).
    apply unitIs_lt in Hfirst.
    apply bind_Some in H as (hyn & _ & H).
    apply bind_Some in H as ([c cpLength] & _ & H).
    destruct (if negb _ then _ else _) as [[buf1 len1] info1] eqn:Em.
    apply bind_Some in H as (sc & Hsc & H).
    apply scanLoop_inv in Hsc as [Hw Ht]. simpl in Hw, Ht.
    assert (writes info info1 /\
            forall k, (k <= labelStart)%nat ->
              take k buf1 = take k (default dest labelString)) as [Hw1 Ht1].
    { match type of Em with (if ?b then _ else _) = _ => destruct b end;
        simplify_eq.
      - split; [destruct h34, hy1, hyn; solve_writes|].
        intros k Hk. apply take_us_replace; [done|lia].
      - split; [destruct h34, hy1, hyn; solve_writes|]. done. }
    destruct labelString as [str|]; apply finishLabel_inv in H as [Hw2 Ht2].
    + split; [eauto using writes_trans|]. intros _ Hd k Hk.
      apply Ht2; auto.
    + split; [eauto using writes_trans|]. intros Hs _ k Hk.
      specialize (Hs eq_refl). subst dls. simpl in *.
      assert (take labelStart (sc_buf sc) = take labelStart dest) as Hl
        by (rewrite Ht, Ht1 by lia; done).
      apply take_eq_length in Hl; [|lia].
      rewrite Ht2, Ht, Ht1 by lia. done.
Qed.

(** What [processLabel] does to the info and to the units in front of the
    label. *)
Lemma processLabel_inv dest labelStart labelLength toASCII info ec
    dest' delta info' ec' :
  processLabel props puny uts46Norm2 nfcNorm2 options dest labelStart
    labelLength toASCII info ec = Some (dest', delta, info', ec') ->
  writes info info' /\ take labelStart dest' = take labelStart dest.
Proof.
  unfold processLabel. intros H.
  apply bind_Some in H as (xn & Hxn & H). destruct xn.
  - case_decide; [|done].
    apply bind_Some in Hxn as (b & Hb & _). apply unitIs_lt in Hb.
    apply bind_Some in H as (src & Hsrc & H).
    unfold slice in Hsrc. case_decide as Hsl; [|done].
    destruct (decodePunycode puny src) as [unicode pec].
    destruct (U_FAILURE pec).
    + apply bind_Some in H as ([[d1 o1] i1] & Hs & H).
      apply punycodeErrorScan_inv in Hs as (Hw & Hl & Ht).
      destruct o1; simplify_eq.
      * split; [solve_writes|]. unfold us_insert.
        rewrite take_us_replace by lia. apply Ht. lia.
      * split; [solve_writes|]. apply Ht. lia.
    + destruct (normalize _ _ _) as [fromPunycode ec1].
      destruct (U_FAILURE ec1); [by simplify_eq; split; solve_writes|].
      apply checkLabel_inv in H as [Hw Ht].
      split; [case_bool_decide; solve_writes|].
      apply Ht; [done|intros _; lia|done].
  - apply checkLabel_inv in H as [Hw Ht]. split; [done|].
    by apply Ht.
Qed.

(** ** Whole names *)

Lemma fastPath_writes src isLabel toASCII rest :
  forall destArray i labelStart info,
    writes info
      (fastPath_info
         (fastPath options src rest isLabel toASCII destArray i labelStart info)).
Proof.
  induction rest as [|c rest IH]; intros destArray i labelStart info; simpl.
  - case_match; solve_writes.
  - generalize (match rest with [] => true | next :: _ => next =? 46 end).
    intros trailing. repeat case_match; simpl;
      first [solve_writes | (eapply writes_trans; [|apply IH]); solve_writes].
Qed.

Lemma labelsLoop_writes n : forall toASCII dest destLength labelStart labelLimit
    info ec failed dest' labelStart' labelLimit' info' ec',
  labelsLoop props puny uts46Norm2 nfcNorm2 options n toASCII dest destLength
    labelStart labelLimit info ec
    = Some (failed, dest', labelStart', labelLimit', info', ec') ->
  writes info info'.
Proof.
  induction n as [|n IH]; intros toASCII dest destLength labelStart labelLimit
    info ec failed dest' labelStart' labelLimit' info' ec' H; simpl in H.
  - case_match; [done|]. simplify_eq. solve_writes.
  - case_match; [|simplify_eq; solve_writes].
    apply bind_Some in H as (c & _ & H). case_match.
    + apply bind_Some in H as ([[[d1 delta] i1] e1] & Hp & H).
      apply processLabel_inv in Hp as [Hw _].
      case_match; simplify_eq; [done|].
      apply IH in H. by eapply writes_trans.
    + by apply IH in H.
Qed.

Lemma processUnicode_writes src labelStart mappingStart isLabel toASCII dest
    info ec dest' info' ec' :
  processUnicode props puny uts46Norm2 nfcNorm2 options src labelStart
    mappingStart isLabel toASCII dest info ec = Some (dest', info', ec') ->
  writes info info'.
Proof.
  unfold processUnicode. intros H.
  destruct (if decide (mappingStart = 0)%nat then _ else _) as [d1 e1].
  destruct (U_FAILURE e1); [simplify_eq; solve_writes|].
  destruct isLabel.
  - apply bind_Some in H as ([[[d2 delta] i2] e2] & Hp & H).
    apply processLabel_inv in Hp as [Hw _]. by simplify_eq.
  - apply bind_Some in H as ([[[[[failed d2] ls2] ll2] i2] e2] & Hl & H).
    apply labelsLoop_writes in Hl.
    destruct failed; [by simplify_eq|].
    case_match; [|by simplify_eq].
    apply bind_Some in H as ([[[d3 delta] i3] e3] & Hp & H).
    apply processLabel_inv in Hp as [Hw _]. simplify_eq.
    by eapply writes_trans.
Qed.

(** [process] either rejects its arguments, and then leaves before it has
    reset the info and does not touch it, or resets the info and only writes
    to it from then on. *)
Lemma process_writes src dest_is_src isLabel toASCII info ec dest' info' ec' :
  process props puny uts46Norm2 nfcNorm2 options src dest_is_src isLabel
    toASCII info ec = Some (dest', info', ec') ->
  ((U_FAILURE ec = true \/ dest_is_src = true \/ src = Bogus) /\
   info' = info /\ dest' = Bogus /\ U_FAILURE ec' = true) \/
  ((U_FAILURE ec = false /\ dest_is_src = false /\ src <> Bogus) /\
   writes reset info' /\ exists d, dest' = Str d).
Proof.
  unfold process. intros H.
  destruct (U_FAILURE ec) eqn:Hec; [left; simplify_eq; auto|].
  destruct src as [|s]; [left; simplify_eq; auto|].
  destruct dest_is_src; [left; simplify_eq; auto|].
  right. split; [done|]. case_decide.
  - simplify_eq. split; [solve_writes|]. eauto.
  - pose proof (fastPath_writes s isLabel toASCII s (replicate (length s) 0)
                  0%nat 0%nat reset) as Hf.
    destruct (fastPath _ _ _ _ _ _ _ _ _) as [d1 i1 info1|d1 i1 ls1 info1];
      simpl in Hf.
    + simplify_eq. eauto.
    + apply bind_Some in H as ([[d2 i2] e2] & Hu & H).
      apply processUnicode_writes in Hu. simplify_eq.
      split; [by eapply writes_trans|]. eauto.
Qed.





(** C10.  When [processLabel] returns, the code units of [dest] at the
    indices before [labelStart] are the ones it was called with. *)
Theorem processLabel_keeps_earlier_units dest labelStart labelLength toASCII
    info ec dest' delta info' ec' :
  processLabel props puny uts46Norm2 nfcNorm2 options dest labelStart
    labelLength toASCII info ec = Some (dest', delta, info', ec') ->
  take labelStart dest' = take labelStart dest /\
  forall i, (i < labelStart)%nat -> dest' !! i = dest !! i.
Proof.
  intros H. apply processLabel_inv in H as [_ Ht]. split; [done|].
  intros i Hi.
  rewrite <- (lookup_take_lt dest' labelStart i Hi), Ht.
  by apply lookup_take_lt.
Qed.

Lemma has_error_testbit info :
  has_error UIDNA_ERROR_DOMAIN_NAME_TOO_LONG info <->
  Z.testbit (errors info) 2 = true.
Proof.
  unfold has_error. change UIDNA_ERROR_DOMAIN_NAME_TOO_LONG with (2 ^ 2).
  destruct (Z.testbit (errors info) 2) eqn:E.
  - split; [done|]. intros _ H.
    apply (f_equal (fun z => Z.testbit z 2)) in H.
    by rewrite Z.land_spec, E, Z.pow2_bits_eqb, Z.bits_0 in H.
  - split; [|done]. intros H. exfalso. apply H. apply Z.bits_inj_0.
    intros n. rewrite Z.land_spec, Z.pow2_bits_eqb by lia.
    destruct (Z.eqb_spec 2 n) as [<-|_]; [by rewrite E|].
    by rewrite andb_false_r.
Qed.

Lemma tooLong_decide dest :
  bool_decide (254 <= us_length dest)%nat
  && (bool_decide (254 < us_length dest)%nat || negb (us_charAt dest 253 =? 0x2e))
  = true <-> tooLong dest.
Proof.
  unfold tooLong.
  rewrite andb_true_iff, orb_true_iff, !bool_decide_eq_true, negb_true_iff,
    Z.eqb_neq. done.
Qed.

(** The bit of [UIDNA_ERROR_DOMAIN_NAME_TOO_LONG] after [nameToASCII] is
    the bit that [process] left, or the total length rule. *)
Lemma nameToASCII_domain_bit name dest_is_src info ec dest info' ec' :
  nameToASCII props puny uts46Norm2 nfcNorm2 options name dest_is_src info ec
    = Some (dest, info', ec') ->
  exists processed info1,
    process props puny uts46Norm2 nfcNorm2 options name dest_is_src
      false true info ec = Some (processed, info1, ec') /\
    (has_error UIDNA_ERROR_DOMAIN_NAME_TOO_LONG info' <->
     has_error UIDNA_ERROR_DOMAIN_NAME_TOO_LONG info1 \/ tooLong processed).
Proof.
  unfold nameToASCII. intros H.
  apply bind_Some in H as ([[processed info1] ec1] & Hp & H).
  exists processed, info1. simplify_eq. split; [done|].
  rewrite !has_error_testbit, <- tooLong_decide.
  destruct (_ && _); cbn [errors or_error].
  - rewrite Z.lor_spec. change (Z.testbit UIDNA_ERROR_DOMAIN_NAME_TOO_LONG 2)
      with true. rewrite orb_true_r. tauto.
  - split; [tauto|]. by intros [?|?].
Qed.

(** C4, amended.  For a call of [nameToASCII] that passes the argument
    checks of [process] (no failure status on entry, a name that is not
    bogus, a destination that is not the name itself), or whose info does not
    hold the bit on entry, the bit of [UIDNA_ERROR_DOMAIN_NAME_TOO_LONG] is
    set on return if and only if the processed result has at least 254 code
    units and either more than 254 or a unit other than ['.'] at index
    253. *)
Theorem nameToASCII_domain_name_too_long name dest_is_src info ec :
  (U_FAILURE ec = false /\ dest_is_src = false /\ name <> Bogus) \/
  ~ has_error UIDNA_ERROR_DOMAIN_NAME_TOO_LONG info ->
  DomainNameRule props puny uts46Norm2 nfcNorm2 options name dest_is_src
    info ec.
Proof.
  intros Hin dest info' ec' H.
  apply nameToASCII_domain_bit in H as (processed & info1 & Hp & Hiff).
  exists processed, info1, ec'. split; [done|]. rewrite Hiff.
  assert (~ has_error UIDNA_ERROR_DOMAIN_NAME_TOO_LONG info1) as Hclear;
    [|tauto].
  rewrite has_error_testbit.
  apply process_writes in Hp as [(Hrej & -> & _)|(_ & Hw & _)].
  - destruct Hin as [(Hec & Hd & Hn)|Hin]; [|by rewrite <- has_error_testbit].
    destruct Hrej as [?|[?|?]]; congruence.
  - apply writes_domain_bit in Hw. by rewrite Hw.
Qed.

Lemma hasErrors_spec info : hasErrors info = true <-> errors info <> 0.
Proof. unfold hasErrors. by rewrite negb_true_iff, Z.eqb_neq. Qed.

Lemma or_error_domain_nonzero info :
  errors (or_error UIDNA_ERROR_DOMAIN_NAME_TOO_LONG info) <> 0.
Proof.
  cbn [errors or_error]. intros H. apply Z.lor_eq_0_iff in H as [_ H]. done.
Qed.

(** C5.  When [labelToASCII] or [nameToASCII] returns without a failure
    status: if an error bit is set in the info, the destination is bogus; if
    none is set, the destination is the string that [process] produced, and
    is not bogus. *)
Theorem toASCII_bogus_iff_errors :
  (forall label dest_is_src info ec dest info' ec',
     labelToASCII props puny uts46Norm2 nfcNorm2 options label dest_is_src
       info ec = Some (dest, info', ec') ->
     U_FAILURE ec' = false ->
     BogusIffErrors
       (process props puny uts46Norm2 nfcNorm2 options label dest_is_src
          true true info ec) dest info' ec') /\
  (forall name dest_is_src info ec dest info' ec',
     nameToASCII props puny uts46Norm2 nfcNorm2 options name dest_is_src
       info ec = Some (dest, info', ec') ->
     U_FAILURE ec' = false ->
     BogusIffErrors
       (process props puny uts46Norm2 nfcNorm2 options name dest_is_src
          false true info ec) dest info' ec').
Proof.
  split.
  - intros label dest_is_src info ec dest info' ec' H Hok.
    unfold labelToASCII in H.
    apply bind_Some in H as ([[d i1] e1] & Hp & H). simplify_eq.
    rewrite Hp. split.
    + intros Hne. apply hasErrors_spec in Hne. by rewrite Hne.
    + intros H0. destruct (hasErrors info') eqn:E;
        [by apply hasErrors_spec in E|].
      apply process_writes in Hp as [(_ & _ & _ & Hf)|(_ & _ & d' & ->)];
        [congruence|]. eauto.
  - intros name dest_is_src info ec dest info' ec' H Hok.
    unfold nameToASCII in H.
    apply bind_Some in H as ([[d i1] e1] & Hp & H). simplify_eq.
    rewrite Hp. split.
    + intros Hne. apply hasErrors_spec in Hne. by rewrite Hne.
    + intros H0. destruct (_ && _); [by apply or_error_domain_nonzero in H0|].
      destruct (hasErrors i1) eqn:E; [by apply hasErrors_spec in E|].
      apply process_writes in Hp as [(_ & _ & _ & Hf)|(_ & _ & d' & ->)];
        [congruence|]. eauto.
Qed.

End WithEnv.
End LabelFacts.


Module PunycodeErrorFacts.
Import UTS46 Spec LabelFacts.

(** ** The scan after a Punycode decoding error *)

(** The test of the code for "not LDH", read off [asciiData], is the test
    for letters, digits and the hyphen. *)
Lemma isLDH_asciiData c :
  isLDH c = (c <=? 0x7f) && negb (c =? 0x2e) && negb (asciiDataAt c <? 0).
Proof.
  destruct (decide (0 <= c <= 127)) as [Hc|Hc].
  - assert (forallb (fun n =>
              Bool.eqb (isLDH (Z.of_nat n))
                ((Z.of_nat n <=? 0x7f) && negb (Z.of_nat n =? 0x2e)
                 && negb (asciiDataAt (Z.of_nat n) <? 0)))
              (seq 0 128) = true) as H by (vm_compute; reflexivity).
    rewrite forallb_forall in H.
    specialize (H (Z.to_nat c)). rewrite Z2Nat.id in H by lia.
    apply eqb_prop, H, in_seq. lia.
  - unfold isLDH, asciiDataAt, readZ.
    destruct (Z.ltb_spec c 0).
    + simpl. rewrite andb_false_r.
      repeat (apply orb_false_iff; split); try apply andb_false_iff; lia.
    + replace (c <=? 127) with false by lia. simpl.
      repeat (apply orb_false_iff; split); try apply andb_false_iff; lia.
Qed.

Section WithEnv.
Context (props : UCharProps) (puny : Punycode).
Context (uts46Norm2 nfcNorm2 : Normalizer2) (options : Z).

Lemma punycodeErrorStep_spec dest s c onlyLDH info :
  dest !! s = Some c ->
  exists info',
    punycodeErrorStep options dest s c onlyLDH info
    = (<[s := afterPunycodeError (disallowNonLDHDot options) c]> dest,
       onlyLDH && isLDH c, info') /\
    writes info info'.
Proof.
  intros Hc. unfold punycodeErrorStep, afterPunycodeError.
  rewrite !isLDH_asciiData.
  destruct (Z.leb_spec c 127) as [Hle|Hgt]; simpl.
  - destruct (c =? 46); simpl.
    + rewrite andb_false_r. eexists. split; [done|].
      apply writes_or; [apply writes_refl|]. unfold labelErrorBits. set_solver.
    + destruct (asciiDataAt c <? 0); simpl.
      * rewrite andb_false_r. destruct (disallowNonLDHDot options);
          (eexists; split; [|apply writes_refl]); [done|].
        by rewrite list_insert_id.
      * rewrite andb_true_r, list_insert_id by done.
        eexists; split; [done|apply writes_refl].
  - rewrite andb_false_r. replace (c =? 46) with false by lia.
    rewrite list_insert_id by done.
    eexists; split; [done|apply writes_refl].
Qed.

(** The whole loop over the units [rest] that stand from index [s] on. *)
Lemma punycodeErrorScan_spec rest : forall n dest s onlyLDH info,
  rest <> [] ->
  take (length rest) (drop s dest) = rest ->
  (s + length rest <= length dest)%nat ->
  (length rest <= S n)%nat ->
  exists info',
    punycodeErrorScan options n dest s (s + length rest) onlyLDH info
    = Some (take s dest
              ++ map (afterPunycodeError (disallowNonLDHDot options)) rest
              ++ drop (s + length rest) dest,
            onlyLDH && forallb isLDH rest, info') /\
    writes info info'.
Proof.
  induction rest as [|c rest IH]; intros n dest s onlyLDH info Hne Hr Hl Hn;
    [done|].
  assert (dest !! s = Some c) as Hc.
  { apply (f_equal (fun l => l !! 0%nat)) in Hr.
    rewrite lookup_take_lt, lookup_drop in Hr by (simpl; lia).
    by rewrite Nat.add_0_r in Hr. }
  destruct (punycodeErrorStep_spec dest s c onlyLDH info Hc) as (i1 & Hs & Hw).
  assert (punycodeErrorScan options n dest s (s + length (c :: rest)) onlyLDH info
          = let '(dest, onlyLDH, info) :=
              punycodeErrorStep options dest s c onlyLDH info in
            if decide (s + 1 < s + length (c :: rest))%nat then
              match n with
              | O => None
              | S n => punycodeErrorScan options n dest (s + 1)
                         (s + length (c :: rest)) onlyLDH info
              end
            else Some (dest, onlyLDH, info)) as ->
    by (destruct n; simpl; by rewrite Hc).
  rewrite Hs. simpl in Hl, Hn, Hr.
  set (repl := afterPunycodeError (disallowNonLDHDot options)) in *.
  destruct rest as [|c' rest'].
  - rewrite decide_False by (simpl; lia). eexists. split; [|done].
    simpl. rewrite andb_true_r. repeat f_equal.
    rewrite insert_take_drop by (by apply lookup_lt_Some in Hc).
    by rewrite Nat.add_1_r.
  - rewrite decide_True by (simpl; lia).
    destruct n as [|n]; [simpl in Hn; lia|].
    replace (s + length (c :: c' :: rest'))%nat
      with (s + 1 + length (c' :: rest'))%nat by (simpl; lia).
    destruct (IH n (<[s := repl c]> dest) (s + 1)%nat (onlyLDH && isLDH c) i1)
      as (i2 & Hscan & Hw2).
    + done.
    + rewrite drop_insert_lt by lia.
      rewrite <- drop_drop.
      destruct (drop s dest) as [|x l] eqn:Ed; [done|].
      simpl in Hr |- *. rewrite drop_0. by simplify_eq.
    + rewrite length_insert. simpl in *. lia.
    + simpl in *. lia.
    + rewrite Hscan. eexists. split; [|by eapply writes_trans].
      rewrite drop_insert_lt by lia.
      apply lookup_lt_Some in Hc.
      rewrite Nat.add_1_r, (take_S_r _ _ (repl c))
        by (by apply list_lookup_insert_eq).
      rewrite take_insert_ge by lia.
      cbn [forallb map]. rewrite <- !app_assoc, !andb_assoc. done.
Qed.

Lemma map_afterPunycodeError_LDH std3 rest :
  forallb isLDH rest = true -> map (afterPunycodeError std3) rest = rest.
Proof.
  induction rest as [|c rest IH]; [done|]. cbn [forallb map].
  intros [Hc Hr]%andb_true_iff. rewrite IH by done. f_equal.
  unfold afterPunycodeError. rewrite Hc.
  rewrite isLDH_asciiData in Hc.
  apply andb_true_iff in Hc as [[_ H1]%andb_true_iff _].
  apply negb_true_iff in H1. rewrite H1. simpl. by rewrite andb_false_r.
Qed.

(** [(options & UIDNA_USE_STD3_RULES) != 0] tests bit 1 of the options. *)
Lemma disallowNonLDHDot_bit : disallowNonLDHDot options = Z.testbit options 1.
Proof.
  unfold disallowNonLDHDot. change UIDNA_USE_STD3_RULES with (2 ^ 1).
  destruct (Z.testbit options 1) eqn:E.
  - apply negb_true_iff, Z.eqb_neq. intros H.
    apply (f_equal (fun z => Z.testbit z 1)) in H.
    by rewrite Z.land_spec, E, Z.pow2_bits_eqb, Z.bits_0 in H.
  - apply negb_false_iff, Z.eqb_eq, Z.bits_inj_0.
    intros n. rewrite Z.land_spec, Z.pow2_bits_eqb by lia.
    destruct (Z.eqb_spec 1 n) as [<-|_]; [by rewrite E|].
    by rewrite andb_false_r.
Qed.

Lemma slice_Some buf start len l :
  slice buf start len = Some l ->
  (start + len <= length buf)%nat /\ l = take len (drop start buf)
  /\ length l = len.
Proof.
  unfold slice. intros H. case_decide; simplify_eq.
  split; [done|]. split; [done|]. rewrite length_take, length_drop. lia.
Qed.

Lemma slice_unitIs buf start len l k c :
  slice buf start len = Some l -> l !! k = Some c ->
  forall v, unitIs buf (start + k) v = Some (c =? v).
Proof.
  intros (Hl & -> & _)%slice_Some Hk v. unfold unitIs.
  pose proof (lookup_lt_Some _ _ _ Hk) as Hlt.
  rewrite length_take in Hlt.
  rewrite lookup_take_lt, lookup_drop in Hk by lia. by rewrite Hk.
Qed.

(** C6.  On a label that starts with ["xn--"] and whose remainder [rest]
    fails Punycode decoding, [processLabel] sets the bit of
    [UIDNA_ERROR_PUNYCODE] (and clears none).  When every unit of [rest] is a
    letter, a digit or a hyphen, the destination afterwards is the one
    before with one U+FFFD put in right after the label, and the delta is 1.
    Otherwise the delta is 0 and the destination is the one before with each
    dot of [rest] and, when the option [UIDNA_USE_STD3_RULES] (bit 1 of the
    options) is set, each other ASCII unit of [rest] that is no letter,
    digit or hyphen replaced by U+FFFD.  The decoder is one that accepts the
    empty string, as [u_strFromPunycode] does. *)
Theorem processLabel_punycode_error dest labelStart labelLength toASCII
    info ec rest :
  (4 <= labelLength)%nat ->
  slice dest labelStart 4 = Some [0x78; 0x6e; 0x2d; 0x2d] ->
  slice dest (labelStart + 4) (labelLength - 4) = Some rest ->
  U_FAILURE (decodePunycode puny rest).2 = true ->
  U_FAILURE (decodePunycode puny []).2 = false ->
  exists info',
    processLabel props puny uts46Norm2 nfcNorm2 options dest labelStart
      labelLength toASCII info ec
    = Some (if forallb isLDH rest
            then take (labelStart + labelLength) dest ++ [0xfffd]
                 ++ drop (labelStart + labelLength) dest
            else take (labelStart + 4) dest
                 ++ map (afterPunycodeError (Z.testbit options 1)) rest
                 ++ drop (labelStart + labelLength) dest,
            if forallb isLDH rest then 1 else 0, info', ec) /\
    has_error UIDNA_ERROR_PUNYCODE info' /\ info_le info info'.
Proof.
  intros Hlen Hxn Hrest Hfail Hempty.
  assert (rest <> []) as Hne by (intros ->; congruence).
  assert (unitIs dest labelStart 0x78 = Some true) as H0.
  { rewrite <- (Nat.add_0_r labelStart).
    apply (slice_unitIs _ _ _ _ 0 0x78 Hxn eq_refl). }
  pose proof (slice_unitIs _ _ _ _ 1 0x6e Hxn eq_refl 0x6e) as H1.
  pose proof (slice_unitIs _ _ _ _ 2 0x2d Hxn eq_refl 0x2d) as H2.
  pose proof (slice_unitIs _ _ _ _ 3 0x2d Hxn eq_refl 0x2d) as H3.
  unfold processLabel. rewrite decide_True by done.
  rewrite H0, H1, H2, H3.
  cbn [andM mbind option_bind Z.eqb Pos.eqb]. rewrite Hrest. cbn [mbind option_bind].
  destruct (decodePunycode puny rest) as [unicode pec]. simpl in Hfail.
  rewrite Hfail.
  apply slice_Some in Hrest as (Hl & Hr & Hlr).
  destruct (punycodeErrorScan_spec rest labelLength dest (labelStart + 4)%nat
              true (or_error UIDNA_ERROR_PUNYCODE info)) as (i1 & Hs & Hw);
    [done|by rewrite Hlr|lia|lia|].
  replace (labelStart + 4 + length rest)%nat with (labelStart + labelLength)%nat
    in Hs by lia.
  rewrite Hs. cbn [mbind option_bind andb].
  assert (has_error UIDNA_ERROR_PUNYCODE i1 /\ info_le info i1) as Hinfo.
  { apply writes_info_le in Hw as Hle. split.
    - destruct Hle as [Hle _]. specialize (Hle 8).
      unfold has_error. intros Hz.
      apply (f_equal (fun z => Z.testbit z 8)) in Hz.
      rewrite Z.land_spec, Hle, Z.bits_0 in Hz; [done|].
      cbn [errors or_error]. rewrite Z.lor_spec. apply orb_true_r.
    - apply writes_info_le. eapply writes_trans; [|exact Hw].
      apply writes_or; [apply writes_refl|]. unfold labelErrorBits. set_solver. }
  exists i1. split; [|done].
  destruct (forallb isLDH rest) eqn:Eldh; [|by rewrite disallowNonLDHDot_bit].
  rewrite map_afterPunycodeError_LDH by done.
  unfold us_insert, us_replace. rewrite Nat.add_0_r.
  assert (take (labelStart + 4) dest ++ rest
          ++ drop (labelStart + labelLength) dest = dest) as ->; [|done].
  rewrite Hr. replace (labelStart + labelLength)%nat
    with (labelStart + 4 + (labelLength - 4))%nat by lia.
  by rewrite app_assoc, take_take_drop, take_drop.
Qed.

End WithEnv.
End PunycodeErrorFacts.


(** * The entry points on sample names *)

Module EntryPoints.
Import UTS46 Spec.

(** C3 (the code departs from the claim).  [nameToASCII] maps ["bücher"] to
    ["xn--bcher-kva"] without any error; applied to that result it gives back
    ["bücher"], again without any error: a label that was Punycode and that
    nothing made the code re-encode is replaced by its decoded form. *)
Theorem nameToASCII_not_idempotent :
  nameToASCII Samples.props Samples.puny Samples.norm Samples.norm 0
    (Str Samples.buecher) false reset U_ZERO_ERROR
  = Some (Str Samples.xn_bcher_kva, reset, U_ZERO_ERROR) /\
  nameToASCII Samples.props Samples.puny Samples.norm Samples.norm 0
    (Str Samples.xn_bcher_kva) false reset U_ZERO_ERROR
  = Some (Str Samples.buecher, reset, U_ZERO_ERROR) /\
  Samples.xn_bcher_kva <> Samples.buecher.
Proof.
  split; [vm_compute; reflexivity|]. split; [vm_compute; reflexivity|].
  discriminate.
Qed.

(** C4 (as stated, the claim fails).  A call that enters with a failure
    status leaves [process] before the info is reset: a bit left in the info
    by an earlier call is still set on return, while the result is the bogus
    string, of length 0. *)
Lemma nameToASCII_stale_domain_bit :
  ~ DomainNameRule Samples.props Samples.puny Samples.norm Samples.norm 0
      (Str [0x62]) false
      {| errors := UIDNA_ERROR_DOMAIN_NAME_TOO_LONG; hasDevChars := false |}
      U_ILLEGAL_ARGUMENT_ERROR.
Proof.
  intros H.
  destruct (H Bogus
              {| errors := UIDNA_ERROR_DOMAIN_NAME_TOO_LONG;
                 hasDevChars := false |}
              U_ILLEGAL_ARGUMENT_ERROR eq_refl)
    as (processed & info1 & ec1 & Hp & Hiff).
  vm_compute in Hp. injection Hp as <- <- <-.
  destruct Hiff as [Hiff _].
  destruct Hiff as [Hlen _]; [by vm_compute|].
  simpl in Hlen. lia.
Qed.

Lemma nameToASCII_domain_name_too_long_witness :
  ((U_FAILURE U_ZERO_ERROR = false /\ false = false /\
    Str Samples.buecher <> Bogus) \/
   ~ has_error UIDNA_ERROR_DOMAIN_NAME_TOO_LONG reset) /\
  DomainNameRule Samples.props Samples.puny Samples.norm Samples.norm 0
    (Str Samples.buecher) false reset U_ZERO_ERROR.
Proof.
  assert ((U_FAILURE U_ZERO_ERROR = false /\ false = false /\
           Str Samples.buecher <> Bogus) \/
          ~ has_error UIDNA_ERROR_DOMAIN_NAME_TOO_LONG reset) as H
    by (left; repeat split; discriminate).
  split; [exact H|].
  exact (LabelFacts.nameToASCII_domain_name_too_long Samples.props
           Samples.puny Samples.norm Samples.norm 0 (Str Samples.buecher)
           false reset U_ZERO_ERROR H).
Defined.

(** A name of 300 letters is too long, and so is its only label. *)
Example nameToASCII_300_letters :
  nameToASCII Samples.props Samples.puny Samples.norm Samples.norm 0
    (Str (replicate 300 0x61)) false reset U_ZERO_ERROR
  = Some (Bogus,
          {| errors := Z.lor UIDNA_ERROR_LABEL_TOO_LONG
                         UIDNA_ERROR_DOMAIN_NAME_TOO_LONG;
             hasDevChars := false |}, U_ZERO_ERROR).
Proof. vm_compute. reflexivity. Qed.

(** A name of 254 units that ends in a dot is not. *)
Example nameToASCII_254_with_dot :
  let label n := replicate n 0x61 ++ [0x2e] in
  let name := label 63%nat ++ label 63%nat ++ label 63%nat ++ label 61%nat in
  length name = 254%nat /\
  nameToASCII Samples.props Samples.puny Samples.norm Samples.norm 0
    (Str name) false reset U_ZERO_ERROR
  = Some (Str name, reset, U_ZERO_ERROR).
Proof. split; vm_compute; reflexivity. Qed.

(** The label ["faß"] of ["a.faß"], processed for [toUnicode]. *)
Lemma processLabel_keeps_earlier_units_witness :
  processLabel Samples.props Samples.puny Samples.norm Samples.norm 0
    Samples.a_fass 2 3 false reset U_ZERO_ERROR
  = Some ([0x61; 0x2e; 0x66; 0x61; 0x73; 0x73; 0x73], 1,
          set_hasDevChars reset, U_ZERO_ERROR) /\
  take 2 [0x61; 0x2e; 0x66; 0x61; 0x73; 0x73; 0x73] = take 2 Samples.a_fass /\
  forall i, (i < 2)%nat ->
    [0x61; 0x2e; 0x66; 0x61; 0x73; 0x73; 0x73] !! i = Samples.a_fass !! i.
Proof.
  assert (processLabel Samples.props Samples.puny Samples.norm Samples.norm 0
            Samples.a_fass 2 3 false reset U_ZERO_ERROR
          = Some ([0x61; 0x2e; 0x66; 0x61; 0x73; 0x73; 0x73], 1,
                  set_hasDevChars reset, U_ZERO_ERROR)) as H
    by (vm_compute; reflexivity).
  split; [exact H|].
  exact (LabelFacts.processLabel_keeps_earlier_units Samples.props
           Samples.puny Samples.norm Samples.norm 0 Samples.a_fass 2 3 false reset
           U_ZERO_ERROR _ _ _ _ H).
Defined.

(** Three calls on a label whose remainder is no Punycode: the label
    ["xn--b"] of ["xn--b.de"], all letters after ["xn--"], gets U+FFFD after
    it and the delta 1; the label ["xn--a_.b"] keeps its length, with the
    low line and the dot replaced under STD3 rules and the dot alone
    without them. *)
Lemma processLabel_punycode_error_witness :
  ((4 <= 5)%nat /\
   slice Samples.xn_b_de 0 4 = Some [0x78; 0x6e; 0x2d; 0x2d] /\
   slice Samples.xn_b_de (0 + 4) (5 - 4) = Some [0x62] /\
   U_FAILURE (decodePunycode Samples.puny [0x62]).2 = true /\
   U_FAILURE (decodePunycode Samples.puny []).2 = false /\
   exists info',
     processLabel Samples.props Samples.puny Samples.norm Samples.norm 0
       Samples.xn_b_de 0 5 true reset U_ZERO_ERROR
     = Some ([0x78; 0x6e; 0x2d; 0x2d; 0x62; 0xfffd; 0x2e; 0x64; 0x65], 1,
             info', U_ZERO_ERROR) /\
     has_error UIDNA_ERROR_PUNYCODE info' /\ info_le reset info') /\
  ((4 <= 8)%nat /\
   slice Samples.xn_a_lowline_dot_b 0 4 = Some [0x78; 0x6e; 0x2d; 0x2d] /\
   slice Samples.xn_a_lowline_dot_b (0 + 4) (8 - 4)
     = Some [0x61; 0x5f; 0x2e; 0x62] /\
   U_FAILURE (decodePunycode Samples.puny [0x61; 0x5f; 0x2e; 0x62]).2 = true /\
   (exists info',
      processLabel Samples.props Samples.puny Samples.norm Samples.norm
        UIDNA_USE_STD3_RULES Samples.xn_a_lowline_dot_b 0 8 true reset
        U_ZERO_ERROR
      = Some ([0x78; 0x6e; 0x2d; 0x2d; 0x61; 0xfffd; 0xfffd; 0x62], 0,
              info', U_ZERO_ERROR) /\
      has_error UIDNA_ERROR_PUNYCODE info' /\ info_le reset info') /\
   (exists info',
      processLabel Samples.props Samples.puny Samples.norm Samples.norm 0
        Samples.xn_a_lowline_dot_b 0 8 true reset U_ZERO_ERROR
      = Some ([0x78; 0x6e; 0x2d; 0x2d; 0x61; 0x5f; 0xfffd; 0x62], 0,
              info', U_ZERO_ERROR) /\
      has_error UIDNA_ERROR_PUNYCODE info' /\ info_le reset info')).
Proof.
  assert (4 <= 5)%nat as H1 by lia.
  assert (slice Samples.xn_b_de 0 4 = Some [0x78; 0x6e; 0x2d; 0x2d]) as H2
    by reflexivity.
  assert (slice Samples.xn_b_de (0 + 4) (5 - 4) = Some [0x62]) as H3 by reflexivity.
  assert (U_FAILURE (decodePunycode Samples.puny [0x62]).2 = true) as H4
    by reflexivity.
  assert (U_FAILURE (decodePunycode Samples.puny []).2 = false) as H5
    by reflexivity.
  assert (4 <= 8)%nat as K1 by lia.
  assert (slice Samples.xn_a_lowline_dot_b 0 4 = Some [0x78; 0x6e; 0x2d; 0x2d])
    as K2 by reflexivity.
  assert (slice Samples.xn_a_lowline_dot_b (0 + 4) (8 - 4)
          = Some [0x61; 0x5f; 0x2e; 0x62]) as K3 by reflexivity.
  assert (U_FAILURE (decodePunycode Samples.puny [0x61; 0x5f; 0x2e; 0x62]).2
          = true) as K4 by reflexivity.
  split.
  - repeat (split; [assumption|]).
    exact (PunycodeErrorFacts.processLabel_punycode_error Samples.props
             Samples.puny Samples.norm Samples.norm 0 Samples.xn_b_de 0 5 true
             reset U_ZERO_ERROR [0x62] H1 H2 H3 H4 H5).
  - repeat (split; [assumption|]). split.
    + exact (PunycodeErrorFacts.processLabel_punycode_error Samples.props
               Samples.puny Samples.norm Samples.norm UIDNA_USE_STD3_RULES
               Samples.xn_a_lowline_dot_b 0 8 true reset U_ZERO_ERROR
               [0x61; 0x5f; 0x2e; 0x62] K1 K2 K3 K4 H5).
    + exact (PunycodeErrorFacts.processLabel_punycode_error Samples.props
               Samples.puny Samples.norm Samples.norm 0
               Samples.xn_a_lowline_dot_b 0 8 true reset U_ZERO_ERROR
               [0x61; 0x5f; 0x2e; 0x62] K1 K2 K3 K4 H5).
Defined.


End EntryPoints.


(** * The fuel of the loops is enough

    Each loop below is called with a count that bounds its rounds: with any
    two counts at or above the bound it gives the same answer, so that it
    never stops for lack of fuel and [None] stands for an undefined read
    only. *)

Module Fuel.
Import UTS46 Spec.

Section WithEnv.
Context (props : UCharProps) (puny : Punycode).
Context (uts46Norm2 nfcNorm2 : Normalizer2) (options : Z).

Lemma scanStep_measure wasPunycode doMap labelStart sc sc' :
  scanStep options wasPunycode doMap sc = Some sc' ->
  (labelStart <= sc_s sc)%nat ->
  (labelStart <= sc_s sc')%nat /\
  ((sc_s sc' < labelStart + sc_labelLength sc')%nat ->
   (labelStart + sc_labelLength sc' - sc_s sc' + 1
    <= labelStart + sc_labelLength sc - sc_s sc)%nat).
Proof.
  unfold scanStep. intros H Hs.
  destruct (sc_buf sc !! sc_s sc) as [c|]; simpl in H; [|done].
  repeat case_match; simplify_eq; simpl; lia.
Qed.

Lemma scanLoop_fuel n : forall n' wasPunycode doMap labelStart sc,
  (labelStart <= sc_s sc)%nat ->
  (labelStart + sc_labelLength sc - sc_s sc <= S n)%nat ->
  (labelStart + sc_labelLength sc - sc_s sc <= S n')%nat ->
  scanLoop options n wasPunycode doMap labelStart sc
  = scanLoop options n' wasPunycode doMap labelStart sc.
Proof.
  induction n as [|n IH]; intros n' wasPunycode doMap labelStart sc Hs Hn Hn';
    destruct n' as [|n']; simpl;
    destruct (scanStep options wasPunycode doMap sc) as [sc1|] eqn:E;
    simpl; try done;
    apply (scanStep_measure _ _ labelStart) in E as [Hs1 Hm]; try done;
    case_decide as Hc; try done; specialize (Hm Hc); try lia.
  apply IH; [done|lia|lia].
Qed.

(** [checkLabel] calls the scan with [n = labelLength] and [s = labelStart]. *)
Lemma scanLoop_fuel_enough n wasPunycode doMap labelStart sc :
  sc_s sc = labelStart -> (sc_labelLength sc <= n)%nat ->
  scanLoop options n wasPunycode doMap labelStart sc
  = scanLoop options (sc_labelLength sc) wasPunycode doMap labelStart sc.
Proof. intros Hs Hn. apply scanLoop_fuel; lia. Qed.

Lemma labelsLoop_fuel n : forall n' toASCII dest destLength labelStart labelLimit
    info ec,
  (Z.to_nat (destLength - labelLimit) <= n)%nat ->
  (Z.to_nat (destLength - labelLimit) <= n')%nat ->
  labelsLoop props puny uts46Norm2 nfcNorm2 options n toASCII dest destLength
    labelStart labelLimit info ec
  = labelsLoop props puny uts46Norm2 nfcNorm2 options n' toASCII dest
      destLength labelStart labelLimit info ec.
Proof.
  induction n as [|n IH]; intros n' toASCII dest destLength labelStart
    labelLimit info ec Hn Hn'; destruct n' as [|n']; simpl;
    destruct (Z.ltb_spec labelLimit destLength) as [Hlt|Hge]; try done;
    try lia.
  destruct (readZ dest labelLimit) as [c|]; simpl; [|done].
  destruct (c =? 46).
  - destruct (processLabel _ _ _ _ _ _ _ _ _ _ _) as [[[[d1 delta] i1] e1]|];
      simpl; [|done].
    destruct (U_FAILURE e1); [done|]. apply IH; lia.
  - apply IH; lia.
Qed.

Lemma U16_PREV_UNSAFE_labelAt buf labelStart j c j' :
  U16_PREV_UNSAFE (labelAt buf labelStart) j = Some (c, j') ->
  j' < j /\ 0 <= Z.of_nat labelStart + j'.
Proof.
  unfold U16_PREV_UNSAFE, labelAt, readZ. intros H.
  repeat (case_match; simplify_option_eq); lia.
Qed.

Lemma U16_NEXT_UNSAFE_labelAt buf labelStart i c i' :
  U16_NEXT_UNSAFE (labelAt buf labelStart) i = Some (c, i') ->
  i < i' /\ Z.of_nat labelStart + i' <= Z.of_nat (length buf).
Proof.
  unfold U16_NEXT_UNSAFE, labelAt, readZ. intros H.
  repeat (case_match; simplify_option_eq);
    repeat match goal with
    | H : _ !! _ = Some _ |- _ => apply lookup_lt_Some in H
    end; lia.
Qed.

Lemma contextJPre_fuel buf labelStart fuel : forall fuel' c j,
  (Z.to_nat (Z.of_nat labelStart + j) <= fuel)%nat ->
  (Z.to_nat (Z.of_nat labelStart + j) <= fuel')%nat ->
  contextJPre props fuel (labelAt buf labelStart) c j
  = contextJPre props fuel' (labelAt buf labelStart) c j.
Proof.
  induction fuel as [|fuel IH]; intros fuel' c j Hf Hf';
    destruct fuel' as [|fuel']; simpl; try done;
    destruct (u_getJoiningType props c); try done;
    destruct (Z.eqb_spec j 0); try done;
    destruct (U16_PREV_UNSAFE (labelAt buf labelStart) j) as [[c' j']|] eqn:E;
    simpl; try done;
    apply U16_PREV_UNSAFE_labelAt in E; try lia.
  apply IH; lia.
Qed.

Lemma contextJPost_fuel buf labelStart j labelLength fuel : forall fuel' i,
  (Z.to_nat (Z.of_nat (length buf) - (Z.of_nat labelStart + i)) <= fuel)%nat ->
  (Z.to_nat (Z.of_nat (length buf) - (Z.of_nat labelStart + i)) <= fuel')%nat ->
  contextJPost props fuel (labelAt buf labelStart) i j labelLength
  = contextJPost props fuel' (labelAt buf labelStart) i j labelLength.
Proof.
  induction fuel as [|fuel IH]; intros fuel' i Hf Hf';
    destruct fuel' as [|fuel']; simpl; try done;
    destruct (j =? labelLength); try done;
    destruct (U16_NEXT_UNSAFE (labelAt buf labelStart) i) as [[c i']|] eqn:E;
    simpl; try done;
    apply U16_NEXT_UNSAFE_labelAt in E; try lia.
  destruct (u_getJoiningType props c); try done. apply IH; lia.
Qed.

Lemma contextJPost_advances fuel rd : forall i j labelLength i',
  contextJPost props fuel rd i j labelLength = Some (Some i') -> i < i'.
Proof.
  induction fuel as [|fuel IH]; intros i j labelLength i' H; simpl in H.
  - by case_match.
  - case_match; [done|].
    apply bind_Some in H as ([c i1] & Hn & H).
    assert (i < i1) by
      (unfold U16_NEXT_UNSAFE in Hn;
       repeat (case_match; simplify_option_eq); lia).
    destruct (u_getJoiningType props c); simplify_eq; try lia.
    apply IH in H. lia.
Qed.

Lemma contextJLoop_fuel inner rd labelLength fuel : forall fuel' i,
  (Z.to_nat (labelLength - i) <= fuel)%nat ->
  (Z.to_nat (labelLength - i) <= fuel')%nat ->
  contextJLoop props fuel inner rd i labelLength
  = contextJLoop props fuel' inner rd i labelLength.
Proof.
  induction fuel as [|fuel IH]; intros fuel' i Hf Hf';
    destruct fuel' as [|fuel']; simpl;
    destruct (Z.ltb_spec i labelLength); try done; try lia.
  destruct (rd i) as [u|]; simpl; [|done].
  repeat (case_match; try done); simpl; try (apply IH; lia).
  all: destruct (U16_PREV_UNSAFE rd i) as [[c j]|]; simpl; try done.
  all: repeat (case_match; try done); simpl; try (apply IH; lia).
  destruct (contextJPre props inner rd c j) as [[|]|]; simpl; try done.
  destruct (contextJPost props inner rd i (i + 1) labelLength)
    as [[i'|]|] eqn:E; simpl; try done.
  apply contextJPost_advances in E. apply IH; lia.
Qed.

End WithEnv.

Module TS := TailoredSet.
Module CnE := ContractionsAndExpansions.

Lemma handleCE32_loop_fuel C fuel n : forall n' start end_ ce32 st,
  (Z.to_nat (end_ - start) <= n)%nat -> (Z.to_nat (end_ - start) <= n')%nat ->
  TS.handleCE32_loop C fuel n start end_ ce32 st
  = TS.handleCE32_loop C fuel n' start end_ ce32 st.
Proof.
  induction n as [|n IH]; intros n' start end_ ce32 st Hn Hn';
    destruct n' as [|n']; simpl;
    destruct (if _ || _ then _ else _) as [st1|]; simpl; try done;
    destruct (Z.leb_spec (start + 1) end_); try done; try lia.
  apply IH; lia.
Qed.

Lemma addStrings_loop_fuel n : forall n' start end_ s prefixLength st,
  (Z.to_nat (end_ - start) <= n)%nat -> (Z.to_nat (end_ - start) <= n')%nat ->
  CnE.addStrings_loop n start end_ s prefixLength st
  = CnE.addStrings_loop n' start end_ s prefixLength st.
Proof.
  induction n as [|n IH]; intros n' start end_ s prefixLength st Hn Hn';
    destruct n' as [|n']; simpl;
    destruct (CnE.update_set _ _ _) as [st1|]; simpl; try done;
    destruct (Z.leb_spec (start + 1) end_); try done; try lia.
  apply IH; lia.
Qed.

End Fuel.


(** * Further theorems: collation tailoring sets *)

Module TailoredSetFacts.

Module TS := TailoredSet.
Import Spec.

(** ** The parallel walks *)

(** After a round of the loop at least one of the two pointers is [NULL],
    so that the test [tp != &none || bp != &none] never fails again. *)
Lemma comparePrefixes_loop_none C rec fuel : forall c none tp bp P Q st,
  tp = PNull \/ bp = PNull ->
  TS.comparePrefixes_loop C rec fuel c none tp bp P Q st = None.
Proof.
  induction fuel as [|fuel IH]; intros c none tp bp P Q st Hp; simpl.
  - destruct tp, bp; simpl; try done; by destruct Hp.
  - replace (StrPtr_is_none tp && StrPtr_is_none bp) with false
      by (destruct tp, bp; simpl; try done; by destruct Hp).
    destruct (TS.fetch _ tp P) as [tp1 P1].
    destruct (TS.fetch _ bp Q) as [bp1 Q1].
    destruct (ustr_compare _ _).
    + destruct (rec _ _ _ _) as [st1|]; simpl; [|done]. apply IH. by left.
    + apply IH. by left.
    + apply IH. by right.
Qed.

Lemma compareContractions_loop_none rec fuel : forall c none ts bs P Q st,
  ts = PNull \/ bs = PNull ->
  TS.compareContractions_loop rec fuel c none ts bs P Q st = None.
Proof.
  induction fuel as [|fuel IH]; intros c none ts bs P Q st Hp; simpl.
  - destruct ts, bs; simpl; try done; by destruct Hp.
  - replace (StrPtr_is_none ts && StrPtr_is_none bs) with false
      by (destruct ts, bs; simpl; try done; by destruct Hp).
    destruct (TS.fetch _ ts P) as [ts1 P1].
    destruct (TS.fetch _ bs Q) as [bs1 Q1].
    destruct (ustr_compare _ _).
    + destruct (rec _ _ _ _) as [st1|]; simpl; [|done]. apply IH. by left.
    + apply IH. by left.
    + apply IH. by right.
Qed.

(** X1.  [comparePrefixes] and [compareContractions] never return: however
    many rounds their loops are given, they have not ended.  Each round ends
    with [tp] or [bp] ([ts] or [bs]) set to [NULL], and the loop test, which
    comes before the two fetches, only fails when both are [&none]. *)
Theorem parallel_walks_never_return C rec c p q st :
  (forall fuel none P Q,
     TS.comparePrefixes_loop C rec fuel c none PNull PNull P Q st = None) /\
  (forall fuel none P Q,
     TS.compareContractions_loop rec fuel c none PNull PNull P Q st = None) /\
  TS.comparePrefixes C rec c p q st = None /\
  TS.compareContractions C rec c p q st = None.
Proof.
  repeat split; intros;
    first [apply comparePrefixes_loop_none
          |apply compareContractions_loop_none]; by left.
Qed.

#[local] Arguments TS.comparePrefixes : simpl never.
#[local] Arguments TS.compareContractions : simpl never.
#[local] Arguments TS.compareTags : simpl never.
#[local] Arguments TS.addPrefixes : simpl never.
#[local] Arguments TS.addContractions : simpl never.

Lemma comparePrefixes_none C rec c p q st :
  TS.comparePrefixes C rec c p q st = None.
Proof. apply comparePrefixes_loop_none. by left. Qed.

Lemma compareContractions_none C rec c p q st :
  TS.compareContractions C rec c p q st = None.
Proof. apply compareContractions_loop_none. by left. Qed.

(** X2.  A code point whose CE32s in the tailoring and in the base both
    lead to a prefix table, or both to a contraction table, makes [compare]
    run forever (or read outside [contexts] before that): it returns for no
    bound on the depth of its recursion. *)
Theorem compare_of_two_tables_never_returns C fuel c ce32 baseCE32 st :
  (isPrefixCE32 C ce32 = true /\ isPrefixCE32 C baseCE32 = true) \/
  (isPrefixCE32 C ce32 = false /\ isPrefixCE32 C baseCE32 = false /\
   isContractionCE32 C ce32 = true /\ isContractionCE32 C baseCE32 = true) ->
  TS.compare C fuel c ce32 baseCE32 st = None.
Proof.
  intros H. destruct fuel as [|fuel]; [done|]. simpl.
  destruct H as [[H1 H2]|(H1 & H2 & H3 & H4)]; rewrite H1, H2.
  - rewrite comparePrefixes_none.
    by repeat (destruct (contextCE32 _ _); simpl).
  - simpl. rewrite H3, H4, compareContractions_none.
    by repeat (destruct (contextCE32 _ _); simpl).
Qed.

(** ** The fastpath of [handleCE32] *)

Lemma handleCE32_loop_plain C fuel n : forall start end_ ce32 st,
  Z.to_nat (end_ - start) = n -> start <= end_ ->
  isSpecialCE32 C ce32 = false ->
  (forall c, start <= c <= end_ ->
     isSpecialCE32 C
       (getFinalCE32 C (TS.baseData st) (getCE32 C (TS.baseData st) c)) = false) ->
  exists t,
    TS.handleCE32_loop C fuel n start end_ ce32 st = Some (TS.set_tailored t st) /\
    forall s, s ∈ t <->
      s ∈ TS.tailored st \/
      exists c, start <= c <= end_ /\
        ce32 <> getFinalCE32 C (TS.baseData st) (getCE32 C (TS.baseData st) c) /\
        s = append_cp [] (pinCodePoint c).
Proof.
  induction n as [|n IH]; intros start end_ ce32 st Hn Hle Hs Hb; simpl;
    rewrite Hs, (Hb start) by lia; simpl.
  - assert (end_ = start) as -> by lia.
    replace (start + 1 <=? start) with false by lia.
    destruct (Z.eqb_spec ce32
                (getFinalCE32 C (TS.baseData st) (getCE32 C (TS.baseData st) start)))
      as [He|He]; simpl.
    + exists (TS.tailored st). split; [by destruct st|].
      intros s. split; [by left|]. intros [?|(c & Hc & Hne & _)]; [done|].
      by assert (c = start) as -> by lia.
    + eexists. split; [done|]. intros s. unfold set_add_cp.
      rewrite elem_of_union, elem_of_singleton. split.
      * intros [->|?]; [right; exists start; split; [lia|done]|by left].
      * intros [?|(c & Hc & _ & ->)]; [by right|].
        left. by assert (c = start) as -> by lia.
  - destruct (Z.eqb_spec ce32
                (getFinalCE32 C (TS.baseData st) (getCE32 C (TS.baseData st) start)))
      as [He|He]; simpl; replace (start + 1 <=? end_) with true by lia.
    + destruct (IH (start + 1) end_ ce32 st) as (t & Ht & Hin);
        [lia|lia|done|by intros c Hc; apply Hb; lia|].
      exists t. split; [done|]. intros s. rewrite Hin. split.
      * intros [?|(c & Hc & ?)]; [by left|]. right. exists c. split; [lia|done].
      * intros [?|(c & Hc & Hne & ?)]; [by left|]. right. exists c.
        split; [|done]. destruct (decide (c = start)) as [->|]; [done|lia].
    + destruct (IH (start + 1) end_ ce32
                  (TS.set_tailored (set_add_cp start (TS.tailored st)) st))
        as (t & Ht & Hin); [lia|lia|done|by intros c Hc; apply Hb; lia|].
      exists t. split; [by rewrite Ht; destruct st|].
      intros s. rewrite Hin. simpl. unfold set_add_cp.
      rewrite elem_of_union, elem_of_singleton. split.
      * intros [[->|?]|(c & Hc & ?)]; [right; exists start; split; [lia|done]
                                      |by left|].
        right. exists c. split; [lia|done].
      * intros [?|(c & Hc & Hne & ->)]; [by left; right|].
        destruct (decide (c = start)) as [->|]; [by left; left|].
        right. exists c. split; [lia|done].
Qed.

(** X3.  On a range whose CE32 is not special, over base data whose CE32s
    are not special either, [handleCE32] returns, and it has added to
    [tailored] exactly the code points of the range whose base CE32 differs
    from the CE32 of the range; it has changed nothing else. *)
Theorem handleCE32_plain_range C fuel start end_ ce32 st :
  start <= end_ ->
  isSpecialCE32 C ce32 = false ->
  (forall c, start <= c <= end_ ->
     isSpecialCE32 C
       (getFinalCE32 C (TS.baseData st) (getCE32 C (TS.baseData st) c)) = false) ->
  exists t,
    TS.handleCE32 C fuel start end_ ce32 st = Some (TS.set_tailored t st) /\
    forall s, s ∈ t <->
      s ∈ TS.tailored st \/
      exists c, start <= c <= end_ /\
        ce32 <> getFinalCE32 C (TS.baseData st) (getCE32 C (TS.baseData st) c) /\
        s = append_cp [] (pinCodePoint c).
Proof.
  intros Hle Hs Hb. unfold TS.handleCE32. rewrite Hs.
  by apply handleCE32_loop_plain.
Qed.

Lemma handleCE32_plain_range_witness :
  0xe0 <= 0xe5 /\
  exists t,
    TS.handleCE32 Samples.collation 0 0xe0 0xe5 0xe2 Samples.tailoredSet
      = Some (TS.set_tailored t Samples.tailoredSet) /\
    forall s, s ∈ t <->
      s ∈ TS.tailored Samples.tailoredSet \/
      exists c, 0xe0 <= c <= 0xe5 /\
        0xe2 <> getFinalCE32 Samples.collation (TS.baseData Samples.tailoredSet)
                  (getCE32 Samples.collation (TS.baseData Samples.tailoredSet) c) /\
        s = append_cp [] (pinCodePoint c).
Proof.
  assert (0xe0 <= 0xe5) as H1 by lia.
  split; [exact H1|].
  refine (handleCE32_plain_range Samples.collation 0 0xe0 0xe5 0xe2
            Samples.tailoredSet H1 eq_refl _).
  intros c Hc. simpl. lia.
Defined.

(** A tailoring and a base that both give U+0061 a prefix CE32 whose
    table is in a [contexts] array that holds its default CE32: both reads
    of the default succeed, and the call does not return from the walk of
    the two tables. *)
Lemma compare_of_two_tables_never_returns_witness :
  ((isPrefixCE32 Samples.collationWithTrie 0xC4000000 = true /\
    isPrefixCE32 Samples.collationWithTrie 0xC4000000 = true) \/
   (isPrefixCE32 Samples.collationWithTrie 0xC4000000 = false /\
    isPrefixCE32 Samples.collationWithTrie 0xC4000000 = false /\
    isContractionCE32 Samples.collationWithTrie 0xC4000000 = true /\
    isContractionCE32 Samples.collationWithTrie 0xC4000000 = true)) /\
  contextCE32 (TS.data Samples.tailoredSetWithContext)
    (getPrefixIndex Samples.collationWithTrie 0xC4000000) = Some 0x12345 /\
  contextCE32 (TS.baseData Samples.tailoredSetWithContext)
    (getPrefixIndex Samples.collationWithTrie 0xC4000000) = Some 0x12345 /\
  TS.compare Samples.collationWithTrie 7 0x61 0xC4000000 0xC4000000
    Samples.tailoredSetWithContext = None.
Proof.
  assert ((isPrefixCE32 Samples.collationWithTrie 0xC4000000 = true /\
           isPrefixCE32 Samples.collationWithTrie 0xC4000000 = true) \/
          (isPrefixCE32 Samples.collationWithTrie 0xC4000000 = false /\
           isPrefixCE32 Samples.collationWithTrie 0xC4000000 = false /\
           isContractionCE32 Samples.collationWithTrie 0xC4000000 = true /\
           isContractionCE32 Samples.collationWithTrie 0xC4000000 = true)) as H
    by (left; split; reflexivity).
  split; [exact H|]. split; [reflexivity|]. split; [reflexivity|].
  exact (compare_of_two_tables_never_returns Samples.collationWithTrie 7 0x61
           0xC4000000 0xC4000000 Samples.tailoredSetWithContext H).
Defined.

(** ** [tailored] only TS.tailored  ⊆ TS.tailored *)

Lemma add_grows c st : TS.tailored st ⊆ TS.tailored (TS.add c st).
Proof.
  unfold TS.add. repeat case_match; simpl; unfold set_add_cp, set_add_str;
    set_solver.
Qed.

Lemma addSuffix_grows c sfx st : TS.tailored st ⊆ TS.tailored (TS.addSuffix c sfx st).
Proof. unfold TS.addSuffix, set_add_str. simpl. set_solver. Qed.

Lemma foldl_grows {A} (f : TS.State -> A -> TS.State) l :
  (forall st a, TS.tailored st ⊆ TS.tailored (f st a)) -> forall st, TS.tailored st ⊆ TS.tailored (foldl f st l).
Proof.
  intros Hf. induction l as [|a l IH]; intros st; simpl; [done|].
  etrans; [apply Hf|apply IH].
Qed.

Lemma addContractions_grows C d c p st : TS.tailored st ⊆ TS.tailored (TS.addContractions C d c p st).
Proof.
  unfold TS.addContractions. case_match; [done|].
  apply foldl_grows. intros. apply addSuffix_grows.
Qed.

Lemma addPrefix_grows C d pfx c ce32 st : TS.tailored st ⊆ TS.tailored (TS.addPrefix C d pfx c ce32 st).
Proof.
  unfold TS.addPrefix. case_match; simpl; unfold set_add_str; [|set_solver].
  pose proof (addContractions_grows C d c
                (getContractionIndex C (getFinalCE32 C d ce32) + 2)
                (TS.set_prefix (Some pfx) st)) as Hc.
  simpl in Hc. set_solver.
Qed.

Lemma addPrefixes_grows C d c p st : TS.tailored st ⊆ TS.tailored (TS.addPrefixes C d c p st).
Proof.
  unfold TS.addPrefixes. case_match; [done|].
  apply foldl_grows. intros. apply addPrefix_grows.
Qed.

Lemma compareTags_grows C c ce32 baseCE32 st st' :
  TS.compareTags C c ce32 baseCE32 st = Some st' -> TS.tailored st ⊆ TS.tailored st'.
Proof.
  intros H. unfold TS.compareTags in H.
  repeat (case_match; simplify_option_eq); try done; apply add_grows.
Qed.

Lemma compare_grows C fuel c ce32 baseCE32 st st' :
  TS.compare C fuel c ce32 baseCE32 st = Some st' -> TS.tailored st ⊆ TS.tailored st'.
Proof.
  intros H. destruct fuel as [|fuel]; [done|]. simpl in H.
  repeat (case_match; simplify_option_eq);
    repeat match goal with
    | H : TS.comparePrefixes _ _ _ _ _ _ = Some _ |- _ =>
        by rewrite comparePrefixes_none in H
    | H : TS.compareContractions _ _ _ _ _ _ = Some _ |- _ =>
        by rewrite compareContractions_none in H
    | H : TS.compareTags _ _ _ _ _ = Some _ |- _ => apply compareTags_grows in H
    end;
    repeat match goal with
    | H : TS.tailored (TS.addPrefixes ?C ?d ?c ?p ?st) ⊆ _ |- _ =>
        pose proof (addPrefixes_grows C d c p st); revert H
    | H : TS.tailored (TS.addContractions ?C ?d ?c ?p ?st) ⊆ _ |- _ =>
        pose proof (addContractions_grows C d c p st); revert H
    end; intros; try done; set_solver.
Qed.

Lemma handleCE32_loop_grows C fuel n : forall start end_ ce32 st st',
  TS.handleCE32_loop C fuel n start end_ ce32 st = Some st' -> TS.tailored st ⊆ TS.tailored st'.
Proof.
  induction n as [|n IH]; intros start end_ ce32 st st' H; simpl in H;
    repeat (case_match; simplify_option_eq);
    repeat match goal with
    | H : TS.compare _ _ _ _ _ _ = Some _ |- _ => apply compare_grows in H
    | H : TS.handleCE32_loop _ _ _ _ _ _ _ = Some _ |- _ => apply IH in H
    end; simpl in *; unfold set_add_cp in *; try done; set_solver.
Qed.

Lemma handleCE32_grows C fuel start end_ ce32 st st' :
  TS.handleCE32 C fuel start end_ ce32 st = Some st' -> TS.tailored st ⊆ TS.tailored st'.
Proof.
  intros H. unfold TS.handleCE32 in H.
  repeat (case_match; simplify_option_eq);
    try (apply handleCE32_loop_grows in H); done.
Qed.

Lemma utrie2_enum_env_grows C fuel ranges : forall st st',
  TS.utrie2_enum (TS.enumTailoredRange C fuel) ranges st = Some st' ->
  same_env st st' /\ TS.tailored st ⊆ TS.tailored st'.
Proof.
  induction ranges as [|[[start end_] ce32] ranges IH]; intros st st' H;
    simpl in H; [by simplify_eq|].
  apply bind_Some in H as ([go_on st1] & He & H).
  assert (same_env st st1 /\ TS.tailored st ⊆ TS.tailored st1) as [Henv Hg].
  { pose proof (CollationFacts.enumTailoredRange_env _ _ _ _ _ _ _ _ He) as [? _].
    split; [done|]. unfold TS.enumTailoredRange in He.
    repeat (case_match; simplify_option_eq); try done;
      by eapply handleCE32_grows. }
  destruct go_on; simplify_eq; [|done].
  apply IH in H as [Henv' Hg'].
  split; [by eapply CollationFacts.same_env_trans|by etrans].
Qed.

(** X4.  [TailoredSet::forData] only adds to [tailored]: what the set held
    before the call, it holds after it. *)
Theorem forData_only_adds C fuel d ec st st' ec' :
  TS.forData C fuel d ec st = Some (st', ec') ->
  TS.tailored st ⊆ TS.tailored st'.
Proof.
  unfold TS.forData. intros H. destruct (U_FAILURE ec); [by simplify_eq|].
  apply bind_Some in H as (st1 & He & H). simplify_eq.
  by apply utrie2_enum_env_grows in He as [_ Hg].
Qed.

Lemma forData_only_adds_witness :
  exists st' ec',
    TS.forData Samples.collation 3 Samples.tailoring U_ZERO_ERROR
      (TS.set_tailored {[ [0x7a] ]} Samples.tailoredSet) = Some (st', ec') /\
    TS.tailored (TS.set_tailored {[ [0x7a] ]} Samples.tailoredSet)
      ⊆ TS.tailored st'.
Proof.
  set (r := default (Samples.tailoredSet, 0)
              (TS.forData Samples.collation 3 Samples.tailoring U_ZERO_ERROR
                 (TS.set_tailored {[ [0x7a] ]} Samples.tailoredSet))).
  assert (TS.forData Samples.collation 3 Samples.tailoring U_ZERO_ERROR
            (TS.set_tailored {[ [0x7a] ]} Samples.tailoredSet)
          = Some (r.1, r.2)) as E by (vm_compute; reflexivity).
  exists r.1, r.2. split; [exact E|].
  exact (forData_only_adds Samples.collation 3 Samples.tailoring U_ZERO_ERROR
           (TS.set_tailored {[ [0x7a] ]} Samples.tailoredSet) _ _ E).
Defined.

(** X5.  [TailoredSet::forData] raises no error of its own: the status it
    hands back is the status it was given and [baseData] is as before.  When
    the status is a failure on entry the object is untouched; otherwise
    [data] is the data passed and [errorCode] the status given. *)
Theorem forData_hands_back_status C fuel d ec st st' ec' :
  TS.forData C fuel d ec st = Some (st', ec') ->
  ec' = ec /\ TS.baseData st' = TS.baseData st /\
  (U_FAILURE ec = true -> st' = st) /\
  (U_FAILURE ec = false -> TS.data st' = d /\ TS.errorCode st' = ec).
Proof.
  unfold TS.forData. intros H. destruct (U_FAILURE ec); [by simplify_eq|].
  apply bind_Some in H as (st1 & He & H). simplify_eq.
  apply utrie2_enum_env_grows in He as [(Hd & Hb & Hec) _].
  by rewrite Hd, Hb, Hec.
Qed.

(** One call with a good status and one with a failure status. *)
Lemma forData_hands_back_status_witness :
  (exists st' ec',
     TS.forData Samples.collation 3 Samples.tailoring U_ZERO_ERROR
       Samples.tailoredSet = Some (st', ec') /\
     ec' = U_ZERO_ERROR /\
     TS.baseData st' = TS.baseData Samples.tailoredSet /\
     (U_FAILURE U_ZERO_ERROR = true -> st' = Samples.tailoredSet) /\
     (U_FAILURE U_ZERO_ERROR = false ->
      TS.data st' = Samples.tailoring /\ TS.errorCode st' = U_ZERO_ERROR)) /\
  (exists st' ec',
     TS.forData Samples.collation 3 Samples.tailoring U_ILLEGAL_ARGUMENT_ERROR
       Samples.tailoredSet = Some (st', ec') /\
     U_FAILURE U_ILLEGAL_ARGUMENT_ERROR = true /\
     ec' = U_ILLEGAL_ARGUMENT_ERROR /\ st' = Samples.tailoredSet).
Proof.
  set (r := default (Samples.tailoredSet, 0)
              (TS.forData Samples.collation 3 Samples.tailoring U_ZERO_ERROR
                 Samples.tailoredSet)).
  assert (TS.forData Samples.collation 3 Samples.tailoring U_ZERO_ERROR
            Samples.tailoredSet = Some (r.1, r.2)) as E
    by (vm_compute; reflexivity).
  set (q := default (Samples.tailoredSet, 0)
              (TS.forData Samples.collation 3 Samples.tailoring
                 U_ILLEGAL_ARGUMENT_ERROR Samples.tailoredSet)).
  assert (TS.forData Samples.collation 3 Samples.tailoring
            U_ILLEGAL_ARGUMENT_ERROR Samples.tailoredSet = Some (q.1, q.2)) as F
    by (vm_compute; reflexivity).
  assert (U_FAILURE U_ILLEGAL_ARGUMENT_ERROR = true) as Hf by reflexivity.
  split.
  - exists r.1, r.2. split; [exact E|].
    exact (forData_hands_back_status Samples.collation 3 Samples.tailoring
             U_ZERO_ERROR Samples.tailoredSet _ _ E).
  - exists q.1, q.2. split; [exact F|]. split; [exact Hf|].
    destruct (forData_hands_back_status Samples.collation 3 Samples.tailoring
                U_ILLEGAL_ARGUMENT_ERROR Samples.tailoredSet _ _ F)
      as (H1 & _ & H2 & _).
    split; [exact H1|exact (H2 Hf)].
Defined.

End TailoredSetFacts.


(** * Further theorems: contractions and expansions *)

Module CnEFacts.

Module CnE := ContractionsAndExpansions.
Import Spec.

Lemma walk_keeps_refl st : walk_keeps st st.
Proof. unfold walk_keeps. repeat split; eauto. Qed.

Lemma walk_keeps_trans a b c : walk_keeps a b -> walk_keeps b c -> walk_keeps a c.
Proof.
  intros (Hd & Hc & He & Ha & Ho & Hg & Hs) (Hd' & Hc' & He' & Ha' & Ho' & Hg' & Hs').
  repeat split; try congruence.
  - intros l Hl. rewrite Ho' by congruence. by apply Ho.
  - intros l s Hl. apply Hg in Hl as (s1 & Hl & Hsub).
    apply Hg' in Hl as (s2 & Hl & Hsub'). exists s2. split; [done|]. by etrans.
  - destruct Hs as [Hs|[Hs1 Hs2]], Hs' as [Hs'|[Hs1' Hs2']].
    + left. congruence.
    + right. split; congruence.
    + right. split; congruence.
    + by rewrite Hs2 in Hs1'.
Qed.

Lemma set_prefix_keeps p st : walk_keeps st (CnE.set_prefix p st).
Proof. unfold walk_keeps. repeat split; eauto. Qed.

Lemma set_suffix_keeps p st : walk_keeps st (CnE.set_suffix p st).
Proof. unfold walk_keeps. repeat split; eauto. Qed.

(** A write through [expansions] that only adds to the set. *)
Lemma update_set_keeps f st st' :
  (forall s, s ⊆ f s) ->
  CnE.update_set (CnE.expansions st) f st = Some st' -> walk_keeps st st'.
Proof.
  unfold CnE.update_set. intros Hf H.
  apply bind_Some in H as (l & Hl & H).
  apply bind_Some in H as (s & Hs & H). simplify_eq.
  unfold walk_keeps. simpl. repeat split; eauto.
  - intros l' Hne. rewrite lookup_insert_ne; [done|]. congruence.
  - intros l' s' Hl'. destruct (decide (l' = l)) as [->|Hne].
    + rewrite lookup_insert_eq. simplify_eq. eauto.
    + rewrite lookup_insert_ne by done. eauto.
Qed.

Lemma addStrings_loop_keeps n : forall start end_ s pl st st',
  CnE.addStrings_loop n start end_ s pl st = Some st' -> walk_keeps st st'.
Proof.
  induction n as [|n IH]; intros start end_ s pl st st' H; simpl in H;
    apply bind_Some in H as (st1 & Hu & H);
    apply update_set_keeps in Hu; try (intros; unfold set_add_str; set_solver);
    destruct (start + 1 <=? end_); simplify_eq; try done.
  apply IH in H. by eapply walk_keeps_trans.
Qed.

Lemma addStrings_keeps start end_ set st st' :
  CnE.addStrings start end_ set st = Some st' -> walk_keeps st st'.
Proof.
  unfold CnE.addStrings. intros H. destruct set; [|simplify_eq; apply walk_keeps_refl].
  destruct (CnE.prefix st); by eapply addStrings_loop_keeps.
Qed.

Lemma addExpansions_keeps start end_ st st' :
  CnE.addExpansions start end_ st = Some st' -> walk_keeps st st'.
Proof.
  unfold CnE.addExpansions. intros H.
  destruct (CnE.prefix st), (CnE.suffix st); try by eapply addStrings_keeps.
  destruct (CnE.expansions st) eqn:E; [|simplify_eq; apply walk_keeps_refl].
  rewrite <- E in H. eapply update_set_keeps; [|done].
  intros s. unfold set_add_range. apply union_subseteq_r.
Qed.

(** ** What [addStrings] adds *)

Lemma append_cp_app s c : append_cp s c = s ++ append_cp [] c.
Proof. unfold append_cp. repeat case_match; by rewrite ?app_nil_r. Qed.

Lemma addStrings_loop_adds e p n : forall start end_ st old,
  Z.to_nat (end_ - start) = n ->
  CnE.expansions st = Some e -> CnE.heap st !! e = Some old ->
  exists new,
    CnE.addStrings_loop n start end_ p (length p) st
      = Some (CnE.set_heap (<[e := new]> (CnE.heap st)) st) /\
    forall s, s ∈ new <->
      s ∈ old \/
      exists c, start <= c <= Z.max start end_ /\
        s = append_cp p c ++ default [] (CnE.suffix st).
Proof.
  induction n as [|n IH]; intros start end_ st old Hn He Hold; simpl;
    unfold CnE.update_set; rewrite He; simpl; rewrite Hold; simpl.
  - replace (start + 1 <=? end_) with false by lia.
    eexists. split; [done|]. intros s. unfold set_add_str.
    rewrite elem_of_union, elem_of_singleton.
    replace (Z.max start end_) with start by lia. split.
    + intros [->|?]; [|by left]. right. exists start. split; [lia|].
      by destruct (CnE.suffix st); rewrite ?app_nil_r.
    + intros [?|(c & Hc & ->)]; [by right|]. left.
      assert (c = start) as -> by lia.
      by destruct (CnE.suffix st); rewrite ?app_nil_r.
  - replace (start + 1 <=? end_) with true by lia.
    set (str := match CnE.suffix st with
                | Some sfx => append_cp p start ++ sfx
                | None => append_cp p start
                end).
    assert (take (length p) str = p) as ->.
    { subst str. rewrite append_cp_app.
      destruct (CnE.suffix st); rewrite <- ?app_assoc; by rewrite take_app_length. }
    edestruct (IH (start + 1) end_
                 (CnE.set_heap (<[e := set_add_str str old]> (CnE.heap st)) st))
      as (new & Hnew & Hin); [lia|done|by simpl; rewrite lookup_insert_eq|].
    exists new. split.
    { rewrite Hnew. simpl. by rewrite insert_insert_eq. }
    intros s. rewrite Hin. simpl. unfold set_add_str.
    rewrite elem_of_union, elem_of_singleton.
    replace (Z.max (start + 1) end_) with end_ by lia.
    replace (Z.max start end_) with end_ by lia. split.
    + intros [[->|?]|(c & Hc & ->)]; [|by left|].
      * right. exists start. split; [lia|]. subst str.
        by destruct (CnE.suffix st); rewrite ?app_nil_r.
      * right. exists c. split; [lia|done].
    + intros [?|(c & Hc & ->)]; [by left; right|].
      destruct (decide (c = start)) as [->|].
      * left. left. subst str. by destruct (CnE.suffix st); rewrite ?app_nil_r.
      * right. exists c. split; [lia|done].
Qed.

Lemma addStrings_adds_gen start end_ set st e old :
  set <> None ->
  CnE.expansions st = Some e -> CnE.heap st !! e = Some old ->
  exists new,
    CnE.addStrings start end_ set st
      = Some (CnE.set_heap (<[e := new]> (CnE.heap st)) st) /\
    forall s, s ∈ new <->
      s ∈ old \/
      exists c, start <= c <= Z.max start end_ /\
        s = append_cp (default [] (CnE.prefix st)) c
            ++ default [] (CnE.suffix st).
Proof.
  intros Hset He Hold. unfold CnE.addStrings.
  destruct set as [l|]; [|done].
  destruct (CnE.prefix st) as [p|]; simpl.
  - by apply addStrings_loop_adds.
  - by apply (addStrings_loop_adds e []).
Qed.

Section Walk.
Context (C : Collation).

Lemma handlePrefixes_loop_keeps rec start end_ prefixes :
  (forall s e v st st', rec s e v st = Some st' -> walk_keeps st st') ->
  forall st st',
    CnE.handlePrefixes_loop rec start end_ prefixes st = Some st' ->
    walk_keeps st st'.
Proof.
  intros Hrec. induction prefixes as [|[str value] prefixes IH]; intros st st' H;
    simpl in H; destruct (U_FAILURE (CnE.errorCode st));
    simplify_eq; try apply walk_keeps_refl.
  apply bind_Some in H as (st1 & H1 & H).
  apply bind_Some in H as (st2 & H2 & H).
  apply bind_Some in H as (st3 & H3 & H).
  apply addStrings_keeps in H1, H2. apply Hrec in H3. apply IH in H.
  eauto using walk_keeps_trans, set_prefix_keeps.
Qed.

Lemma handlePrefixes_keeps rec start end_ ce32 st st' :
  (forall s e v st st', rec s e v st = Some st' -> walk_keeps st st') ->
  CnE.handlePrefixes C rec start end_ ce32 st = Some st' -> walk_keeps st st'.
Proof.
  unfold CnE.handlePrefixes. intros Hrec H.
  apply bind_Some in H as (ce & _ & H).
  apply bind_Some in H as (st1 & H1 & H). apply Hrec in H1.
  destruct (negb _); [by simplify_eq|].
  apply bind_Some in H as (st2 & H2 & H). simplify_eq.
  apply handlePrefixes_loop_keeps in H2; [|done].
  eauto using walk_keeps_trans, set_prefix_keeps.
Qed.

Lemma handleContractions_loop_keeps rec start end_ suffixes :
  (forall s e v st st', rec s e v st = Some st' -> walk_keeps st st') ->
  forall st st',
    CnE.handleContractions_loop rec start end_ suffixes st = Some st' ->
    walk_keeps st st'.
Proof.
  intros Hrec. induction suffixes as [|[str value] suffixes IH]; intros st st' H;
    simpl in H; destruct (U_FAILURE (CnE.errorCode st));
    simplify_eq; try apply walk_keeps_refl.
  apply bind_Some in H as (st1 & H1 & H).
  apply bind_Some in H as (st2 & H2 & H).
  apply bind_Some in H as (st3 & H3 & H).
  apply addStrings_keeps in H1. apply Hrec in H3. apply IH in H.
  assert (walk_keeps st1 st2)
    by (destruct (CnE.prefix st1);
        [by eapply addStrings_keeps|simplify_eq; apply walk_keeps_refl]).
  eauto using walk_keeps_trans, set_suffix_keeps.
Qed.

Lemma handleContractions_keeps rec start end_ ce32 st st' :
  (forall s e v st st', rec s e v st = Some st' -> walk_keeps st st') ->
  CnE.handleContractions C rec start end_ ce32 st = Some st' -> walk_keeps st st'.
Proof.
  unfold CnE.handleContractions. intros Hrec H.
  apply bind_Some in H as (ce & _ & H).
  apply bind_Some in H as (st1 & H1 & H).
  apply bind_Some in H as (st2 & H2 & H). simplify_eq.
  apply handleContractions_loop_keeps in H2; [|done].
  assert (walk_keeps st st1)
    by (destruct (isContractionCE32 C ce);
        [simplify_eq; apply walk_keeps_refl|by eapply Hrec]).
  eauto using walk_keeps_trans, set_suffix_keeps.
Qed.

Lemma set_errorCode_keeps st :
  walk_keeps st
    (if U_SUCCESS (CnE.errorCode st)
     then CnE.set_errorCode U_INTERNAL_PROGRAM_ERROR st else st).
Proof.
  destruct (U_SUCCESS (CnE.errorCode st)) eqn:E; [|apply walk_keeps_refl].
  unfold walk_keeps. simpl. repeat split; eauto.
Qed.

#[local] Arguments CnE.handlePrefixes : simpl never.
#[local] Arguments CnE.handleContractions : simpl never.
#[local] Arguments CnE.addExpansions : simpl never.

(** The walk from [handleCE32] down writes through [expansions] only, only
    adds, and only ever replaces a success status, by
    [U_INTERNAL_PROGRAM_ERROR]. *)
Lemma handleCE32_keeps fuel : forall start end_ ce32 st st',
  CnE.handleCE32 C fuel start end_ ce32 st = Some st' -> walk_keeps st st'.
Proof.
  induction fuel as [|fuel IH]; intros start end_ ce32 st st' H; [done|].
  simpl in H.
  repeat (case_match; simplify_option_eq);
    eauto using walk_keeps_refl, addExpansions_keeps, handlePrefixes_keeps,
      handleContractions_keeps.
  match goal with
  | Hs : U_SUCCESS (CnE.errorCode st) = true |- _ =>
      pose proof (set_errorCode_keeps st) as Hk; by rewrite Hs in Hk
  end.
Qed.

(** ** The enumeration *)

Lemma handle_keeps fuel ce32 o r o' :
  CnE.handle C fuel ce32 o r = Some o' ->
  walk_keeps (CnE.walk o) (CnE.walk o') /\ CnE.tailored o' = CnE.tailored o.
Proof.
  unfold CnE.handle. intros H. apply bind_Some in H as (w & Hw & H).
  simplify_eq. split; [by eapply handleCE32_keeps|done].
Qed.

Lemma handleRanges_keeps fuel ce32 rs : forall o o',
  CnE.handleRanges C fuel ce32 rs o = Some o' ->
  walk_keeps (CnE.walk o) (CnE.walk o') /\ CnE.tailored o' = CnE.tailored o.
Proof.
  induction rs as [|r rs IH]; intros o o' H; simpl in H.
  - simplify_eq. split; [apply walk_keeps_refl|done].
  - apply bind_Some in H as (o1 & H1 & H).
    apply handle_keeps in H1 as [Hk Ht]. apply IH in H as [Hk' Ht'].
    split; [by eapply walk_keeps_trans|congruence].
Qed.

Lemma enumCnERange_keeps fuel o start end_ ce32 go_on o' :
  CnE.enumCnERange C fuel o start end_ ce32 = Some (go_on, o') ->
  walk_keeps (CnE.walk o) (CnE.walk o') /\ CnE.tailored o ⊆ CnE.tailored o'.
Proof.
  unfold CnE.enumCnERange, CnE.tailored_add. intros H.
  repeat (case_match; simplify_option_eq);
    repeat match goal with
    | H : CnE.handle _ _ _ _ _ = Some _ |- _ => apply handle_keeps in H as [? ?]
    | H : CnE.handleRanges _ _ _ _ _ = Some _ |- _ =>
        apply handleRanges_keeps in H as [? ?]
    end; simpl in *;
    (split; [done || apply walk_keeps_refl|]);
    try match goal with H : CnE.tailored _ = _ |- _ => rewrite H end;
    try done.
  unfold set_add_range. apply union_subseteq_r.
Qed.

Lemma utrie2_enum_keeps fuel trieRanges : forall o o',
  CnE.utrie2_enum C fuel trieRanges o = Some o' ->
  walk_keeps (CnE.walk o) (CnE.walk o') /\ CnE.tailored o ⊆ CnE.tailored o'.
Proof.
  induction trieRanges as [|[[start end_] ce32] trieRanges IH]; intros o o' H;
    simpl in H.
  - simplify_eq. split; [apply walk_keeps_refl|done].
  - apply bind_Some in H as ([go_on o1] & H1 & H).
    apply enumCnERange_keeps in H1 as [Hk Ht].
    destruct go_on; simplify_eq; [|done].
    apply IH in H as [Hk' Ht'].
    split; [by eapply walk_keeps_trans|by etrans].
Qed.

(** What [forData] keeps, both passes taken together. *)
Lemma forData_keeps fuel d ec o o' ec' :
  CnE.forData C fuel d ec o = Some (o', ec') ->
  CnE.contractions (CnE.walk o') = CnE.contractions (CnE.walk o) /\
  CnE.expansions (CnE.walk o') = CnE.expansions (CnE.walk o) /\
  CnE.addPrefixes (CnE.walk o') = CnE.addPrefixes (CnE.walk o) /\
  (forall l, CnE.expansions (CnE.walk o) <> Some l ->
     CnE.heap (CnE.walk o') !! l = CnE.heap (CnE.walk o) !! l) /\
  (forall l s, CnE.heap (CnE.walk o) !! l = Some s ->
     exists s', CnE.heap (CnE.walk o') !! l = Some s' /\ s ⊆ s') /\
  CnE.tailored o ⊆ CnE.tailored o' /\
  (ec' = ec \/ (U_FAILURE ec = false /\ ec' = U_INTERNAL_PROGRAM_ERROR)).
Proof.
  unfold CnE.forData. intros H.
  destruct (U_FAILURE ec) eqn:Hec.
  { simplify_eq. repeat split; eauto. }
  apply bind_Some in H as (o1 & H1 & H).
  apply utrie2_enum_keeps in H1 as [(_ & Hc & He & Ha & Ho & Hg & Hs) Ht].
  assert (CnE.errorCode (CnE.walk o1) = ec \/
          CnE.errorCode (CnE.walk o1) = U_INTERNAL_PROGRAM_ERROR) as Hs1.
  { destruct (base d); simpl in Hs; destruct Hs as [?|[_ ?]]; auto. }
  assert (CnE.tailored o ⊆ CnE.tailored o1) as Ht1 by (by destruct (base d)).
  assert (CnE.contractions (CnE.walk o1) = CnE.contractions (CnE.walk o) /\
          CnE.expansions (CnE.walk o1) = CnE.expansions (CnE.walk o) /\
          CnE.addPrefixes (CnE.walk o1) = CnE.addPrefixes (CnE.walk o) /\
          (forall l, CnE.expansions (CnE.walk o) <> Some l ->
             CnE.heap (CnE.walk o1) !! l = CnE.heap (CnE.walk o) !! l) /\
          (forall l s, CnE.heap (CnE.walk o) !! l = Some s ->
             exists s', CnE.heap (CnE.walk o1) !! l = Some s' /\ s ⊆ s'))
    as (Hc1 & He1 & Ha1 & Ho1 & Hg1)
    by (destruct (base d); simpl in *; repeat split; eauto).
  clear Hc He Ha Ho Hg Hs Ht.
  match goal with
  | |- ?G =>
      assert (Some (o1, CnE.errorCode (CnE.walk o1)) = Some (o', ec') -> G)
        as Hdone
  end.
  { intros ?. simplify_eq. repeat (split; [done|]).
    destruct Hs1 as [?|?]; [by left|by right]. }
  destruct (base d) as [b|]; [|by apply Hdone].
  destruct (U_FAILURE (CnE.errorCode (CnE.walk o1))) eqn:Hf;
    [by apply Hdone|].
  clear Hdone.
  apply bind_Some in H as (o2 & H2 & H). simplify_eq.
  apply utrie2_enum_keeps in H2 as [(_ & Hc & He & Ha & Ho & Hg & Hs) Ht].
  simpl in *.
  split; [congruence|]. split; [congruence|]. split; [congruence|].
  split; [|split; [|split]].
  - intros l Hl. rewrite Ho by congruence. by apply Ho1.
  - intros l s Hl. apply Hg1 in Hl as (s1 & Hl & Hsub).
    apply Hg in Hl as (s2 & Hl & Hsub'). exists s2. split; [done|]. by etrans.
  - by etrans.
  - destruct Hs as [Hs|[_ Hs]]; [|by right].
    rewrite Hs. destruct Hs1 as [?|?]; [by left|by right].
Qed.

(** ** The context strings *)

Lemma update_set_context p f st st' :
  CnE.update_set p f st = Some st' ->
  CnE.prefix st' = CnE.prefix st /\ CnE.suffix st' = CnE.suffix st.
Proof.
  unfold CnE.update_set. intros H.
  apply bind_Some in H as (l & Hl & H).
  apply bind_Some in H as (s & Hs & H). by simplify_eq.
Qed.

Lemma addStrings_loop_context n : forall start end_ s pl st st',
  CnE.addStrings_loop n start end_ s pl st = Some st' ->
  CnE.prefix st' = CnE.prefix st /\ CnE.suffix st' = CnE.suffix st.
Proof.
  induction n as [|n IH]; intros start end_ s pl st st' H; simpl in H;
    apply bind_Some in H as (st1 & Hu & H);
    apply update_set_context in Hu as [Hp Hs];
    destruct (start + 1 <=? end_); simplify_eq; try done.
  apply IH in H as [? ?]. split; congruence.
Qed.

Lemma addStrings_context start end_ set st st' :
  CnE.addStrings start end_ set st = Some st' ->
  CnE.prefix st' = CnE.prefix st /\ CnE.suffix st' = CnE.suffix st.
Proof.
  unfold CnE.addStrings. intros H. destruct set; [|by simplify_eq].
  destruct (CnE.prefix st) eqn:Ep; rewrite <- Ep;
    by eapply addStrings_loop_context.
Qed.

Lemma addExpansions_context start end_ st st' :
  CnE.addExpansions start end_ st = Some st' ->
  CnE.prefix st' = CnE.prefix st /\ CnE.suffix st' = CnE.suffix st.
Proof.
  unfold CnE.addExpansions. intros H.
  destruct (CnE.prefix st) eqn:Ep, (CnE.suffix st) eqn:Es;
    try (apply addStrings_context in H; congruence).
  destruct (CnE.expansions st); [|by simplify_eq].
  apply update_set_context in H. congruence.
Qed.

(** A walk that starts without a prefix ends without one, and likewise for
    the suffix. *)
Lemma handlePrefixes_loop_context rec start end_ prefixes :
  (forall s e v st st', rec s e v st = Some st' ->
     (CnE.prefix st = None -> CnE.prefix st' = None) /\
     (CnE.suffix st = None -> CnE.suffix st' = None)) ->
  forall st st',
    CnE.handlePrefixes_loop rec start end_ prefixes st = Some st' ->
    CnE.suffix st = None -> CnE.suffix st' = None.
Proof.
  intros Hrec. induction prefixes as [|[str value] prefixes IH]; intros st st' H Hs;
    simpl in H; destruct (U_FAILURE (CnE.errorCode st));
    simplify_eq; try done.
  apply bind_Some in H as (st1 & H1 & H).
  apply bind_Some in H as (st2 & H2 & H).
  apply bind_Some in H as (st3 & H3 & H).
  apply addStrings_context in H1 as [_ H1], H2 as [_ H2].
  apply (IH st3); [done|]. eapply Hrec; [done|]. simpl in H1. congruence.
Qed.

Lemma handlePrefixes_context rec start end_ ce32 st st' :
  (forall s e v st st', rec s e v st = Some st' ->
     (CnE.prefix st = None -> CnE.prefix st' = None) /\
     (CnE.suffix st = None -> CnE.suffix st' = None)) ->
  CnE.handlePrefixes C rec start end_ ce32 st = Some st' ->
  (CnE.prefix st = None -> CnE.prefix st' = None) /\
  (CnE.suffix st = None -> CnE.suffix st' = None).
Proof.
  intros Hrec H. unfold CnE.handlePrefixes in H.
  apply bind_Some in H as (ce & _ & H).
  apply bind_Some in H as (st1 & H1 & H).
  destruct (negb _); [simplify_eq; by eapply Hrec|].
  apply bind_Some in H as (st2 & H2 & H). simplify_eq. simpl.
  split; [done|]. intros Hs.
  eapply handlePrefixes_loop_context; [exact Hrec|done|].
  by eapply Hrec.
Qed.

Lemma handleContractions_loop_context rec start end_ suffixes :
  (forall s e v st st', rec s e v st = Some st' ->
     (CnE.prefix st = None -> CnE.prefix st' = None) /\
     (CnE.suffix st = None -> CnE.suffix st' = None)) ->
  forall st st',
    CnE.handleContractions_loop rec start end_ suffixes st = Some st' ->
    CnE.prefix st = None -> CnE.prefix st' = None.
Proof.
  intros Hrec. induction suffixes as [|[str value] suffixes IH]; intros st st' H Hp;
    simpl in H; destruct (U_FAILURE (CnE.errorCode st));
    simplify_eq; try done.
  apply bind_Some in H as (st1 & H1 & H).
  apply bind_Some in H as (st2 & H2 & H).
  apply bind_Some in H as (st3 & H3 & H).
  apply addStrings_context in H1 as [H1 _]. simpl in H1.
  rewrite H1, Hp in H2. simplify_eq.
  apply (IH st3); [done|]. eapply Hrec; [done|]. congruence.
Qed.

Lemma handleContractions_context rec start end_ ce32 st st' :
  (forall s e v st st', rec s e v st = Some st' ->
     (CnE.prefix st = None -> CnE.prefix st' = None) /\
     (CnE.suffix st = None -> CnE.suffix st' = None)) ->
  CnE.handleContractions C rec start end_ ce32 st = Some st' ->
  (CnE.prefix st = None -> CnE.prefix st' = None) /\
  (CnE.suffix st = None -> CnE.suffix st' = None).
Proof.
  intros Hrec H. unfold CnE.handleContractions in H.
  apply bind_Some in H as (ce & _ & H).
  apply bind_Some in H as (st1 & H1 & H).
  apply bind_Some in H as (st2 & H2 & H). simplify_eq. simpl.
  split; [|done]. intros Hp.
  eapply handleContractions_loop_context; [exact Hrec|done|].
  destruct (isContractionCE32 C ce); [by simplify_eq|by eapply Hrec].
Qed.

Lemma handleCE32_context fuel : forall start end_ ce32 st st',
  CnE.handleCE32 C fuel start end_ ce32 st = Some st' ->
  (CnE.prefix st = None -> CnE.prefix st' = None) /\
  (CnE.suffix st = None -> CnE.suffix st' = None).
Proof.
  induction fuel as [|fuel IH]; intros start end_ ce32 st st' H; [done|].
  simpl in H.
  repeat (case_match; simplify_option_eq);
    eauto using handlePrefixes_context, handleContractions_context.
  - done.
  - match goal with
    | H : CnE.addExpansions _ _ _ = Some _ |- _ =>
        apply addExpansions_context in H as [Hp Hs]
    end.
    split; congruence.
Qed.

(** What a call [addStrings(start, end, set)] with a set leaves in the set
    that [expansions] points to. *)
Lemma addStrings_elem start end_ set st st' e c :
  CnE.addStrings start end_ set st = Some st' ->
  set <> None -> CnE.expansions st = Some e ->
  start <= c <= Z.max start end_ ->
  exists s, CnE.heap st' !! e = Some s /\
    append_cp (default [] (CnE.prefix st)) c ++ default [] (CnE.suffix st) ∈ s.
Proof.
  intros H Hset He Hc.
  assert (exists old, CnE.heap st !! e = Some old) as [old Hold].
  { unfold CnE.addStrings in H. destruct set; [|done].
    destruct (CnE.prefix st); destruct (Z.to_nat (end_ - start));
      simpl in H; unfold CnE.update_set in H; rewrite He in H; simpl in H;
      destruct (CnE.heap st !! e); eauto; done. }
  destruct (addStrings_adds_gen start end_ set st e old Hset He Hold)
    as (new & Hnew & Hin).
  rewrite Hnew in H. simplify_eq. exists new. simpl.
  rewrite lookup_insert_eq. split; [done|]. apply Hin. eauto.
Qed.

(** The loop over the suffixes, on an object without a prefix whose
    [contractions] is not [NULL]: when it ends without a failure, the set
    that [expansions] points to holds c + suffix for every suffix of the
    list and every code point of the range. *)
Lemma handleContractions_loop_collects fuel start end_ e c suffixes :
  start <= c <= Z.max start end_ ->
  forall st st',
    CnE.handleContractions_loop (CnE.handleCE32 C fuel) start end_ suffixes st
      = Some st' ->
    U_FAILURE (CnE.errorCode st') = false ->
    CnE.contractions st <> None -> CnE.expansions st = Some e ->
    CnE.prefix st = None ->
    forall str v, (str, v) ∈ suffixes ->
      exists s, CnE.heap st' !! e = Some s /\ append_cp [] c ++ str ∈ s.
Proof.
  intros Hc. induction suffixes as [|[str0 v0] suffixes IH];
    intros st st' H Hok Hcon He Hp str v Hin; [by apply elem_of_nil in Hin|].
  pose proof H as Hloop. simpl in H.
  destruct (U_FAILURE (CnE.errorCode st)) eqn:Hf; [simplify_eq; congruence|].
  apply bind_Some in H as (st1 & H1 & H).
  apply bind_Some in H as (st2 & H2 & H).
  apply bind_Some in H as (st3 & H3 & H).
  pose proof (addStrings_context _ _ _ _ _ H1) as [Hp1 _]. simpl in Hp1.
  rewrite Hp1, Hp in H2. simplify_eq.
  pose proof (addStrings_keeps _ _ _ _ _ H1) as (_ & Hc1 & He1 & _).
  simpl in Hc1, He1.
  pose proof (handleCE32_keeps _ _ _ _ _ _ H3) as K3.
  pose proof (handleContractions_loop_keeps _ _ _ _ (handleCE32_keeps fuel)
                _ _ H) as K.
  apply elem_of_cons in Hin as [[= -> ->]|Hin].
  - eapply addStrings_elem in H1 as (s1 & Hs1 & Hin1); [|done..].
    simpl in Hin1. rewrite Hp in Hin1. simpl in Hin1.
    destruct K3 as (_ & _ & _ & _ & _ & Hg3 & _).
    apply Hg3 in Hs1 as (s3 & Hs3 & Hsub3).
    destruct K as (_ & _ & _ & _ & _ & Hg & _).
    apply Hg in Hs3 as (s' & Hs' & Hsub). exists s'. split; [done|].
    by apply Hsub, Hsub3.
  - destruct K3 as (_ & Hc3 & He3 & _).
    apply (IH st3 st') with (v := v); try done; try congruence.
    apply handleCE32_context in H3 as [H3 _]. apply H3. congruence.
Qed.

Lemma handlePrefixes_loop_collects fuel start end_ e c prefixes :
  start <= c <= Z.max start end_ ->
  forall st st',
    CnE.handlePrefixes_loop (CnE.handleCE32 C fuel) start end_ prefixes st
      = Some st' ->
    U_FAILURE (CnE.errorCode st') = false ->
    CnE.expansions st = Some e -> CnE.suffix st = None ->
    forall str v, (str, v) ∈ prefixes ->
      exists s, CnE.heap st' !! e = Some s /\ append_cp str c ∈ s.
Proof.
  intros Hc. induction prefixes as [|[str0 v0] prefixes IH];
    intros st st' H Hok He Hs str v Hin; [by apply elem_of_nil in Hin|].
  simpl in H.
  destruct (U_FAILURE (CnE.errorCode st)) eqn:Hf; [simplify_eq; congruence|].
  apply bind_Some in H as (st1 & H1 & H).
  apply bind_Some in H as (st2 & H2 & H).
  apply bind_Some in H as (st3 & H3 & H).
  pose proof (addStrings_context _ _ _ _ _ H1) as [Hp1 Hs1].
  pose proof (addStrings_context _ _ _ _ _ H2) as [Hp2 Hs2].
  simpl in Hp1, Hs1.
  pose proof (addStrings_keeps _ _ _ _ _ H1) as (_ & _ & He1 & _).
  pose proof (addStrings_keeps _ _ _ _ _ H2) as (_ & _ & He2 & _).
  simpl in He1.
  pose proof (handleCE32_keeps _ _ _ _ _ _ H3) as K3.
  pose proof (handlePrefixes_loop_keeps _ _ _ _ (handleCE32_keeps fuel)
                _ _ H) as K.
  apply elem_of_cons in Hin as [[= -> ->]|Hin].
  - eapply (addStrings_elem _ _ _ _ _ e c) in H2 as (s2 & Hs2' & Hin2);
      [|congruence..|done].
    rewrite Hp1, Hs1, Hs in Hin2. simpl in Hin2. rewrite app_nil_r in Hin2.
    destruct K3 as (_ & _ & _ & _ & _ & Hg3 & _).
    apply Hg3 in Hs2' as (s3 & Hs3 & Hsub3).
    destruct K as (_ & _ & _ & _ & _ & Hg & _).
    apply Hg in Hs3 as (s' & Hs' & Hsub). exists s'. split; [done|].
    by apply Hsub, Hsub3.
  - destruct K3 as (_ & _ & He3 & _).
    apply (IH st3 st') with (v := v); try done; try congruence.
    apply handleCE32_context in H3 as [_ H3]. apply H3. congruence.
Qed.

(** ** The two passes *)

Lemma walk_keeps_status w w' :
  walk_keeps w w' -> U_FAILURE (CnE.errorCode w') = false ->
  CnE.errorCode w' = CnE.errorCode w.
Proof.
  intros (_ & _ & _ & _ & _ & _ & [Hs|[_ Hs]]) Hf; [done|].
  by rewrite Hs in Hf.
Qed.

Lemma set_add_range_elem start end_ t c :
  pinCodePoint start <= c <= pinCodePoint end_ ->
  append_cp [] c ∈ set_add_range start end_ t.
Proof.
  intros Hc. unfold set_add_range. apply elem_of_union. left.
  apply elem_of_list_to_set, list_elem_of_In, in_map_iff.
  exists (Z.to_nat (c - pinCodePoint start)). split.
  - f_equal. lia.
  - apply in_seq. lia.
Qed.

Lemma enumCnERange_checkTailored fuel o start end_ ce32 go_on o' :
  CnE.enumCnERange C fuel o start end_ ce32 = Some (go_on, o') ->
  CnE.checkTailored o' = CnE.checkTailored o.
Proof.
  assert (forall ce o r o', CnE.handle C fuel ce o r = Some o' ->
            CnE.checkTailored o' = CnE.checkTailored o) as Hh.
  { intros ce o0 r o0' H. unfold CnE.handle in H.
    apply bind_Some in H as (w & _ & H). by simplify_eq. }
  assert (forall ce rs o o', CnE.handleRanges C fuel ce rs o = Some o' ->
            CnE.checkTailored o' = CnE.checkTailored o) as Hr.
  { intros ce rs. induction rs as [|r rs IH]; intros o0 o0' H; simpl in H;
      [by simplify_eq|].
    apply bind_Some in H as (o1 & H1 & H). apply Hh in H1. apply IH in H.
    congruence. }
  unfold CnE.enumCnERange, CnE.tailored_add. intros H.
  repeat (case_match; simplify_option_eq);
    repeat match goal with
    | H : CnE.handle _ _ _ _ _ = Some _ |- _ => apply Hh in H
    | H : CnE.handleRanges _ _ _ _ _ = Some _ |- _ => apply Hr in H
    end; simpl in *; congruence.
Qed.

Lemma enumCnERange_frozen fuel o start end_ ce32 go_on o' :
  CnE.enumCnERange C fuel o start end_ ce32 = Some (go_on, o') ->
  CnE.tailored_frozen o' = CnE.tailored_frozen o.
Proof.
  assert (forall ce o r o', CnE.handle C fuel ce o r = Some o' ->
            CnE.tailored_frozen o' = CnE.tailored_frozen o) as Hh.
  { intros ce o0 r o0' H. unfold CnE.handle in H.
    apply bind_Some in H as (w & _ & H). by simplify_eq. }
  assert (forall ce rs o o', CnE.handleRanges C fuel ce rs o = Some o' ->
            CnE.tailored_frozen o' = CnE.tailored_frozen o) as Hr.
  { intros ce rs. induction rs as [|r rs IH]; intros o0 o0' H; simpl in H;
      [by simplify_eq|].
    apply bind_Some in H as (o1 & H1 & H). apply Hh in H1. apply IH in H.
    congruence. }
  unfold CnE.enumCnERange, CnE.tailored_add. intros H.
  repeat (case_match; simplify_option_eq);
    repeat match goal with
    | H : CnE.handle _ _ _ _ _ = Some _ |- _ => apply Hh in H
    | H : CnE.handleRanges _ _ _ _ _ = Some _ |- _ => apply Hr in H
    end; simpl in *; congruence.
Qed.

(** The pass over a tailoring, with [tailored] not frozen: when it ends
    with a status that is no failure, it has gone through the whole trie,
    and [tailored] holds the code points of every range whose CE32 is not
    the fallback value. *)
Lemma utrie2_enum_collects fuel trieRanges : forall o o',
  CnE.utrie2_enum C fuel trieRanges o = Some o' ->
  CnE.checkTailored o < 0 ->
  CnE.tailored_frozen o = false ->
  U_FAILURE (CnE.errorCode (CnE.walk o')) = false ->
  forall start end_ ce32 c,
    (start, end_, ce32) ∈ trieRanges -> ce32 <> MIN_SPECIAL_CE32 C ->
    pinCodePoint start <= c <= pinCodePoint end_ ->
    append_cp [] c ∈ CnE.tailored o'.
Proof.
  induction trieRanges as [|[[s e] v] trieRanges IH]; intros o o' H Hct Hfz Hok
    start end_ ce32 c Hin Hne Hc; [by apply elem_of_nil in Hin|].
  simpl in H. apply bind_Some in H as ([go_on o1] & H1 & H).
  pose proof (enumCnERange_checkTailored _ _ _ _ _ _ _ H1) as Hct1.
  pose proof (enumCnERange_frozen _ _ _ _ _ _ _ H1) as Hfz1.
  assert (go_on = true) as ->.
  { destruct go_on; [done|]. simplify_eq.
    unfold CnE.enumCnERange in H1.
    repeat (case_match; simplify_option_eq); try lia;
      unfold U_FAILURE, U_SUCCESS in *; lia. }
  apply elem_of_cons in Hin as [[= -> -> ->]|Hin].
  - assert (append_cp [] c ∈ CnE.tailored o1) as Hin1.
    { unfold CnE.enumCnERange in H1.
      destruct (Z.eqb_spec (CnE.checkTailored o) 0); [lia|].
      destruct (Z.ltb_spec (CnE.checkTailored o) 0); [|lia].
      destruct (Z.eqb_spec v (MIN_SPECIAL_CE32 C)); [done|].
      apply bind_Some in H1 as (o2 & H2 & H1). simplify_eq.
      apply handle_keeps in H2 as [_ ->].
      unfold CnE.tailored_add. rewrite Hfz. simpl.
      by apply set_add_range_elem. }
    apply utrie2_enum_keeps in H as [_ Ht]. by apply Ht.
  - eapply (IH o1 o'); eauto; lia || congruence.
Qed.

(** A frozen [tailored] comes out of a pass as it went in, and no pass
    unfreezes it. *)
Lemma utrie2_enum_frozen fuel trieRanges : forall o o',
  CnE.utrie2_enum C fuel trieRanges o = Some o' ->
  CnE.tailored_frozen o' = CnE.tailored_frozen o /\
  (CnE.tailored_frozen o = true -> CnE.tailored o' = CnE.tailored o).
Proof.
  induction trieRanges as [|[[s e] v] trieRanges IH]; intros o o' H;
    simpl in H; [by simplify_eq|].
  apply bind_Some in H as ([go_on o1] & H1 & H).
  pose proof (enumCnERange_frozen _ _ _ _ _ _ _ H1) as Hfz1.
  assert (CnE.tailored_frozen o = true -> CnE.tailored o1 = CnE.tailored o)
    as Ht1.
  { intros Hfz. unfold CnE.enumCnERange, CnE.tailored_add in H1.
    rewrite Hfz in H1.
    repeat (case_match; simplify_option_eq);
      repeat match goal with
      | H : CnE.handle _ _ _ _ _ = Some _ |- _ =>
          apply handle_keeps in H as [_ ?]
      | H : CnE.handleRanges _ _ _ _ _ = Some _ |- _ =>
          apply handleRanges_keeps in H as [_ ?]
      end; simpl in *; congruence. }
  destruct go_on; simplify_eq; [|done].
  apply IH in H as [Hfz Ht]. split; [congruence|].
  intros Hf. rewrite Ht by congruence. by apply Ht1.
Qed.

End Walk.

(** X6.  [ContractionsAndExpansions::forData] writes through [expansions]
    only: the two set pointers are as before, and every set that
    [expansions] does not point to, the one that [contractions] points to
    among them, comes out as it went in. *)
Theorem forData_writes_expansions_only C fuel d ec o o' ec' :
  CnE.forData C fuel d ec o = Some (o', ec') ->
  CnE.contractions (CnE.walk o') = CnE.contractions (CnE.walk o) /\
  CnE.expansions (CnE.walk o') = CnE.expansions (CnE.walk o) /\
  forall l, CnE.expansions (CnE.walk o) <> Some l ->
    CnE.heap (CnE.walk o') !! l = CnE.heap (CnE.walk o) !! l.
Proof.
  intros H. apply forData_keeps in H as (Hc & He & _ & Ho & _). auto.
Qed.

Lemma forData_writes_expansions_only_witness :
  exists o' ec',
    CnE.forData Samples.collation 3 Samples.tailoring U_ZERO_ERROR
      Samples.cneObject = Some (o', ec') /\
    CnE.contractions (CnE.walk o') = CnE.contractions (CnE.walk Samples.cneObject) /\
    CnE.expansions (CnE.walk o') = CnE.expansions (CnE.walk Samples.cneObject) /\
    forall l, CnE.expansions (CnE.walk Samples.cneObject) <> Some l ->
      CnE.heap (CnE.walk o') !! l = CnE.heap (CnE.walk Samples.cneObject) !! l.
Proof.
  set (r := default (Samples.cneObject, 0)
              (CnE.forData Samples.collation 3 Samples.tailoring U_ZERO_ERROR
                 Samples.cneObject)).
  assert (CnE.forData Samples.collation 3 Samples.tailoring U_ZERO_ERROR
            Samples.cneObject = Some (r.1, r.2)) as E
    by (vm_compute; reflexivity).
  exists r.1, r.2. split; [exact E|].
  exact (forData_writes_expansions_only Samples.collation 3 Samples.tailoring
           U_ZERO_ERROR Samples.cneObject _ _ E).
Defined.

(** X7.  [forData] only adds: every set holds afterwards what it held
    before, and so does the object's own set [tailored]. *)
Theorem forData_sets_only_grow C fuel d ec o o' ec' :
  CnE.forData C fuel d ec o = Some (o', ec') ->
  (forall l s, CnE.heap (CnE.walk o) !! l = Some s ->
     exists s', CnE.heap (CnE.walk o') !! l = Some s' /\ s ⊆ s') /\
  CnE.tailored o ⊆ CnE.tailored o'.
Proof.
  intros H. apply forData_keeps in H as (_ & _ & _ & _ & Hg & Ht & _). auto.
Qed.

Lemma forData_sets_only_grow_witness :
  exists o' ec',
    CnE.forData Samples.collation 3 Samples.tailoring U_ZERO_ERROR
      Samples.cneObject = Some (o', ec') /\
    (forall l s, CnE.heap (CnE.walk Samples.cneObject) !! l = Some s ->
       exists s', CnE.heap (CnE.walk o') !! l = Some s' /\ s ⊆ s') /\
    CnE.tailored Samples.cneObject ⊆ CnE.tailored o'.
Proof.
  set (r := default (Samples.cneObject, 0)
              (CnE.forData Samples.collation 3 Samples.tailoring U_ZERO_ERROR
                 Samples.cneObject)).
  assert (CnE.forData Samples.collation 3 Samples.tailoring U_ZERO_ERROR
            Samples.cneObject = Some (r.1, r.2)) as E
    by (vm_compute; reflexivity).
  exists r.1, r.2. split; [exact E|].
  exact (forData_sets_only_grow Samples.collation 3 Samples.tailoring
           U_ZERO_ERROR Samples.cneObject _ _ E).
Defined.

(** X8.  The status that [forData] hands back is the status it was given
    or, when that was no failure, [U_INTERNAL_PROGRAM_ERROR]. *)
Theorem forData_status C fuel d ec o o' ec' :
  CnE.forData C fuel d ec o = Some (o', ec') ->
  ec' = ec \/ (U_FAILURE ec = false /\ ec' = U_INTERNAL_PROGRAM_ERROR).
Proof.
  intros H. by apply forData_keeps in H as (_ & _ & _ & _ & _ & _ & Hs).
Qed.

Lemma forData_status_witness :
  exists o' ec',
    CnE.forData Samples.collation 3 Samples.tailoring U_ZERO_ERROR
      Samples.cneObject = Some (o', ec') /\
    (ec' = U_ZERO_ERROR \/
     (U_FAILURE U_ZERO_ERROR = false /\ ec' = U_INTERNAL_PROGRAM_ERROR)).
Proof.
  set (r := default (Samples.cneObject, 0)
              (CnE.forData Samples.collation 3 Samples.tailoring U_ZERO_ERROR
                 Samples.cneObject)).
  assert (CnE.forData Samples.collation 3 Samples.tailoring U_ZERO_ERROR
            Samples.cneObject = Some (r.1, r.2)) as E
    by (vm_compute; reflexivity).
  exists r.1, r.2. split; [exact E|].
  exact (forData_status Samples.collation 3 Samples.tailoring
           U_ZERO_ERROR Samples.cneObject _ _ E).
Defined.

(** X9.  Called with a set that is not [NULL], on an object whose
    [expansions] points to a set, [addStrings] returns, and it has added to
    the set that [expansions] points to the strings prefix + c + suffix for
    the code points c from [start] to [end], and for [start] alone when
    [end] is below it (the loop tests after its body); nothing else has
    changed. *)
Theorem addStrings_adds start end_ set st e old :
  set <> None ->
  CnE.expansions st = Some e -> CnE.heap st !! e = Some old ->
  exists new,
    CnE.addStrings start end_ set st
      = Some (CnE.set_heap (<[e := new]> (CnE.heap st)) st) /\
    forall s, s ∈ new <->
      s ∈ old \/
      exists c, start <= c <= Z.max start end_ /\
        s = append_cp (default [] (CnE.prefix st)) c
            ++ default [] (CnE.suffix st).
Proof. apply addStrings_adds_gen. Qed.

Lemma addStrings_adds_witness :
  CnE.contractions Samples.cne <> None /\
  CnE.expansions Samples.cne = Some 1%nat /\
  CnE.heap Samples.cne !! 1%nat = Some ∅ /\
  exists new,
    CnE.addStrings 0x61 0x63 (CnE.contractions Samples.cne) Samples.cne
      = Some (CnE.set_heap (<[1%nat := new]> (CnE.heap Samples.cne)) Samples.cne) /\
    forall s, s ∈ new <->
      s ∈ (∅ : gset (list Z)) \/
      exists c, 0x61 <= c <= Z.max 0x61 0x63 /\
        s = append_cp (default [] (CnE.prefix Samples.cne)) c
            ++ default [] (CnE.suffix Samples.cne).
Proof.
  assert (CnE.contractions Samples.cne <> None) as H1 by discriminate.
  assert (CnE.expansions Samples.cne = Some 1%nat) as H2 by reflexivity.
  assert (CnE.heap Samples.cne !! 1%nat = Some ∅) as H3 by reflexivity.
  split; [exact H1|]. split; [exact H2|]. split; [exact H3|].
  exact (addStrings_adds 0x61 0x63 (CnE.contractions Samples.cne) Samples.cne
           1%nat ∅ H1 H2 H3).
Defined.

(** X10.  [forData] and the object's set [tailored].  On an object whose
    [tailored] is frozen, [forData] leaves [tailored] as it is, frozen.  On
    an object whose [tailored] is not frozen, called with a tailoring (data
    with a base) and a status that is no failure: when [forData] hands back
    a status that is no failure, [tailored] is frozen and holds every code
    point of every range of the tailoring's trie whose CE32 is not
    [MIN_SPECIAL_CE32]. *)
Theorem forData_collects_tailored C fuel d ec o o' ec' :
  CnE.forData C fuel d ec o = Some (o', ec') ->
  (CnE.tailored_frozen o = true ->
   CnE.tailored o' = CnE.tailored o /\ CnE.tailored_frozen o' = true) /\
  (CnE.tailored_frozen o = false ->
   U_FAILURE ec = false -> base d <> None -> U_FAILURE ec' = false ->
   CnE.tailored_frozen o' = true /\
   forall start end_ ce32 c,
     (start, end_, ce32) ∈ trie d -> ce32 <> MIN_SPECIAL_CE32 C ->
     pinCodePoint start <= c <= pinCodePoint end_ ->
     append_cp [] c ∈ CnE.tailored o').
Proof.
  unfold CnE.forData. intros H. split.
  - intros Hfz. destruct (U_FAILURE ec); [by simplify_eq|].
    apply bind_Some in H as (o1 & H1 & H).
    apply utrie2_enum_frozen in H1 as [Hf1 Ht1].
    assert (CnE.tailored_frozen o1 = true /\ CnE.tailored o1 = CnE.tailored o)
      as [Hf1' Ht1'].
    { destruct (base d); simpl in Hf1, Ht1; split; try congruence;
        by apply Ht1. }
    destruct (base d) as [b|]; [|by simplify_eq].
    destruct (U_FAILURE (CnE.errorCode (CnE.walk o1))); [by simplify_eq|].
    apply bind_Some in H as (o2 & H2 & H). simplify_eq.
    apply utrie2_enum_frozen in H2 as [Hf2 Ht2]. simpl in Hf2, Ht2.
    split; [|done]. by rewrite Ht2.
  - intros Hfz Hec Hbase Hok. rewrite Hec in H.
    destruct (base d) as [b|]; [|done].
    apply bind_Some in H as (o1 & H1 & H).
    destruct (U_FAILURE (CnE.errorCode (CnE.walk o1))) eqn:Hf;
      [simplify_eq; congruence|].
    apply bind_Some in H as (o2 & H2 & H). simplify_eq.
    pose proof (utrie2_enum_frozen _ _ _ _ _ H2) as [Hf2 _].
    apply utrie2_enum_keeps in H2 as [_ Ht].
    split; [done|]. intros start end_ ce32 c Hin Hne Hc.
    apply Ht. simpl.
    eapply (utrie2_enum_collects C); eauto. simpl. lia.
Qed.

(** Two calls on one object: the first one collects the letters of the
    sample tailoring and freezes [tailored]; the second one, with a
    tailoring of U+0100, finds [tailored] frozen and leaves it as it is. *)
Lemma forData_collects_tailored_witness :
  exists o1 ec1 o2 ec2,
    CnE.forData Samples.collation 3 Samples.tailoring U_ZERO_ERROR
      Samples.cneObject = Some (o1, ec1) /\
    CnE.tailored_frozen Samples.cneObject = false /\
    U_FAILURE U_ZERO_ERROR = false /\ base Samples.tailoring <> None /\
    U_FAILURE ec1 = false /\
    CnE.tailored_frozen o1 = true /\
    (forall start end_ ce32 c,
       (start, end_, ce32) ∈ trie Samples.tailoring ->
       ce32 <> MIN_SPECIAL_CE32 Samples.collation ->
       pinCodePoint start <= c <= pinCodePoint end_ ->
       append_cp [] c ∈ CnE.tailored o1) /\
    CnE.forData Samples.collation 3 Samples.tailoring_0100 U_ZERO_ERROR o1
      = Some (o2, ec2) /\
    CnE.tailored o2 = CnE.tailored o1 /\ CnE.tailored_frozen o2 = true.
Proof.
  assert (CnE.tailored_frozen Samples.cneObject = false) as H0 by reflexivity.
  assert (U_FAILURE U_ZERO_ERROR = false) as H1 by reflexivity.
  assert (base Samples.tailoring <> None) as H2 by discriminate.
  set (r := default (Samples.cneObject, 0)
              (CnE.forData Samples.collation 3 Samples.tailoring U_ZERO_ERROR
                 Samples.cneObject)).
  assert (CnE.forData Samples.collation 3 Samples.tailoring U_ZERO_ERROR
            Samples.cneObject = Some (r.1, r.2)) as E
    by (vm_compute; reflexivity).
  assert (U_FAILURE r.2 = false) as H3 by (vm_compute; reflexivity).
  set (q := default (Samples.cneObject, 0)
              (CnE.forData Samples.collation 3 Samples.tailoring_0100
                 U_ZERO_ERROR r.1)).
  assert (CnE.forData Samples.collation 3 Samples.tailoring_0100 U_ZERO_ERROR
            r.1 = Some (q.1, q.2)) as F
    by (vm_compute; reflexivity).
  destruct (forData_collects_tailored Samples.collation 3 Samples.tailoring
              U_ZERO_ERROR Samples.cneObject _ _ E) as [_ HE].
  destruct (HE H0 H1 H2 H3) as [Hfz Hall].
  destruct (forData_collects_tailored Samples.collation 3
              Samples.tailoring_0100 U_ZERO_ERROR r.1 _ _ F) as [HF _].
  destruct (HF Hfz) as [Ht2 Hf2].
  exists r.1, r.2, q.1, q.2.
  split; [exact E|]. split; [exact H0|]. split; [exact H1|].
  split; [exact H2|]. split; [exact H3|]. split; [exact Hfz|].
  split; [exact Hall|]. split; [exact F|]. split; [exact Ht2|exact Hf2].
Defined.

Lemma runs_none keep n : forall c,
  (forall k, (k < n)%nat -> keep (c + Z.of_nat k) = false) -> runs keep n c = [].
Proof.
  induction n as [|n IH]; intros c Hk; [done|]. simpl.
  pose proof (Hk 0%nat ltac:(lia)) as H0. rewrite Z.add_0_r in H0. rewrite H0.
  apply IH. intros k Hlt. specialize (Hk (S k) ltac:(lia)).
  by replace (c + 1 + Z.of_nat k) with (c + Z.of_nat (S k)) by lia.
Qed.

(** X11.  The second pass of [forData], over the base data
    ([checkTailored > 0]): on a range of code points all of which are in
    [tailored], the callback [enumCnERange] makes no call of [handleCE32];
    the members of the walk and [tailored] are as before. *)
Theorem enumCnERange_skips_tailored C fuel o start end_ ce32 :
  0 < CnE.checkTailored o -> 0 <= start <= end_ -> end_ <= 0x10ffff ->
  (forall c, start <= c <= end_ -> append_cp [] c ∈ CnE.tailored o) ->
  exists go_on o',
    CnE.enumCnERange C fuel o start end_ ce32 = Some (go_on, o') /\
    CnE.walk o' = CnE.walk o /\ CnE.tailored o' = CnE.tailored o /\
    go_on = (if start =? end_ then true
             else U_SUCCESS (CnE.errorCode (CnE.walk o))).
Proof.
  intros Hct Hse He Hall. unfold CnE.enumCnERange.
  destruct (Z.eqb_spec (CnE.checkTailored o) 0); [lia|].
  destruct (Z.ltb_spec (CnE.checkTailored o) 0); [lia|].
  assert (forall c, start <= c <= end_ -> set_contains c (CnE.tailored o) = true)
    as Hcont.
  { intros c Hc. unfold set_contains.
    rewrite bool_decide_eq_true_2 by (by apply Hall).
    destruct (Z.leb_spec 0 c), (Z.leb_spec c 0x10ffff); simpl; lia. }
  destruct (Z.eqb_spec start end_) as [->|Hne].
  - rewrite Hcont by lia. eauto 6.
  - assert (set_containsSome start end_ (CnE.tailored o) = true) as ->.
    { unfold set_containsSome. apply existsb_exists. exists 0%nat. split.
      - apply in_seq. lia.
      - rewrite Z.add_0_r. apply Hcont. lia. }
    assert (set_range_removeAll start end_ (CnE.tailored o) = []) as ->.
    { unfold set_range_removeAll. apply runs_none. intros k Hk.
      unfold pinCodePoint in *.
      destruct (Z.ltb_spec start 0), (Z.ltb_spec 0x10ffff start),
        (Z.ltb_spec end_ 0), (Z.ltb_spec 0x10ffff end_); try lia.
      rewrite Hcont; [done|lia]. }
    simpl. eauto 6.
Qed.

Lemma enumCnERange_skips_tailored_witness :
  0 < CnE.checkTailored
        (CnE.set_tailored {[ [0x61]; [0x62] ]}
           {| CnE.walk := CnE.walk Samples.cneObject; CnE.tailoring := None;
              CnE.checkTailored := 1; CnE.tailored := ∅;
              CnE.tailored_frozen := true; CnE.ranges := [] |}) /\
  0 <= 0x61 <= 0x62 /\ 0x62 <= 0x10ffff /\
  exists go_on o',
    CnE.enumCnERange Samples.collation 3
      (CnE.set_tailored {[ [0x61]; [0x62] ]}
         {| CnE.walk := CnE.walk Samples.cneObject; CnE.tailoring := None;
            CnE.checkTailored := 1; CnE.tailored := ∅;
              CnE.tailored_frozen := true; CnE.ranges := [] |})
      0x61 0x62 0xC2000000 = Some (go_on, o') /\
    CnE.walk o' = CnE.walk Samples.cneObject /\
    CnE.tailored o' = {[ [0x61]; [0x62] ]} /\
    go_on = (if 0x61 =? 0x62 then true
             else U_SUCCESS (CnE.errorCode (CnE.walk Samples.cneObject))).
Proof.
  assert (0 < 1) as H1 by lia.
  assert (0 <= 0x61 <= 0x62) as H2 by lia.
  assert (0x62 <= 0x10ffff) as H3 by lia.
  split; [exact H1|]. split; [exact H2|]. split; [exact H3|].
  refine (enumCnERange_skips_tailored Samples.collation 3
            (CnE.set_tailored {[ [0x61]; [0x62] ]}
               {| CnE.walk := CnE.walk Samples.cneObject; CnE.tailoring := None;
                  CnE.checkTailored := 1; CnE.tailored := ∅;
              CnE.tailored_frozen := true; CnE.ranges := [] |})
            0x61 0x62 0xC2000000 H1 H2 H3 _).
  intros c Hc. simpl.
  assert (c = 0x61 \/ c = 0x62) as [-> | ->] by lia;
    apply (bool_decide_unpack _); vm_compute; reflexivity.
Defined.

(** X25. [handleContractions] on an object without a prefix whose
    [contractions] is not [NULL]: when the walk returns and the status is
    no failure, then for every suffix of the trie at [contexts + index + 2]
    and every code point c from [start] to [end] the string c + suffix is
    in the set that [expansions] points to. *)
Theorem handleContractions_collects C fuel start end_ ce32 st st' e str v c :
  CnE.handleContractions C (CnE.handleCE32 C fuel) start end_ ce32 st
    = Some st' ->
  U_FAILURE (CnE.errorCode st') = false ->
  CnE.contractions st <> None -> CnE.expansions st = Some e ->
  CnE.prefix st = None ->
  (str, v) ∈ UCharsTrie_entries C (CnE.data st)
               (getContractionIndex C ce32 + 2) ->
  start <= c <= Z.max start end_ ->
  exists s, CnE.heap st' !! e = Some s /\ append_cp [] c ++ str ∈ s.
Proof.
  intros H Hok Hcon He Hp Hin Hc. unfold CnE.handleContractions in H.
  apply bind_Some in H as (ce & _ & H).
  apply bind_Some in H as (st1 & H1 & H).
  apply bind_Some in H as (st2 & H2 & H). simplify_eq. simpl in *.
  assert (walk_keeps st st1 /\ CnE.prefix st1 = None) as [K1 Hp1].
  { destruct (isContractionCE32 C ce).
    - simplify_eq. split; [apply walk_keeps_refl|done].
    - split; [by eapply handleCE32_keeps|].
      apply handleCE32_context in H1 as [H1 _]. by apply H1. }
  destruct K1 as (Hd & Hc1 & He1 & _).
  rewrite Hd in H2.
  eapply (handleContractions_loop_collects C fuel start end_ e c) in H2;
    [exact H2|done|done|congruence|congruence|done|done].
Qed.

Lemma handleContractions_collects_witness :
  exists st',
    CnE.handleContractions Samples.collationWithTrie
      (CnE.handleCE32 Samples.collationWithTrie 2) 0x63 0x64 0xC5000000
      Samples.cneWithContext = Some st' /\
    exists s, CnE.heap st' !! 1%nat = Some s /\ [0x64; 0x68] ∈ s.
Proof.
  set (r := default Samples.cneWithContext
              (CnE.handleContractions Samples.collationWithTrie
                 (CnE.handleCE32 Samples.collationWithTrie 2) 0x63 0x64
                 0xC5000000 Samples.cneWithContext)).
  assert (CnE.handleContractions Samples.collationWithTrie
            (CnE.handleCE32 Samples.collationWithTrie 2) 0x63 0x64
            0xC5000000 Samples.cneWithContext = Some r) as E
    by (vm_compute; reflexivity).
  assert (U_FAILURE (CnE.errorCode r) = false) as H1
    by (vm_compute; reflexivity).
  exists r. split; [exact E|].
  apply (handleContractions_collects Samples.collationWithTrie 2 0x63 0x64
           0xC5000000 Samples.cneWithContext r 1%nat [0x68] 0x6789 0x64 E H1).
  - discriminate.
  - reflexivity.
  - reflexivity.
  - vm_compute. apply list_elem_of_here.
  - vm_compute. split; discriminate.
Defined.

(** X26. [handlePrefixes] on an object without a suffix that has
    [addPrefixes] set: when the walk returns and the status is no failure,
    then for every prefix of the trie at [contexts + index + 2] and every
    code point c from [start] to [end] the string prefix + c is in the set
    that [expansions] points to. *)
Theorem handlePrefixes_collects C fuel start end_ ce32 st st' e str v c :
  CnE.handlePrefixes C (CnE.handleCE32 C fuel) start end_ ce32 st
    = Some st' ->
  U_FAILURE (CnE.errorCode st') = false ->
  CnE.addPrefixes st = true -> CnE.expansions st = Some e ->
  CnE.suffix st = None ->
  (str, v) ∈ UCharsTrie_entries C (CnE.data st)
               (getPrefixIndex C ce32 + 2) ->
  start <= c <= Z.max start end_ ->
  exists s, CnE.heap st' !! e = Some s /\ append_cp str c ∈ s.
Proof.
  intros H Hok Hadd He Hs Hin Hc. unfold CnE.handlePrefixes in H.
  apply bind_Some in H as (ce & _ & H).
  apply bind_Some in H as (st1 & H1 & H).
  pose proof (handleCE32_keeps _ _ _ _ _ _ _ H1) as (Hd & _ & He1 & Ha1 & _).
  apply handleCE32_context in H1 as [_ Hs1].
  rewrite Ha1, Hadd in H. simpl in H.
  apply bind_Some in H as (st2 & H2 & H). simplify_eq. simpl in *.
  rewrite Hd in H2.
  eapply (handlePrefixes_loop_collects C fuel start end_ e c) in H2;
    [exact H2|done|done|congruence|by apply Hs1|done].
Qed.

Lemma handlePrefixes_collects_witness :
  exists st',
    CnE.handlePrefixes Samples.collationWithTrie
      (CnE.handleCE32 Samples.collationWithTrie 2) 0x63 0x64 0xC4000000
      Samples.cneWithContext = Some st' /\
    exists s, CnE.heap st' !! 1%nat = Some s /\ [0x68; 0x63] ∈ s.
Proof.
  set (r := default Samples.cneWithContext
              (CnE.handlePrefixes Samples.collationWithTrie
                 (CnE.handleCE32 Samples.collationWithTrie 2) 0x63 0x64
                 0xC4000000 Samples.cneWithContext)).
  assert (CnE.handlePrefixes Samples.collationWithTrie
            (CnE.handleCE32 Samples.collationWithTrie 2) 0x63 0x64
            0xC4000000 Samples.cneWithContext = Some r) as E
    by (vm_compute; reflexivity).
  assert (U_FAILURE (CnE.errorCode r) = false) as H1
    by (vm_compute; reflexivity).
  exists r. split; [exact E|].
  apply (handlePrefixes_collects Samples.collationWithTrie 2 0x63 0x64
           0xC4000000 Samples.cneWithContext r 1%nat [0x68] 0x6789 0x63 E H1).
  - reflexivity.
  - reflexivity.
  - reflexivity.
  - vm_compute. apply list_elem_of_here.
  - vm_compute. split; discriminate.
Defined.

End CnEFacts.


(** * Further theorems: the ASCII fastpath *)

Module FastPathFacts.
Import UTS46 Spec.

Lemma asciiDataAt_class c : 0 <= c <= 0x7f -> asciiDataAt c = asciiClass c.
Proof.
  intros Hc.
  assert (forallb (fun n => asciiDataAt (Z.of_nat n) =? asciiClass (Z.of_nat n))
            (seq 0 128) = true) as H by (vm_compute; reflexivity).
  rewrite forallb_forall in H.
  specialize (H (Z.to_nat c)). rewrite Z2Nat.id in H by lia.
  apply Z.eqb_eq, H, in_seq. lia.
Qed.

Lemma isAlnum_range c :
  isAlnum c = true ->
  0x61 <= c <= 0x7a \/ 0x41 <= c <= 0x5a \/ 0x30 <= c <= 0x39.
Proof.
  unfold isAlnum. rewrite !orb_true_iff, !andb_true_iff, !Z.leb_le. tauto.
Qed.

Lemma toLower_alnum c : isAlnum c = true -> isAlnum (toLower c) = true.
Proof.
  intros H. apply isAlnum_range in H. unfold toLower, isAlnum.
  destruct (Z.leb_spec 0x41 c), (Z.leb_spec c 0x5a); simpl;
    rewrite !orb_true_iff, !andb_true_iff, !Z.leb_le; lia.
Qed.

Lemma toLower_idem c : toLower (toLower c) = toLower c.
Proof.
  unfold toLower.
  destruct (Z.leb_spec 0x41 c), (Z.leb_spec c 0x5a); simpl; try done;
    repeat case_match; lia.
Qed.

(** What the fastpath tests on a letter or a digit. *)
Lemma isAlnum_step c :
  isAlnum c = true ->
  (0x7f <? c) = false /\
  (if 0 <? asciiDataAt c then c + 0x20 else c) = toLower c /\
  (asciiDataAt c <? 0) = false /\ (c =? 0x2d) = false /\ (c =? 0x2e) = false.
Proof.
  intros H. apply isAlnum_range in H.
  rewrite asciiDataAt_class by lia. unfold asciiClass, toLower.
  repeat split; try lia;
    destruct (Z.leb_spec 0x41 c), (Z.leb_spec c 0x5a); simpl; try done;
    repeat case_match; lia.
Qed.

Section WithEnv.
Context (props : UCharProps) (puny : Punycode).
Context (uts46Norm2 nfcNorm2 : Normalizer2) (options : Z).

Lemma fastPath_alnum_step src c rest isLabel toASCII destArray i ls info :
  isAlnum c = true ->
  fastPath options src (c :: rest) isLabel toASCII destArray i ls info
  = fastPath options src rest isLabel toASCII (<[i := toLower c]> destArray)
      (S i) ls info.
Proof.
  intros H. destruct (isAlnum_step c H) as (H1 & H2 & H3 & H4 & H5).
  cbn [fastPath]. rewrite H1, H3, H4, H5. cbn [andb].
  rewrite <- H2. by destruct (0 <? asciiDataAt c).
Qed.

Lemma take_S_insert (d : list Z) i x :
  (i < length d)%nat -> take (S i) (<[i := x]> d) = take i d ++ [x].
Proof.
  intros Hi. rewrite (take_S_r _ _ x) by (by apply list_lookup_insert_eq).
  by rewrite take_insert_ge.
Qed.

(** A run of letters and digits: the fastpath writes their lowercase forms
    and goes on behind them, with the label start and the info as they
    were. *)
Lemma fastPath_alnum_run src isLabel toASCII run :
  forall rest destArray i ls info,
    Forall (fun c => isAlnum c = true) run ->
    (i + length run <= length destArray)%nat ->
    exists d',
      fastPath options src (run ++ rest) isLabel toASCII destArray i ls info
      = fastPath options src rest isLabel toASCII d' (i + length run) ls info /\
      length d' = length destArray /\
      take (i + length run) d' = take i destArray ++ map toLower run.
Proof.
  induction run as [|c run IH]; intros rest destArray i ls info Hrun Hlen.
  - exists destArray. simpl. rewrite Nat.add_0_r, app_nil_r. done.
  - apply Forall_cons in Hrun as [Hc Hrun]. simpl in Hlen.
    destruct (IH rest (<[i := toLower c]> destArray) (S i) ls info Hrun)
      as (d' & Hd & Hl & Ht); [rewrite length_insert; lia|].
    exists d'. rewrite length_insert in Hl.
    split; [|split; [done|]].
    + rewrite <- app_comm_cons, fastPath_alnum_step by done.
      rewrite Hd. f_equal. simpl. lia.
    + replace (i + length (c :: run))%nat with (S i + length run)%nat
        by (simpl; lia).
      rewrite Ht, take_S_insert by lia. by rewrite <- app_assoc.
Qed.

(** X12.  A label of ASCII letters and digits goes through the fastpath
    alone: [labelToASCII] hands back its lowercase form and no error when it
    has at most 63 units, and the bogus string with
    [UIDNA_ERROR_LABEL_TOO_LONG], and only that, when it has more; the
    normalizers and the Punycode codec play no part. *)
Theorem labelToASCII_alnum label info ec :
  label <> [] -> Forall (fun c => isAlnum c = true) label ->
  U_FAILURE ec = false ->
  labelToASCII props puny uts46Norm2 nfcNorm2 options (Str label) false info ec
  = Some (if bool_decide (63 < length label)%nat then Bogus
          else Str (map toLower label),
          if bool_decide (63 < length label)%nat
          then or_error UIDNA_ERROR_LABEL_TOO_LONG reset else reset,
          ec).
Proof.
  intros Hne Hrun Hec. unfold labelToASCII, process. rewrite Hec.
  case_decide as Hlen; [by destruct label|].
  destruct (fastPath_alnum_run label true true label [] (replicate (length label) 0)
              0%nat 0%nat reset Hrun) as (d' & Hd & Hl & Ht);
    [rewrite length_replicate; lia|].
  rewrite app_nil_r in Hd. rewrite Hd. cbn [fastPath].
  simpl in Ht. simpl. rewrite Ht, Nat.sub_0_r.
  by case_bool_decide.
Qed.

(** A full stop that ends a label of one to 63 units, in a name. *)
Lemma fastPath_dot_step src rest toASCII destArray j ls info :
  j <> ls -> (j - ls <= 63)%nat ->
  fastPath options src (0x2e :: rest) false toASCII destArray j ls info
  = fastPath options src rest false toASCII (<[j := 0x2e]> destArray)
      (S j) (S j) info.
Proof.
  intros Hne Hlen. cbn [fastPath].
  change (0x7f <? 0x2e) with false. change (asciiDataAt 0x2e) with 0.
  change (0 <? 0) with false. cbn [andb].
  change (0x2e =? 0x2d) with false. change (0x2e =? 0x2e) with true.
  cbn iota.
  rewrite (bool_decide_eq_false_2 (j = ls)) by done.
  rewrite (bool_decide_eq_false_2 (63 < j - ls)%nat) by lia.
  by rewrite andb_false_r.
Qed.

Lemma joinLabels_cons l l' ls :
  joinLabels (l :: l' :: ls) = l ++ 0x2e :: joinLabels (l' :: ls).
Proof. done. Qed.

(** The fastpath on a host name: it reaches the end of the source, with the
    info as it was. *)
Lemma fastPath_host_name src toASCII labels :
  labels <> [] -> Forall hostLabel labels ->
  forall destArray i info,
    (i + length (joinLabels labels) <= length destArray)%nat ->
    exists d',
      fastPath options src (joinLabels labels) false toASCII destArray i i info
      = AtEnd d' (i + length (joinLabels labels)) info /\
      take (i + length (joinLabels labels)) d'
      = take i destArray ++ map toLower (joinLabels labels).
Proof.
  induction labels as [|l labels IH]; [done|]. intros _ Hall.
  apply Forall_cons in Hall as [(Hne & Hlen & Hrun) Hall].
  intros destArray i info Hd.
  destruct labels as [|l' ls].
  - simpl in *.
    destruct (fastPath_alnum_run src false toASCII l [] destArray i i info Hrun)
      as (d' & Hf & Hl & Ht); [lia|].
    rewrite app_nil_r in Hf. exists d'. split; [|done].
    rewrite Hf. cbn [fastPath].
    rewrite (bool_decide_eq_false_2 (63 < i + length l - i)%nat) by lia.
    by rewrite andb_false_r.
  - rewrite joinLabels_cons in *. rewrite length_app in *. cbn [length] in *.
    destruct (fastPath_alnum_run src false toASCII l
                (0x2e :: joinLabels (l' :: ls)) destArray i i info Hrun)
      as (d1 & Hf & Hl & Ht); [lia|].
    destruct (IH ltac:(done) Hall (<[(i + length l)%nat := 0x2e]> d1)
                (S (i + length l)) info) as (d' & Hf' & Ht');
      [rewrite length_insert; lia|].
    exists d'.
    replace (i + (length l + S (length (joinLabels (l' :: ls)))))%nat
      with (S (i + length l) + length (joinLabels (l' :: ls)))%nat by lia.
    split.
    + rewrite Hf, fastPath_dot_step; [done| |lia].
      destruct l; [done|simpl; lia].
    + rewrite Ht', take_S_insert, Ht by lia.
      rewrite map_app. simpl. by rewrite <- !app_assoc.
Qed.

Lemma joinLabels_nonempty labels :
  labels <> [] -> Forall hostLabel labels -> joinLabels labels <> [].
Proof.
  intros Hne Hall. destruct labels as [|l [|l' ls]]; [done| |];
    apply Forall_cons in Hall as [(Hl & _) _]; by destruct l.
Qed.

Lemma process_host_name labels toASCII info ec :
  labels <> [] -> Forall hostLabel labels -> U_FAILURE ec = false ->
  process props puny uts46Norm2 nfcNorm2 options (Str (joinLabels labels))
    false false toASCII info ec
  = Some (Str (map toLower (joinLabels labels)), reset, ec).
Proof.
  intros Hne Hall Hec. unfold process. rewrite Hec.
  case_decide as Hlen.
  { apply joinLabels_nonempty in Hall; [|done]. by destruct (joinLabels labels). }
  destruct (fastPath_host_name (joinLabels labels) toASCII labels Hne Hall
              (replicate (length (joinLabels labels)) 0) 0%nat reset)
    as (d' & Hf & Ht); [rewrite length_replicate; lia|].
  rewrite Hf. simpl in Ht. simpl. by rewrite Ht.
Qed.

Lemma nameToASCII_host_name labels info ec :
  labels <> [] -> Forall hostLabel labels -> U_FAILURE ec = false ->
  (length (joinLabels labels) < 254)%nat ->
  nameToASCII props puny uts46Norm2 nfcNorm2 options
    (Str (joinLabels labels)) false info ec
  = Some (Str (map toLower (joinLabels labels)), reset, ec).
Proof.
  intros Hne Hall Hec Hshort. unfold nameToASCII.
  rewrite process_host_name by done. simpl. rewrite length_map.
  by rewrite (bool_decide_eq_false_2 (254 <= length (joinLabels labels))%nat)
    by lia.
Qed.

(** X13.  A host name, one or more labels of one to 63 ASCII letters and
    digits joined by full stops, goes through the fastpath alone:
    [nameToUnicode] hands back its lowercase form with no error bit and the
    status as it was, and so does [nameToASCII] when the name has fewer than
    254 units. *)
Theorem host_name_is_lowercased labels info ec :
  labels <> [] -> Forall hostLabel labels -> U_FAILURE ec = false ->
  nameToUnicode props puny uts46Norm2 nfcNorm2 options
    (Str (joinLabels labels)) false info ec
  = Some (Str (map toLower (joinLabels labels)), reset, ec) /\
  ((length (joinLabels labels) < 254)%nat ->
   nameToASCII props puny uts46Norm2 nfcNorm2 options
     (Str (joinLabels labels)) false info ec
   = Some (Str (map toLower (joinLabels labels)), reset, ec)).
Proof.
  intros Hne Hall Hec. split.
  - by apply process_host_name.
  - intros Hshort. by apply nameToASCII_host_name.
Qed.

Lemma map_toLower_joinLabels labels :
  map toLower (joinLabels labels) = joinLabels (map (map toLower) labels).
Proof.
  induction labels as [|l [|l' ls] IH]; [done|done|].
  rewrite joinLabels_cons, map_app. cbn [map]. rewrite IH. done.
Qed.

Lemma hostLabel_toLower l : hostLabel l -> hostLabel (map toLower l).
Proof.
  intros (Hne & Hlen & Hrun). split; [by destruct l|].
  split; [by rewrite length_map|].
  apply Forall_map. eapply Forall_impl; [done|]. apply toLower_alnum.
Qed.

(** X14.  On host names the two directions compose: what [nameToASCII] hands
    back for a host name of fewer than 254 units, [nameToASCII] and
    [nameToUnicode] hand back unchanged. *)
Theorem host_name_round_trip labels info ec :
  labels <> [] -> Forall hostLabel labels -> U_FAILURE ec = false ->
  (length (joinLabels labels) < 254)%nat ->
  exists r,
    nameToASCII props puny uts46Norm2 nfcNorm2 options
      (Str (joinLabels labels)) false info ec = Some (Str r, reset, ec) /\
    nameToASCII props puny uts46Norm2 nfcNorm2 options (Str r) false reset ec
      = Some (Str r, reset, ec) /\
    nameToUnicode props puny uts46Norm2 nfcNorm2 options (Str r) false reset ec
      = Some (Str r, reset, ec).
Proof.
  intros Hne Hall Hec Hshort.
  exists (map toLower (joinLabels labels)).
  split; [by apply nameToASCII_host_name|].
  assert (map (map toLower) labels <> []) as Hne' by (by destruct labels).
  assert (Forall hostLabel (map (map toLower) labels)) as Hall'
    by (apply Forall_map; eapply Forall_impl; [done|]; apply hostLabel_toLower).
  assert (map toLower (map toLower (joinLabels labels))
          = map toLower (joinLabels labels)) as Hidem
    by (rewrite map_map; apply map_ext; intros; apply toLower_idem).
  rewrite map_toLower_joinLabels in *. split.
  - rewrite nameToASCII_host_name; try done.
    + by rewrite Hidem.
    + by rewrite <- map_toLower_joinLabels, length_map.
  - unfold nameToUnicode. rewrite process_host_name by done. by rewrite Hidem.
Qed.

(** ** Hyphens and full stops *)

Lemma isLDH_cases c :
  isLDH c || (c =? 0x2e) = true -> isAlnum c = true \/ c = 0x2d \/ c = 0x2e.
Proof.
  unfold isLDH, isAlnum.
  rewrite !orb_true_iff, !andb_true_iff, !Z.leb_le, !Z.eqb_eq. tauto.
Qed.

(** On a source of letters, digits, hyphens and full stops in which no two
    hyphens are adjacent, the fastpath reaches the end, and it has written
    the lowercase form of the source. *)
Lemma fastPath_ldh src isLabel toASCII rest :
  forall pre destArray i ls info,
    src = pre ++ rest -> length pre = i -> length destArray = length src ->
    Forall (fun c => isLDH c || (c =? 0x2e) = true) rest ->
    (isLabel = true -> 0x2e ∉ rest) ->
    (forall k, src !! k = Some 0x2d -> src !! S k <> Some 0x2d) ->
    exists d' info',
      fastPath options src rest isLabel toASCII destArray i ls info
      = AtEnd d' (length src) info' /\
      take (length src) d' = take i destArray ++ map toLower rest.
Proof.
  induction rest as [|c rest IH]; intros pre destArray i ls info Hsrc Hi Hd
    Hall Hdot Hhy.
  - rewrite app_nil_r in Hsrc. subst pre. cbn [fastPath].
    eexists _, _. rewrite Hi. split; [done|]. by rewrite app_nil_r.
  - apply Forall_cons in Hall as [Hc Hall].
    assert (src = (pre ++ [c]) ++ rest) as Hsrc'
      by (by rewrite <- app_assoc).
    assert (src !! i = Some c) as Hat
      by (rewrite Hsrc; by apply list_lookup_middle).
    assert (i < length destArray)%nat as Hlt
      by (rewrite Hd; by apply lookup_lt_Some in Hat).
    assert (forall x info1 ls1,
      exists d' info',
        fastPath options src rest isLabel toASCII (<[i := x]> destArray)
          (S i) ls1 info1 = AtEnd d' (length src) info' /\
        take (length src) d' = take i destArray ++ x :: map toLower rest) as Hnext.
    { intros x info1 ls1.
      destruct (IH (pre ++ [c]) (<[i := x]> destArray) (S i) ls1 info1)
        as (d' & info' & Hf & Ht); try done.
      - rewrite length_app. simpl. lia.
      - by rewrite length_insert.
      - intros Hl. specialize (Hdot Hl). set_solver.
      - exists d', info'. split; [done|].
        rewrite Ht, take_S_insert by done. by rewrite <- app_assoc. }
    apply isLDH_cases in Hc as [Hc|[->| ->]].
    + rewrite fastPath_alnum_step by done. apply Hnext.
    + cbn [fastPath].
      change (0x7f <? 0x2d) with false. change (asciiDataAt 0x2d) with 0.
      change (0 <? 0) with false. cbn [andb].
      change (0x2d =? 0x2d) with true. cbn iota.
      replace (bool_decide (i = (ls + 3)%nat)
               && bool_decide (src !! (i - 1)%nat = Some 0x2d)) with false.
      { apply Hnext. }
      symmetry. apply andb_false_iff.
      destruct (decide (i = (ls + 3)%nat)) as [Hi3|];
        [right|left; by apply bool_decide_eq_false_2].
      apply bool_decide_eq_false_2. intros Hprev.
      apply Hhy in Hprev. replace (S (i - 1)) with i in Hprev by lia. done.
    + cbn [fastPath].
      change (0x7f <? 0x2e) with false. change (asciiDataAt 0x2e) with 0.
      change (0 <? 0) with false. cbn [andb].
      change (0x2e =? 0x2d) with false. change (0x2e =? 0x2e) with true.
      cbn iota.
      destruct isLabel; [exfalso; apply Hdot; [done|set_solver]|].
      apply Hnext.
Qed.

(** X15.  The ASCII fastpath: for a source, not empty, of ASCII letters,
    digits, hyphens and full stops (no full stop for a single label) in
    which no two hyphens are adjacent, [process] hands back the source in
    lowercase and the status as it was, whatever error bits it sets; the
    normalizers and the Punycode codec play no part. *)
Theorem process_lowercases_ascii src isLabel toASCII info ec :
  src <> [] -> U_FAILURE ec = false ->
  Forall (fun c => isLDH c || (c =? 0x2e) = true) src ->
  (isLabel = true -> 0x2e ∉ src) ->
  (forall k, src !! k = Some 0x2d -> src !! S k <> Some 0x2d) ->
  exists info',
    process props puny uts46Norm2 nfcNorm2 options (Str src) false isLabel
      toASCII info ec
    = Some (Str (map toLower src), info', ec).
Proof.
  intros Hne Hec Hall Hdot Hhy. unfold process. rewrite Hec.
  case_decide as Hlen; [by destruct src|].
  destruct (fastPath_ldh src isLabel toASCII src [] (replicate (length src) 0)
              0%nat 0%nat reset) as (d' & info' & Hf & Ht);
    try done; [by rewrite length_replicate|].
  rewrite Hf. exists info'. simpl in Ht. by rewrite Ht.
Qed.

(** ** The errors of a single ASCII label *)

Lemma or_error_nonzero bit info : bit <> 0 -> errors (or_error bit info) <> 0.
Proof. intros Hb H. simpl in H. apply Z.lor_eq_0_iff in H as [_ H]. done. Qed.

Lemma isLDH_not_dot c : isLDH c = true -> (c =? 0x2e) = false.
Proof.
  unfold isLDH. rewrite !orb_true_iff, !andb_true_iff, !Z.leb_le, !Z.eqb_eq.
  intros H. apply Z.eqb_neq. lia.
Qed.

(** When the fastpath gets to the end of a single label of letters, digits
    and hyphens, no error bit is set exactly when none was set before, the
    label neither starts nor ends with a hyphen, and, for [toASCII], it has
    at most 63 units. *)
Lemma fastPath_label_errors src toASCII rest :
  forall pre destArray i info d' n info',
    src = pre ++ rest -> length pre = i ->
    Forall (fun c => isLDH c = true) rest ->
    (forall k, src !! k = Some 0x2d -> src !! S k <> Some 0x2d) ->
    fastPath options src rest true toASCII destArray i 0 info
      = AtEnd d' n info' ->
    errors info' = 0 <->
    errors info = 0 /\ (i = 0%nat -> head rest <> Some 0x2d) /\
    last rest <> Some 0x2d /\ (toASCII = true -> (length src <= 63)%nat).
Proof.
  induction rest as [|c rest IH]; intros pre destArray i info d' n info'
    Hsrc Hi Hall Hhy Hf.
  - rewrite app_nil_r in Hsrc. subst pre. cbn [fastPath] in Hf.
    rewrite Nat.sub_0_r in Hf. simplify_eq. simpl.
    destruct toASCII; simpl; [case_bool_decide as Hb|].
    + split; [intros He; by apply or_error_nonzero in He|].
      intros (_ & _ & _ & He). specialize (He eq_refl). lia.
    + split; [|tauto]. intros He. repeat split; try done. lia.
    + split; [|tauto]. intros He. repeat split; done.
  - apply Forall_cons in Hall as [Hc Hall].
    assert (src = (pre ++ [c]) ++ rest) as Hsrc' by (by rewrite <- app_assoc).
    assert (length (pre ++ [c]) = S i) as Hi'
      by (rewrite length_app; simpl; lia).
    assert (src !! i = Some c) as Hat
      by (rewrite Hsrc; by apply list_lookup_middle).
    assert (last (c :: rest) = if rest is [] then Some c else last rest) as Hlast
      by (by destruct rest).
    pose proof (isLDH_not_dot c Hc) as Hnd.
    destruct (isLDH_cases c) as [Ha|[-> | ->]]; [by rewrite Hc| | |done].
    + rewrite fastPath_alnum_step in Hf by done.
      rewrite (IH _ _ _ _ _ _ _ Hsrc' Hi' Hall Hhy Hf), Hlast.
      destruct (isAlnum_step c Ha) as (_ & _ & _ & H2d & _).
      apply Z.eqb_neq in H2d.
      split; intros (H1 & H2 & H3 & H4);
        (split; [done|]); (split; [|split; [|done]]).
      * intros _ Heq. simpl in Heq. congruence.
      * destruct rest; [congruence|done].
      * done.
      * by destruct rest.
    + cbn [fastPath] in Hf.
      change (0x7f <? 0x2d) with false in Hf.
      change (asciiDataAt 0x2d) with 0 in Hf.
      change (0 <? 0) with false in Hf. cbn [andb] in Hf.
      change (0x2d =? 0x2d) with true in Hf. cbn iota in Hf.
      replace (bool_decide (i = (0 + 3)%nat)
               && bool_decide (src !! (i - 1)%nat = Some 0x2d)) with false in Hf.
      2: { symmetry. apply andb_false_iff.
           destruct (decide (i = (0 + 3)%nat)) as [Hi3|];
             [right|left; by apply bool_decide_eq_false_2].
           apply bool_decide_eq_false_2. intros Hprev.
           apply Hhy in Hprev. replace (S (i - 1)) with i in Hprev by lia.
           done. }
      rewrite (IH _ _ _ _ _ _ _ Hsrc' Hi' Hall Hhy Hf), Hlast. clear Hf IH.
      destruct rest as [|next rest].
      * split; [|by intros (_ & _ & ? & _)].
        intros [H _]. by apply or_error_nonzero in H.
      * apply Forall_cons in Hall as [Hn _].
        rewrite (isLDH_not_dot next Hn). case_bool_decide as H0.
        -- split; [intros [H _]; by apply or_error_nonzero in H|].
           intros (_ & H & _). by specialize (H H0).
        -- split; intros (H1 & H2 & H3 & H4); repeat split; try done.
Qed.

(** X16.  A single label of ASCII letters, digits and hyphens with no two
    hyphens adjacent: [labelToASCII] sets no error bit exactly when the
    label neither starts nor ends with a hyphen and has at most 63 units,
    and then hands back the label in lowercase; otherwise it hands back the
    bogus string.  The status is as it was. *)
Theorem labelToASCII_ldh_label label info ec :
  label <> [] -> Forall (fun c => isLDH c = true) label ->
  (forall k, label !! k = Some 0x2d -> label !! S k <> Some 0x2d) ->
  U_FAILURE ec = false ->
  exists info',
    labelToASCII props puny uts46Norm2 nfcNorm2 options (Str label) false info ec
    = Some (if hasErrors info' then Bogus else Str (map toLower label),
            info', ec) /\
    (hasErrors info' = false <->
     head label <> Some 0x2d /\ last label <> Some 0x2d /\
     (length label <= 63)%nat).
Proof.
  intros Hne Hall Hhy Hec. unfold labelToASCII, process. rewrite Hec.
  case_decide as Hlen; [by destruct label|].
  destruct (fastPath_ldh label true true label [] (replicate (length label) 0)
              0%nat 0%nat reset) as (d' & info' & Hf & Ht); try done.
  { by rewrite length_replicate. }
  { eapply Forall_impl; [done|]. intros c Hc. simpl in Hc. by rewrite Hc. }
  { intros _ Hin. rewrite Forall_forall in Hall. apply Hall in Hin. done. }
  rewrite Hf. simpl in Ht. simpl. rewrite Ht. exists info'. split; [done|].
  apply (fastPath_label_errors label true label [] _ 0%nat reset) in Hf;
    try done.
  unfold hasErrors. rewrite negb_false_iff, Z.eqb_eq, Hf. simpl. tauto.
Qed.

End WithEnv.

Lemma labelToASCII_alnum_witness :
  [0x57; 0x57; 0x57] <> [] /\
  Forall (fun c => isAlnum c = true) [0x57; 0x57; 0x57] /\
  U_FAILURE U_ZERO_ERROR = false /\
  labelToASCII Samples.props Samples.puny Samples.norm Samples.norm 0
    (Str [0x57; 0x57; 0x57]) false reset U_ZERO_ERROR
  = Some (if bool_decide (63 < length [0x57; 0x57; 0x57])%nat then Bogus
          else Str (map toLower [0x57; 0x57; 0x57]),
          if bool_decide (63 < length [0x57; 0x57; 0x57])%nat
          then or_error UIDNA_ERROR_LABEL_TOO_LONG reset else reset,
          U_ZERO_ERROR).
Proof.
  assert ([0x57; 0x57; 0x57] <> []) as H1 by discriminate.
  assert (Forall (fun c => isAlnum c = true) [0x57; 0x57; 0x57]) as H2
    by (repeat constructor).
  assert (U_FAILURE U_ZERO_ERROR = false) as H3 by reflexivity.
  split; [exact H1|]. split; [exact H2|]. split; [exact H3|].
  exact (labelToASCII_alnum Samples.props Samples.puny Samples.norm
           Samples.norm 0 [0x57; 0x57; 0x57] reset U_ZERO_ERROR H1 H2 H3).
Defined.

Lemma www_example_com_labels : Forall hostLabel Samples.www_example_com.
Proof.
  repeat (apply Forall_cons_2 || apply Forall_nil_2);
    (split; [discriminate|split; [simpl; lia|repeat constructor]]).
Defined.

Lemma host_name_is_lowercased_witness :
  Samples.www_example_com <> [] /\
  Forall hostLabel Samples.www_example_com /\
  U_FAILURE U_ZERO_ERROR = false /\
  nameToUnicode Samples.props Samples.puny Samples.norm Samples.norm 0
    (Str (joinLabels Samples.www_example_com)) false reset U_ZERO_ERROR
  = Some (Str (map toLower (joinLabels Samples.www_example_com)), reset,
          U_ZERO_ERROR) /\
  ((length (joinLabels Samples.www_example_com) < 254)%nat ->
   nameToASCII Samples.props Samples.puny Samples.norm Samples.norm 0
     (Str (joinLabels Samples.www_example_com)) false reset U_ZERO_ERROR
   = Some (Str (map toLower (joinLabels Samples.www_example_com)), reset,
           U_ZERO_ERROR)).
Proof.
  assert (Samples.www_example_com <> []) as H1 by discriminate.
  assert (U_FAILURE U_ZERO_ERROR = false) as H3 by reflexivity.
  split; [exact H1|]. split; [exact www_example_com_labels|].
  split; [exact H3|].
  exact (host_name_is_lowercased Samples.props Samples.puny Samples.norm
           Samples.norm 0 Samples.www_example_com reset U_ZERO_ERROR
           H1 www_example_com_labels H3).
Defined.

Lemma host_name_round_trip_witness :
  Samples.www_example_com <> [] /\
  Forall hostLabel Samples.www_example_com /\
  U_FAILURE U_ZERO_ERROR = false /\
  (length (joinLabels Samples.www_example_com) < 254)%nat /\
  exists r,
    nameToASCII Samples.props Samples.puny Samples.norm Samples.norm 0
      (Str (joinLabels Samples.www_example_com)) false reset U_ZERO_ERROR
      = Some (Str r, reset, U_ZERO_ERROR) /\
    nameToASCII Samples.props Samples.puny Samples.norm Samples.norm 0
      (Str r) false reset U_ZERO_ERROR = Some (Str r, reset, U_ZERO_ERROR) /\
    nameToUnicode Samples.props Samples.puny Samples.norm Samples.norm 0
      (Str r) false reset U_ZERO_ERROR = Some (Str r, reset, U_ZERO_ERROR).
Proof.
  assert (Samples.www_example_com <> []) as H1 by discriminate.
  assert (U_FAILURE U_ZERO_ERROR = false) as H3 by reflexivity.
  assert (length (joinLabels Samples.www_example_com) < 254)%nat as H4
    by (simpl; lia).
  split; [exact H1|]. split; [exact www_example_com_labels|].
  split; [exact H3|]. split; [exact H4|].
  exact (host_name_round_trip Samples.props Samples.puny Samples.norm
           Samples.norm 0 Samples.www_example_com reset U_ZERO_ERROR
           H1 www_example_com_labels H3 H4).
Defined.

Lemma process_lowercases_ascii_witness :
  Samples.a_b_c <> [] /\ U_FAILURE U_ZERO_ERROR = false /\
  Forall (fun c => isLDH c || (c =? 0x2e) = true) Samples.a_b_c /\
  (false = true -> 0x2e ∉ Samples.a_b_c) /\
  (forall k, Samples.a_b_c !! k = Some 0x2d ->
     Samples.a_b_c !! S k <> Some 0x2d) /\
  exists info',
    process Samples.props Samples.puny Samples.norm Samples.norm 0
      (Str Samples.a_b_c) false false true reset U_ZERO_ERROR
    = Some (Str (map toLower Samples.a_b_c), info', U_ZERO_ERROR).
Proof.
  assert (Samples.a_b_c <> []) as H1 by discriminate.
  assert (U_FAILURE U_ZERO_ERROR = false) as H2 by reflexivity.
  assert (Forall (fun c => isLDH c || (c =? 0x2e) = true) Samples.a_b_c) as H3
    by (repeat constructor).
  assert (false = true -> 0x2e ∉ Samples.a_b_c) as H4 by discriminate.
  assert (forall k, Samples.a_b_c !! k = Some 0x2d ->
            Samples.a_b_c !! S k <> Some 0x2d) as H5
    by (intros [|[|[|[|[|k]]]]] H; simpl in *; congruence).
  split; [exact H1|]. split; [exact H2|]. split; [exact H3|].
  split; [exact H4|]. split; [exact H5|].
  exact (process_lowercases_ascii Samples.props Samples.puny Samples.norm
           Samples.norm 0 Samples.a_b_c false true reset U_ZERO_ERROR
           H1 H2 H3 H4 H5).
Defined.

Lemma labelToASCII_ldh_label_witness :
  [0x61; 0x2d; 0x62] <> [] /\
  Forall (fun c => isLDH c = true) [0x61; 0x2d; 0x62] /\
  (forall k, [0x61; 0x2d; 0x62] !! k = Some 0x2d ->
     [0x61; 0x2d; 0x62] !! S k <> Some 0x2d) /\
  U_FAILURE U_ZERO_ERROR = false /\
  exists info',
    labelToASCII Samples.props Samples.puny Samples.norm Samples.norm 0
      (Str [0x61; 0x2d; 0x62]) false reset U_ZERO_ERROR
    = Some (if hasErrors info' then Bogus
            else Str (map toLower [0x61; 0x2d; 0x62]), info', U_ZERO_ERROR) /\
    (hasErrors info' = false <->
     head [0x61; 0x2d; 0x62] <> Some 0x2d /\
     last [0x61; 0x2d; 0x62] <> Some 0x2d /\
     (length [0x61; 0x2d; 0x62] <= 63)%nat).
Proof.
  assert ([0x61; 0x2d; 0x62] <> []) as H1 by discriminate.
  assert (Forall (fun c => isLDH c = true) [0x61; 0x2d; 0x62]) as H2
    by (repeat constructor).
  assert (forall k, [0x61; 0x2d; 0x62] !! k = Some 0x2d ->
            [0x61; 0x2d; 0x62] !! S k <> Some 0x2d) as H3
    by (intros [|[|[|k]]] H; simpl in *; congruence).
  assert (U_FAILURE U_ZERO_ERROR = false) as H4 by reflexivity.
  split; [exact H1|]. split; [exact H2|]. split; [exact H3|].
  split; [exact H4|].
  exact (labelToASCII_ldh_label Samples.props Samples.puny Samples.norm
           Samples.norm 0 [0x61; 0x2d; 0x62] reset U_ZERO_ERROR H1 H2 H3 H4).
Defined.

End FastPathFacts.


(** * Further theorems: which error bits a call can set *)

Module ErrorBitFacts.
Import UTS46 Spec.

Lemma writes_in_trans bits a b c :
  writes_in bits a b -> writes_in bits b c -> writes_in bits a c.
Proof. induction 2; eauto using writes_in. Qed.

Lemma common_bit_in options toASCII bit :
  bit ∈ [ UIDNA_ERROR_EMPTY_LABEL; UIDNA_ERROR_LEADING_HYPHEN;
          UIDNA_ERROR_TRAILING_HYPHEN; UIDNA_ERROR_HYPHEN_3_4;
          UIDNA_ERROR_LEADING_COMBINING_MARK; UIDNA_ERROR_DISALLOWED;
          UIDNA_ERROR_PUNYCODE; UIDNA_ERROR_LABEL_HAS_DOT;
          UIDNA_ERROR_INVALID_ACE_LABEL ] ->
  bit ∈ writableBits options toASCII.
Proof. intros H. unfold writableBits. apply elem_of_app. by left. Qed.

Lemma too_long_bit_in options :
  UIDNA_ERROR_LABEL_TOO_LONG ∈ writableBits options true.
Proof. unfold writableBits. simpl. set_solver. Qed.

Lemma bidi_bit_in options toASCII :
  (Z.land options UIDNA_CHECK_BIDI =? 0) = false ->
  UIDNA_ERROR_BIDI ∈ writableBits options toASCII.
Proof. intros H. unfold writableBits. rewrite H. set_solver. Qed.

Lemma contextj_bit_in options toASCII :
  (Z.land options UIDNA_CHECK_CONTEXTJ =? 0) = false ->
  UIDNA_ERROR_CONTEXTJ ∈ writableBits options toASCII.
Proof. intros H. unfold writableBits. rewrite H. set_solver. Qed.

Create HintDb wbits.
#[local] Hint Resolve writes_in_refl writes_in_dev too_long_bit_in : wbits.
#[local] Hint Extern 2 (writes_in _ _ (or_error _ _)) =>
  apply writes_in_or : wbits.
#[local] Hint Extern 2 (_ ∈ writableBits _ _) =>
  apply common_bit_in; set_solver : wbits.
#[local] Hint Extern 3 (_ ∈ writableBits _ _) =>
  apply bidi_bit_in; assumption : wbits.
#[local] Hint Extern 3 (_ ∈ writableBits _ _) =>
  apply contextj_bit_in; assumption : wbits.
#[local] Hint Extern 5 (writes_in ?bits _ _) =>
  match goal with
  | H : writes_in bits ?a ?b |- writes_in bits ?a _ =>
      apply (writes_in_trans bits a b); [exact H|]
  end : wbits.

Ltac solve_wbits :=
  first
    [ by eauto 12 with wbits
    | match goal with
      | H : writes_in _ _ ?b |- writes_in _ _ ?b =>
          eapply writes_in_trans; [|exact H]; by eauto 12 with wbits
      end ].

(** A bit that is in none of the bits written stays as it is. *)
Lemma writes_in_testbit bits a b n :
  writes_in bits a b ->
  (forall bit, bit ∈ bits -> Z.testbit bit n = false) ->
  Z.testbit (errors b) n = Z.testbit (errors a) n.
Proof.
  intros Hw Hn. induction Hw as [|b bit _ IH Hin|b _ IH]; [done| |done].
  cbn [errors or_error]. by rewrite Z.lor_spec, IH, (Hn _ Hin), orb_false_r.
Qed.

Section WithEnv.
Context (props : UCharProps) (puny : Punycode).
Context (uts46Norm2 nfcNorm2 : Normalizer2) (options : Z).

Lemma scanStep_bits toASCII wasPunycode doMap sc sc' :
  scanStep options wasPunycode doMap sc = Some sc' ->
  writes_in (writableBits options toASCII) (sc_info sc) (sc_info sc').
Proof.
  unfold scanStep. intros H.
  destruct (sc_buf sc !! sc_s sc) as [c|] eqn:Hc; simpl in H; [|done].
  repeat case_match; simplify_eq; simpl; solve_wbits.
Qed.

Lemma scanLoop_bits toASCII n : forall wasPunycode doMap labelStart sc sc',
  scanLoop options n wasPunycode doMap labelStart sc = Some sc' ->
  writes_in (writableBits options toASCII) (sc_info sc) (sc_info sc').
Proof.
  induction n as [|n IH]; intros wasPunycode doMap labelStart sc sc' H;
    simpl in H;
    destruct (scanStep options wasPunycode doMap sc) as [sc1|] eqn:E;
    simpl in H; try done;
    apply (scanStep_bits toASCII) in E;
    case_decide; simplify_eq; try done.
  apply IH in H. by eapply writes_in_trans.
Qed.

Lemma punycodeErrorScan_bits toASCII n :
  forall dest s limit onlyLDH info dest' onlyLDH' info',
  punycodeErrorScan options n dest s limit onlyLDH info
    = Some (dest', onlyLDH', info') ->
  writes_in (writableBits options toASCII) info info'.
Proof.
  induction n as [|n IH]; intros dest s limit onlyLDH info dest' onlyLDH' info' H;
    simpl in H;
    (destruct (dest !! s) as [c|] eqn:Hc; simpl in H; [|done]);
    destruct (punycodeErrorStep options dest s c onlyLDH info)
      as [[d1 o1] i1] eqn:E;
    (assert (writes_in (writableBits options toASCII) info i1) as Hw
       by (unfold punycodeErrorStep in E;
           repeat case_match; simplify_eq; solve_wbits));
    case_decide; simplify_eq; try done.
  apply IH in H. by eapply writes_in_trans.
Qed.

Lemma checkBiDiContextJ_bits toASCII label labelStart labelLength oredChars
    info info' :
  checkBiDiContextJ props options label labelStart labelLength oredChars info
    = Some info' ->
  writes_in (writableBits options toASCII) info info'.
Proof.
  unfold checkBiDiContextJ. intros H.
  apply bind_Some in H as (bidi & Hb & H).
  apply bind_Some in H as (contextj & Hc & H). simplify_eq.
  destruct (Z.land options UIDNA_CHECK_BIDI =? 0) eqn:Eb;
    destruct (Z.land options UIDNA_CHECK_CONTEXTJ =? 0) eqn:Ec;
    simpl in Hb, Hc; simplify_eq;
    try destruct bidi; try destruct contextj; solve_wbits.
Qed.

Lemma returnLabel_info dest dls dll labelString labelLength info ec
    dest' delta info' ec' :
  returnLabel dest dls dll labelString labelLength info ec
    = (dest', delta, info', ec') -> info' = info.
Proof. unfold returnLabel, replaceLabel. intros H. by simplify_eq. Qed.

Lemma encodeLabel_bits dest labelString labelStart labelLength dls dll
    wasPunycode toASCII oredChars didMap info ec dest' delta info' ec' :
  encodeLabel props puny options dest labelString labelStart labelLength
    dls dll wasPunycode toASCII oredChars didMap info ec
    = Some (dest', delta, info', ec') ->
  writes_in (writableBits options toASCII) info info'.
Proof.
  unfold encodeLabel. intros H.
  apply bind_Some in H as (info1 & Ec & H).
  apply (checkBiDiContextJ_bits toASCII) in Ec.
  destruct toASCII; simpl in H.
  - destruct (if wasPunycode then _ else _).
    + apply bind_Some in H as (src & _ & H).
      destruct (encodePunycode _ _ _) as [out ec1].
      destruct (U_SUCCESS ec1); simplify_eq;
        apply returnLabel_info in H as ->;
        try case_decide; solve_wbits.
    + simplify_eq. by apply returnLabel_info in H as ->.
  - simplify_eq. by apply returnLabel_info in H as ->.
Qed.

Lemma finishLabel_bits dest labelString labelStart labelLength dls dll
    wasPunycode toASCII oredChars didMap info ec dest' delta info' ec' :
  finishLabel props puny nfcNorm2 options dest labelString labelStart
    labelLength dls dll wasPunycode toASCII oredChars didMap info ec
    = Some (dest', delta, info', ec') ->
  writes_in (writableBits options toASCII) info info'.
Proof.
  unfold finishLabel. intros H. destruct didMap.
  - destruct (normalize _ _ _) as [normalized ec1].
    destruct (U_FAILURE ec1).
    + simplify_eq. apply returnLabel_info in H as ->. solve_wbits.
    + by apply encodeLabel_bits in H.
  - by apply encodeLabel_bits in H.
Qed.

Lemma checkLabel_bits dest labelString labelStart labelLength dls dll
    wasPunycode toASCII info ec dest' delta info' ec' :
  checkLabel props puny nfcNorm2 options dest labelString labelStart
    labelLength dls dll wasPunycode toASCII info ec
    = Some (dest', delta, info', ec') ->
  writes_in (writableBits options toASCII) info info'.
Proof.
  unfold checkLabel. intros H. case_decide as Hlen.
  - simplify_eq. apply returnLabel_info in H as ->.
    destruct toASCII; solve_wbits.
  - apply bind_Some in H as (h34 & _ & H).
    apply bind_Some in H as (hy1 & _ & H).
    apply bind_Some in H as (hyn & _ & H).
    apply bind_Some in H as ([c cpLength] & _ & H).
    destruct (if negb _ then _ else _) as [[buf1 len1] info1] eqn:Em.
    apply bind_Some in H as (sc & Hsc & H).
    apply (scanLoop_bits toASCII) in Hsc. simpl in Hsc.
    assert (writes_in (writableBits options toASCII) info info1) as Hw1.
    { match type of Em with (if ?b then _ else _) = _ => destruct b end;
        simplify_eq; destruct h34, hy1, hyn; solve_wbits. }
    destruct labelString as [str|]; apply finishLabel_bits in H;
      eauto using writes_in_trans.
Qed.

Lemma processLabel_bits dest labelStart labelLength toASCII info ec
    dest' delta info' ec' :
  processLabel props puny uts46Norm2 nfcNorm2 options dest labelStart
    labelLength toASCII info ec = Some (dest', delta, info', ec') ->
  writes_in (writableBits options toASCII) info info'.
Proof.
  unfold processLabel. intros H.
  apply bind_Some in H as (xn & Hxn & H). destruct xn.
  - apply bind_Some in H as (src & Hsrc & H).
    destruct (decodePunycode puny src) as [unicode pec].
    destruct (U_FAILURE pec).
    + apply bind_Some in H as ([[d1 o1] i1] & Hs & H).
      apply (punycodeErrorScan_bits toASCII) in Hs.
      destruct o1; simplify_eq; solve_wbits.
    + destruct (normalize _ _ _) as [fromPunycode ec1].
      destruct (U_FAILURE ec1); [by simplify_eq; solve_wbits|].
      apply checkLabel_bits in H. case_bool_decide; solve_wbits.
  - by apply checkLabel_bits in H.
Qed.

Lemma fastPath_bits src isLabel toASCII rest :
  forall destArray i labelStart info,
    writes_in (writableBits options toASCII) info
      (fastPath_info
         (fastPath options src rest isLabel toASCII destArray i labelStart info)).
Proof.
  induction rest as [|c rest IH]; intros destArray i labelStart info; simpl.
  - destruct toASCII; simpl; [case_match|]; solve_wbits.
  - generalize (match rest with [] => true | next :: _ => next =? 46 end).
    intros trailing. destruct toASCII; repeat case_match; simpl;
      first [solve_wbits | (eapply writes_in_trans; [|apply IH]); solve_wbits].
Qed.

Lemma labelsLoop_bits n : forall toASCII dest destLength labelStart labelLimit
    info ec failed dest' labelStart' labelLimit' info' ec',
  labelsLoop props puny uts46Norm2 nfcNorm2 options n toASCII dest destLength
    labelStart labelLimit info ec
    = Some (failed, dest', labelStart', labelLimit', info', ec') ->
  writes_in (writableBits options toASCII) info info'.
Proof.
  induction n as [|n IH]; intros toASCII dest destLength labelStart labelLimit
    info ec failed dest' labelStart' labelLimit' info' ec' H; simpl in H.
  - case_match; [done|]. simplify_eq. solve_wbits.
  - case_match; [|simplify_eq; solve_wbits].
    apply bind_Some in H as (c & _ & H). case_match.
    + apply bind_Some in H as ([[[d1 delta] i1] e1] & Hp & H).
      apply processLabel_bits in Hp.
      case_match; simplify_eq; [done|].
      apply IH in H. by eapply writes_in_trans.
    + by apply IH in H.
Qed.

Lemma processUnicode_bits src labelStart mappingStart isLabel toASCII dest
    info ec dest' info' ec' :
  processUnicode props puny uts46Norm2 nfcNorm2 options src labelStart
    mappingStart isLabel toASCII dest info ec = Some (dest', info', ec') ->
  writes_in (writableBits options toASCII) info info'.
Proof.
  unfold processUnicode. intros H.
  destruct (if decide (mappingStart = 0)%nat then _ else _) as [d1 e1].
  destruct (U_FAILURE e1); [simplify_eq; solve_wbits|].
  destruct isLabel.
  - apply bind_Some in H as ([[[d2 delta] i2] e2] & Hp & H).
    apply processLabel_bits in Hp. by simplify_eq.
  - apply bind_Some in H as ([[[[[failed d2] ls2] ll2] i2] e2] & Hl & H).
    apply labelsLoop_bits in Hl.
    destruct failed; [by simplify_eq|].
    case_match; [|by simplify_eq].
    apply bind_Some in H as ([[[d3 delta] i3] e3] & Hp & H).
    apply processLabel_bits in Hp. simplify_eq.
    by eapply writes_in_trans.
Qed.

(** Once [process] has accepted its arguments, the info it hands back comes
    from the reset one by writes of the bits of its direction and options. *)
Lemma process_bits src isLabel toASCII info ec dest' info' ec' :
  process props puny uts46Norm2 nfcNorm2 options src false isLabel
    toASCII info ec = Some (dest', info', ec') ->
  U_FAILURE ec = false -> src <> Bogus ->
  writes_in (writableBits options toASCII) reset info'.
Proof.
  unfold process. intros H Hec Hsrc. rewrite Hec in H.
  destruct src as [|s]; [done|]. case_decide.
  - simplify_eq. solve_wbits.
  - pose proof (fastPath_bits s isLabel toASCII s (replicate (length s) 0)
                  0%nat 0%nat reset) as Hf.
    destruct (fastPath _ _ _ _ _ _ _ _ _) as [d1 i1 info1|d1 i1 ls1 info1];
      simpl in Hf.
    + by simplify_eq.
    + apply bind_Some in H as ([[d2 i2] e2] & Hu & H).
      apply processUnicode_bits in Hu. simplify_eq.
      by eapply writes_in_trans.
Qed.

Lemma has_error_pow2 k info :
  0 <= k -> has_error (2 ^ k) info <-> Z.testbit (errors info) k = true.
Proof.
  intros Hk. unfold has_error.
  destruct (Z.testbit (errors info) k) eqn:E.
  - split; [done|]. intros _ H.
    apply (f_equal (fun z => Z.testbit z k)) in H.
    by rewrite Z.land_spec, E, Z.pow2_bits_eqb, Z.eqb_refl, Z.bits_0 in H.
  - split; [|done]. intros H. exfalso. apply H. apply Z.bits_inj_0.
    intros n. rewrite Z.land_spec, Z.pow2_bits_eqb by lia.
    destruct (Z.eqb_spec k n) as [<-|_]; [by rewrite E|].
    by rewrite andb_false_r.
Qed.

Lemma cleared_bit bitsl k info' :
  0 <= k ->
  writes_in bitsl reset info' ->
  (forall bit, bit ∈ bitsl -> Z.testbit bit k = false) ->
  ~ has_error (2 ^ k) info'.
Proof.
  intros Hk Hw Hb. rewrite has_error_pow2 by done.
  rewrite (writes_in_testbit _ _ _ _ Hw Hb). simpl. by rewrite Z.bits_0.
Qed.

Ltac each_bit Hin :=
  unfold writableBits in Hin;
  repeat (case_match; simplify_eq);
  repeat (apply elem_of_app in Hin as [Hin|Hin]);
  repeat (apply elem_of_cons in Hin as [->|Hin]; [by vm_compute|]);
  by apply elem_of_nil in Hin.

(** X17.  The two [toUnicode] entry points know no length limit: on
    arguments that [process] accepts, [labelToUnicode] and [nameToUnicode]
    set neither [UIDNA_ERROR_LABEL_TOO_LONG] nor
    [UIDNA_ERROR_DOMAIN_NAME_TOO_LONG]. *)
Theorem toUnicode_sets_no_length_error src info ec :
  U_FAILURE ec = false -> src <> Bogus ->
  forall entry dest' info' ec',
    entry = labelToUnicode props puny uts46Norm2 nfcNorm2 options \/
    entry = nameToUnicode props puny uts46Norm2 nfcNorm2 options ->
    entry src false info ec = Some (dest', info', ec') ->
    ~ has_error UIDNA_ERROR_LABEL_TOO_LONG info' /\
    ~ has_error UIDNA_ERROR_DOMAIN_NAME_TOO_LONG info'.
Proof.
  intros Hec Hsrc entry dest' info' ec' Hentry H.
  assert (writes_in (writableBits options false) reset info') as Hw.
  { destruct Hentry as [-> | ->];
      unfold labelToUnicode, nameToUnicode in H;
      by apply process_bits in H. }
  split.
  - apply (cleared_bit _ 1 _ ltac:(lia) Hw). intros bit Hin. each_bit Hin.
  - apply (cleared_bit _ 2 _ ltac:(lia) Hw). intros bit Hin. each_bit Hin.
Qed.

(** X18.  The BiDi and CONTEXTJ checks are made on request only: on
    arguments that [process] accepts, in either direction and for a label
    or a name, [UIDNA_ERROR_BIDI] is not set when the options lack
    [UIDNA_CHECK_BIDI], and [UIDNA_ERROR_CONTEXTJ] is not set when they lack
    [UIDNA_CHECK_CONTEXTJ]. *)
Theorem checks_on_request_only src isLabel toASCII info ec dest' info' ec' :
  U_FAILURE ec = false -> src <> Bogus ->
  process props puny uts46Norm2 nfcNorm2 options src false isLabel
    toASCII info ec = Some (dest', info', ec') ->
  (Z.land options UIDNA_CHECK_BIDI = 0 -> ~ has_error UIDNA_ERROR_BIDI info') /\
  (Z.land options UIDNA_CHECK_CONTEXTJ = 0 ->
   ~ has_error UIDNA_ERROR_CONTEXTJ info').
Proof.
  intros Hec Hsrc H. apply process_bits in H; [|done..].
  split; intros Ho.
  - apply (cleared_bit _ 11 _ ltac:(lia) H). intros bit Hin.
    unfold writableBits in Hin. rewrite Ho in Hin. simpl in Hin. each_bit Hin.
  - apply (cleared_bit _ 12 _ ltac:(lia) H). intros bit Hin.
    unfold writableBits in Hin. rewrite Ho in Hin. simpl in Hin. each_bit Hin.
Qed.

End WithEnv.

Lemma toUnicode_sets_no_length_error_witness :
  U_FAILURE U_ZERO_ERROR = false /\ Str (replicate 70 0x61) <> Bogus /\
  exists dest' info' ec',
    labelToUnicode Samples.props Samples.puny Samples.norm Samples.norm 0
      (Str (replicate 70 0x61)) false reset U_ZERO_ERROR
      = Some (dest', info', ec') /\
    ~ has_error UIDNA_ERROR_LABEL_TOO_LONG info' /\
    ~ has_error UIDNA_ERROR_DOMAIN_NAME_TOO_LONG info'.
Proof.
  assert (U_FAILURE U_ZERO_ERROR = false) as H1 by reflexivity.
  assert (Str (replicate 70 0x61) <> Bogus) as H2 by discriminate.
  split; [exact H1|]. split; [exact H2|].
  set (r := default (Bogus, reset, 0)
              (labelToUnicode Samples.props Samples.puny Samples.norm
                 Samples.norm 0 (Str (replicate 70 0x61)) false reset
                 U_ZERO_ERROR)).
  assert (labelToUnicode Samples.props Samples.puny Samples.norm Samples.norm 0
            (Str (replicate 70 0x61)) false reset U_ZERO_ERROR
          = Some (r.1.1, r.1.2, r.2)) as E by (vm_compute; reflexivity).
  exists r.1.1, r.1.2, r.2. split; [exact E|].
  exact (toUnicode_sets_no_length_error Samples.props
           Samples.puny Samples.norm Samples.norm 0 (Str (replicate 70 0x61))
           reset U_ZERO_ERROR H1 H2 _ _ _ _ (or_introl eq_refl) E).
Defined.

Lemma checks_on_request_only_witness :
  U_FAILURE U_ZERO_ERROR = false /\ Str [0x628; 0x200c; 0x628] <> Bogus /\
  exists dest' info' ec',
    process Samples.props Samples.puny Samples.norm Samples.norm
      UIDNA_NONTRANSITIONAL_TO_UNICODE (Str [0x628; 0x200c; 0x628]) false
      true false reset U_ZERO_ERROR = Some (dest', info', ec') /\
    (Z.land UIDNA_NONTRANSITIONAL_TO_UNICODE UIDNA_CHECK_BIDI = 0 ->
     ~ has_error UIDNA_ERROR_BIDI info') /\
    (Z.land UIDNA_NONTRANSITIONAL_TO_UNICODE UIDNA_CHECK_CONTEXTJ = 0 ->
     ~ has_error UIDNA_ERROR_CONTEXTJ info').
Proof.
  assert (U_FAILURE U_ZERO_ERROR = false) as H1 by reflexivity.
  assert (Str [0x628; 0x200c; 0x628] <> Bogus) as H2 by discriminate.
  split; [exact H1|]. split; [exact H2|].
  set (r := default (Bogus, reset, 0)
              (process Samples.props Samples.puny Samples.norm Samples.norm
                 UIDNA_NONTRANSITIONAL_TO_UNICODE (Str [0x628; 0x200c; 0x628])
                 false true false reset U_ZERO_ERROR)).
  assert (process Samples.props Samples.puny Samples.norm Samples.norm
            UIDNA_NONTRANSITIONAL_TO_UNICODE (Str [0x628; 0x200c; 0x628])
            false true false reset U_ZERO_ERROR
          = Some (r.1.1, r.1.2, r.2)) as E by (vm_compute; reflexivity).
  exists r.1.1, r.1.2, r.2. split; [exact E|].
  exact (checks_on_request_only Samples.props
           Samples.puny Samples.norm Samples.norm
           UIDNA_NONTRANSITIONAL_TO_UNICODE (Str [0x628; 0x200c; 0x628])
           true false reset U_ZERO_ERROR _ _ _ H1 H2 E).
Defined.

End ErrorBitFacts.


(** * Further theorems: the label checks and the entry points *)

Module CheckFacts.
Import UTS46 Spec.

Lemma labelAt_lookup buf ls (k : nat) :
  labelAt buf ls (Z.of_nat k) = buf !! (ls + k)%nat.
Proof.
  unfold labelAt, readZ.
  destruct (Z.ltb_spec (Z.of_nat ls + Z.of_nat k) 0); [lia|].
  f_equal. lia.
Qed.

(** The outer loop of [isLabelOkContextJ] from index [i] on: it accepts
    exactly when every joiner from there on follows a virama.  A U+200C
    that does not is rejected whatever its context, since the postcontext
    loop reads the joiner itself. *)
Lemma contextJLoop_iff props buf ls L inner :
  u_getJoiningType props 0x200c = U_JT_NON_JOINING ->
  (ls + L <= length buf)%nat ->
  forall fuel i, (L - i <= fuel)%nat ->
    contextJLoop props fuel (S inner) (labelAt buf ls) (Z.of_nat i) (Z.of_nat L)
      = Some true <->
    (forall k u, (i <= k < L)%nat -> buf !! (ls + k)%nat = Some u ->
       u = 0x200c \/ u = 0x200d ->
       k <> 0%nat /\
       exists c j, U16_PREV_UNSAFE (labelAt buf ls) (Z.of_nat k) = Some (c, j) /\
                   u_getCombiningClass props c = 9).
Proof.
  intros Hnj Hlen. induction fuel as [|fuel IH]; intros i Hfuel.
  - simpl. destruct (Z.ltb_spec (Z.of_nat i) (Z.of_nat L)); [lia|].
    split; [|done]. intros _ k u Hk. lia.
  - cbn [contextJLoop].
    destruct (Z.ltb_spec (Z.of_nat i) (Z.of_nat L)) as [Hi|Hi];
      [|split; [intros _ k u Hk; lia|done]].
    rewrite labelAt_lookup.
    destruct (lookup_lt_is_Some_2 buf (ls + i)%nat) as [u Hu]; [lia|].
    rewrite Hu. cbn [mbind option_bind].
    replace (Z.of_nat i + 1) with (Z.of_nat (S i)) by lia.
    assert (forall P : Prop,
      (forall k' u', (S i <= k' < L)%nat -> buf !! (ls + k')%nat = Some u' ->
         u' = 0x200c \/ u' = 0x200d ->
         k' <> 0%nat /\
         exists c j, U16_PREV_UNSAFE (labelAt buf ls) (Z.of_nat k') = Some (c, j) /\
                     u_getCombiningClass props c = 9) ->
      (u = 0x200c \/ u = 0x200d ->
       i <> 0%nat /\
       exists c j, U16_PREV_UNSAFE (labelAt buf ls) (Z.of_nat i) = Some (c, j) /\
                   u_getCombiningClass props c = 9) ->
      forall k u', (i <= k < L)%nat -> buf !! (ls + k)%nat = Some u' ->
        u' = 0x200c \/ u' = 0x200d ->
        k <> 0%nat /\
        exists c j, U16_PREV_UNSAFE (labelAt buf ls) (Z.of_nat k) = Some (c, j) /\
                    u_getCombiningClass props c = 9) as Hjoin.
    { intros _ Hrest Hhere k u' Hk Hu' Hj.
      destruct (decide (k = i)) as [->|]; [|apply (Hrest k u'); [lia|done..]].
      apply Hhere. by simplify_eq. }
    assert (forall b : bool, b = false \/ True -> True) as _ by done.
    destruct (Z.eqb_spec u 0x200c) as [->|Hn1].
    { destruct (Z.eqb_spec (Z.of_nat i) 0) as [H0|H0].
      { split; [done|]. intros H. destruct (H i 0x200c) as [? _]; [lia|done|by left|lia]. }
      destruct (U16_PREV_UNSAFE _ _) as [[c j]|] eqn:Hprev; cbn [mbind option_bind].
      2: { split; [done|]. intros H.
           destruct (H i 0x200c) as [_ (c & j & ? & _)]; [lia|done|by left|congruence]. }
      destruct (Z.eqb_spec (u_getCombiningClass props c) 9) as [H9|H9].
      - rewrite IH by lia. split.
        + intros H. apply (Hjoin True); [done|]. intros _. split; [lia|eauto].
        + intros H k u' Hk. apply H. lia.
      - assert (contextJPost props (S inner) (labelAt buf ls) (Z.of_nat i)
                  (Z.of_nat (S i)) (Z.of_nat L) = Some None) as Hpost.
        { replace (Z.of_nat (S i)) with (Z.of_nat i + 1) by lia.
          apply LabelChecks.contextJPost_rejects; [done|].
          by rewrite labelAt_lookup. }
        split.
        + intros H. exfalso.
          destruct (contextJPre _ _ _ _ _) as [[|]|]; cbn [mbind option_bind negb] in H;
            try done.
          rewrite Hpost in H. done.
        + intros H.
          destruct (H i 0x200c) as [_ (c' & j' & ? & ?)]; [lia|done|by left|].
          simplify_eq. }
    destruct (Z.eqb_spec u 0x200d) as [->|Hn2].
    { destruct (Z.eqb_spec (Z.of_nat i) 0) as [H0|H0].
      { split; [done|]. intros H. destruct (H i 0x200d) as [? _]; [lia|done|by right|lia]. }
      destruct (U16_PREV_UNSAFE _ _) as [[c j]|] eqn:Hprev; cbn [mbind option_bind].
      2: { split; [done|]. intros H.
           destruct (H i 0x200d) as [_ (c & j & ? & _)]; [lia|done|by right|congruence]. }
      destruct (Z.eqb_spec (u_getCombiningClass props c) 9) as [H9|H9]; cbn [negb].
      - rewrite IH by lia. split.
        + intros H. apply (Hjoin True); [done|]. intros _. split; [lia|eauto].
        + intros H k u' Hk. apply H. lia.
      - split; [done|]. intros H.
        destruct (H i 0x200d) as [_ (c' & j' & ? & ?)]; [lia|done|by right|].
        simplify_eq. }
    rewrite IH by lia. split.
    + intros H. apply (Hjoin True); [done|]. intros [?|?]; done.
    + intros H k u' Hk. apply H. lia.
Qed.

(** X19.  With the property data saying that U+200C is Non_Joining, as Unicode
    has it, [isLabelOkContextJ] accepts a label that lies in its buffer
    exactly when every U+200C and every U+200D of the label stands directly
    after a code point of combining class 9: the second rule for U+200C, on
    the joining types around it, never lets a label through. *)
Theorem isLabelOkContextJ_accepts_iff props buf labelStart labelLength :
  u_getJoiningType props 0x200c = U_JT_NON_JOINING ->
  (labelStart + labelLength <= length buf)%nat ->
  isLabelOkContextJ props buf labelStart labelLength = Some true <->
  joinersFollowVirama props buf labelStart labelLength.
Proof.
  intros Hnj Hlen. unfold isLabelOkContextJ, joinersFollowVirama.
  change 0 with (Z.of_nat 0) at 1.
  rewrite (contextJLoop_iff props buf labelStart labelLength (length buf)
             Hnj Hlen (S labelLength) 0%nat) by lia.
  split; intros H i u Hi; apply H; lia.
Qed.

Lemma isLabelOkContextJ_accepts_iff_witness :
  u_getJoiningType Samples.props 0x200c = U_JT_NON_JOINING /\
  (0 + 3 <= length [0x915; 0x94d; 0x200d])%nat /\
  (isLabelOkContextJ Samples.props [0x915; 0x94d; 0x200d] 0 3 = Some true <->
   joinersFollowVirama Samples.props [0x915; 0x94d; 0x200d] 0 3).
Proof.
  assert (u_getJoiningType Samples.props 0x200c = U_JT_NON_JOINING) as H1
    by reflexivity.
  assert (0 + 3 <= length [0x915; 0x94d; 0x200d])%nat as H2 by (simpl; lia).
  split; [exact H1|]. split; [exact H2|].
  exact (isLabelOkContextJ_accepts_iff Samples.props [0x915; 0x94d; 0x200d]
           0 3 H1 H2).
Defined.

(** X20.  [isLabelOkBiDi] accepts no label: it never answers true, and it
    answers false whenever the first code point of the label can be read,
    as it can when two units lie in the buffer from the label start on. *)
Theorem isLabelOkBiDi_accepts_no_label props buf labelStart labelLength :
  isLabelOkBiDi props buf labelStart labelLength <> Some true /\
  ((labelStart + 1 < length buf)%nat ->
   isLabelOkBiDi props buf labelStart labelLength = Some false).
Proof.
  split; [apply LabelChecks.isLabelOkBiDi_never_accepts|].
  intros Hlen.
  destruct (lookup_lt_is_Some_2 buf labelStart) as [c Hc]; [lia|].
  destruct (lookup_lt_is_Some_2 buf (labelStart + 1)%nat) as [t Ht]; [lia|].
  assert (exists r, U16_NEXT_UNSAFE (labelAt buf labelStart) 0 = Some r)
    as [[c' i] Hn].
  { assert (labelAt buf labelStart 0 = Some c) as R0
      by (change 0 with (Z.of_nat 0); by rewrite labelAt_lookup, Nat.add_0_r).
    assert (labelAt buf labelStart (0 + 1) = Some t) as R1
      by (change (0 + 1) with (Z.of_nat 1); by rewrite labelAt_lookup).
    unfold U16_NEXT_UNSAFE. rewrite R0. cbn [mbind option_bind].
    destruct (U16_IS_LEAD c); [|eauto].
    rewrite R1. cbn [mbind option_bind]. eauto. }
  by eapply LabelChecks.isLabelOkBiDi_rejects.
Qed.

Lemma isLabelOkBiDi_accepts_no_label_witness :
  isLabelOkBiDi Samples.props [0x61; 0x62; 0x63] 0 3 <> Some true /\
  ((0 + 1 < length [0x61; 0x62; 0x63])%nat ->
   isLabelOkBiDi Samples.props [0x61; 0x62; 0x63] 0 3 = Some false).
Proof.
  exact (isLabelOkBiDi_accepts_no_label Samples.props [0x61; 0x62; 0x63] 0 3).
Defined.

(** X21.  The table [asciiData] has an entry for each of the 128 ASCII
    units, and the entries are what its comments say: 1 for the capital
    letters; 0 for the small letters, the digits, the hyphen and the full
    stop; -1 for every other unit. *)
Theorem asciiData_table :
  length asciiData = 128%nat /\
  forall c, 0 <= c <= 0x7f -> readZ asciiData c = Some (asciiClass c).
Proof.
  split; [done|]. intros c Hc.
  assert (forallb (fun n => bool_decide (readZ asciiData (Z.of_nat n)
                                         = Some (asciiClass (Z.of_nat n))))
            (seq 0 128) = true) as H by (vm_compute; reflexivity).
  rewrite forallb_forall in H.
  specialize (H (Z.to_nat c)). rewrite Z2Nat.id in H by lia.
  apply (bool_decide_unpack _), Is_true_true, H, in_seq. lia.
Qed.

Lemma asciiData_table_witness :
  0 <= 0x41 <= 0x7f /\ readZ asciiData 0x41 = Some (asciiClass 0x41).
Proof.
  assert (0 <= 0x41 <= 0x7f) as H by lia.
  split; [exact H|]. exact (proj2 asciiData_table 0x41 H).
Defined.

Section WithEnv.
Context (props : UCharProps) (puny : Punycode).
Context (uts46Norm2 nfcNorm2 : Normalizer2) (options : Z).

(** X22.  The two [toUnicode] entry points hand back the bogus string
    exactly when [process] rejects the arguments: on a failure status on
    entry, a destination that is the source itself, or a bogus source.  Then
    the info is untouched, and the status is the failure given, or
    [U_ILLEGAL_ARGUMENT_ERROR]; in every other case they hand back a string,
    whatever error bits are set. *)
Theorem toUnicode_bogus_iff_rejected src dest_is_src info ec :
  forall entry dest' info' ec',
    entry = labelToUnicode props puny uts46Norm2 nfcNorm2 options \/
    entry = nameToUnicode props puny uts46Norm2 nfcNorm2 options ->
    entry src dest_is_src info ec = Some (dest', info', ec') ->
    (dest' = Bogus <->
     U_FAILURE ec = true \/ dest_is_src = true \/ src = Bogus) /\
    (dest' = Bogus ->
     info' = info /\
     ec' = if U_FAILURE ec then ec else U_ILLEGAL_ARGUMENT_ERROR).
Proof.
  intros entry dest' info' ec' Hentry H.
  assert (exists isLabel,
    process props puny uts46Norm2 nfcNorm2 options src dest_is_src isLabel
      false info ec = Some (dest', info', ec')) as [isLabel Hp]
    by (destruct Hentry as [-> | ->]; eauto).
  clear H Hentry. unfold process in Hp.
  destruct (U_FAILURE ec) eqn:Hec; [simplify_eq; repeat split; by auto|].
  destruct src as [|s]; [simplify_eq; repeat split; by auto|].
  destruct dest_is_src; [simplify_eq; repeat split; by auto|].
  assert (exists d, dest' = Str d) as [d ->].
  { case_decide; [simplify_eq; eauto|].
    destruct (fastPath _ _ _ _ _ _ _ _ _); [simplify_eq; eauto|].
    apply bind_Some in Hp as ([[d2 i2] e2] & _ & Hp). simplify_eq. eauto. }
  split; [|done]. split; [done|]. by intros [?|[?|?]].
Qed.

(** X23.  The empty string: every entry point resets the info and sets
    [UIDNA_ERROR_EMPTY_LABEL], for a name as for a label and in both
    directions; the [toUnicode] entry points hand back the empty string and
    the [toASCII] ones the bogus string, all with the status as it was. *)
Theorem empty_source info ec :
  U_FAILURE ec = false ->
  labelToUnicode props puny uts46Norm2 nfcNorm2 options (Str []) false info ec
    = Some (Str [], or_error UIDNA_ERROR_EMPTY_LABEL reset, ec) /\
  nameToUnicode props puny uts46Norm2 nfcNorm2 options (Str []) false info ec
    = Some (Str [], or_error UIDNA_ERROR_EMPTY_LABEL reset, ec) /\
  labelToASCII props puny uts46Norm2 nfcNorm2 options (Str []) false info ec
    = Some (Bogus, or_error UIDNA_ERROR_EMPTY_LABEL reset, ec) /\
  nameToASCII props puny uts46Norm2 nfcNorm2 options (Str []) false info ec
    = Some (Bogus, or_error UIDNA_ERROR_EMPTY_LABEL reset, ec).
Proof.
  intros Hec.
  unfold labelToUnicode, nameToUnicode, labelToASCII, nameToASCII, process.
  rewrite Hec. done.
Qed.

(** ** A label of letters and digits in [processLabel] *)

Lemma U16_IS_LEAD_ascii c : 0 <= c <= 0x7f -> U16_IS_LEAD c = false.
Proof.
  intros Hc.
  assert (forallb (fun n => negb (U16_IS_LEAD (Z.of_nat n))) (seq 0 128) = true)
    as H by (vm_compute; reflexivity).
  rewrite forallb_forall in H.
  specialize (H (Z.to_nat c)). rewrite Z2Nat.id in H by lia.
  apply negb_true_iff, H, in_seq. lia.
Qed.

Lemma scanStep_alnum wasPunycode doMap buf len s ored did info c :
  buf !! s = Some c -> isAlnum c = true ->
  scanStep options wasPunycode doMap
    {| sc_buf := buf; sc_labelLength := len; sc_s := s; sc_oredChars := ored;
       sc_didMapDevChars := did; sc_info := info |}
  = Some {| sc_buf := buf; sc_labelLength := len; sc_s := S s;
            sc_oredChars := ored; sc_didMapDevChars := did; sc_info := info |}.
Proof.
  intros Hc Ha. unfold scanStep. cbn [sc_buf sc_s sc_info]. rewrite Hc.
  cbn [mbind option_bind].
  destruct (FastPathFacts.isAlnum_step c Ha) as (H1 & _ & H3 & _ & H5).
  destruct (Z.leb_spec c 0x7f); [|lia].
  by rewrite H5, H3, andb_false_r.
Qed.

Lemma scanLoop_alnum wasPunycode doMap buf ls len ored did info r :
  forall n s,
    (s + r = ls + len)%nat -> (1 <= r)%nat -> (r <= S n)%nat ->
    (forall k c, (s <= k < ls + len)%nat -> buf !! k = Some c ->
       isAlnum c = true) ->
    (ls + len <= length buf)%nat ->
    scanLoop options n wasPunycode doMap ls
      {| sc_buf := buf; sc_labelLength := len; sc_s := s; sc_oredChars := ored;
         sc_didMapDevChars := did; sc_info := info |}
    = Some {| sc_buf := buf; sc_labelLength := len; sc_s := (ls + len)%nat;
              sc_oredChars := ored; sc_didMapDevChars := did;
              sc_info := info |}.
Proof.
  induction r as [|r IH]; intros n s Hs Hr Hn Hall Hlen; [lia|].
  destruct (lookup_lt_is_Some_2 buf s) as [c Hc]; [lia|].
  destruct n as [|n]; simpl;
    rewrite (scanStep_alnum _ _ _ _ _ _ _ _ c) by (eauto with lia);
    cbn [mbind option_bind sc_s sc_labelLength]; case_decide.
  - lia.
  - do 2 f_equal. lia.
  - apply IH; try lia. intros k c' Hk. apply Hall. lia.
  - do 2 f_equal. lia.
Qed.

(** X24.  [processLabel] leaves a label of ASCII letters and digits as it
    is, however long the label: the destination, the info and the status
    are as before and the delta is 0, for [toASCII] too, where
    [UIDNA_ERROR_LABEL_TOO_LONG] is only set for a label that is encoded in
    Punycode.  The general category of a letter or a digit is taken to be
    no mark. *)
Theorem processLabel_keeps_alnum_label dest labelStart labelLength toASCII
    info ec :
  (0 < labelLength)%nat -> (labelStart + labelLength <= length dest)%nat ->
  (forall k c, (labelStart <= k < labelStart + labelLength)%nat ->
     dest !! k = Some c -> isAlnum c = true) ->
  (forall c, isAlnum c = true ->
     Z.land (U_GET_GC_MASK props c) U_GC_M_MASK = 0) ->
  processLabel props puny uts46Norm2 nfcNorm2 options dest labelStart
    labelLength toASCII info ec
  = Some (dest, 0, info, ec).
Proof.
  intros Hpos Hlen Hall Hgc.
  assert (forall k v, (k < labelLength)%nat -> v = 0x2d ->
            unitIs dest (labelStart + k) v = Some false) as Hhy.
  { intros k v Hk ->. unfold unitIs.
    destruct (lookup_lt_is_Some_2 dest (labelStart + k)%nat) as [c Hc]; [lia|].
    rewrite Hc. cbn [mbind option_bind].
    destruct (FastPathFacts.isAlnum_step c) as (_ & _ & _ & -> & _);
      [eapply Hall; [|done]; lia|done]. }
  assert (forall k v, (k < labelLength)%nat ->
            exists b, unitIs dest (labelStart + k) v = Some b) as Hany.
  { intros k v Hk. unfold unitIs.
    destruct (lookup_lt_is_Some_2 dest (labelStart + k)%nat) as [c Hc]; [lia|].
    rewrite Hc. eauto. }
  unfold processLabel.
  assert ((if decide (4 <= labelLength)%nat
           then andM (unitIs dest labelStart 0x78)
                  (andM (unitIs dest (labelStart + 1) 0x6e)
                     (andM (unitIs dest (labelStart + 2) 0x2d)
                           (unitIs dest (labelStart + 3) 0x2d)))
           else Some false) = Some false) as ->.
  { case_decide; [|done].
    destruct (Hany 0%nat 0x78) as [b0 Hb0]; [lia|].
    rewrite Nat.add_0_r in Hb0.
    destruct (Hany 1%nat 0x6e) as [b1 Hb1]; [lia|].
    rewrite Hb0, Hb1, (Hhy 2%nat) by (done || lia).
    by destruct b0, b1. }
  cbn [mbind option_bind]. unfold checkLabel.
  case_decide; [lia|]. cbn [default].
  assert ((if decide (4 <= labelLength)%nat
           then andM (unitIs dest (labelStart + 2) 0x2d)
                     (unitIs dest (labelStart + 3) 0x2d)
           else Some false) = Some false) as ->.
  { case_decide; [|done]. by rewrite (Hhy 2%nat) by (done || lia). }
  cbn [mbind option_bind].
  pose proof (Hhy 0%nat 0x2d Hpos eq_refl) as H0. rewrite Nat.add_0_r in H0.
  rewrite H0. cbn [mbind option_bind].
  replace (labelStart + labelLength - 1)%nat
    with (labelStart + (labelLength - 1))%nat by lia.
  rewrite (Hhy (labelLength - 1)%nat) by (done || lia).
  cbn [mbind option_bind].
  destruct (lookup_lt_is_Some_2 dest labelStart) as [c Hc]; [lia|].
  assert (isAlnum c = true) as Hca by (eapply Hall; [|done]; lia).
  assert (U16_NEXT_UNSAFE (labelAt dest labelStart) 0 = Some (c, 1)) as ->.
  { unfold U16_NEXT_UNSAFE.
    assert (labelAt dest labelStart 0 = Some c) as ->
      by (change 0 with (Z.of_nat 0); by rewrite labelAt_lookup, Nat.add_0_r).
    cbn [mbind option_bind].
    assert (U16_IS_LEAD c = false) as ->; [|done].
    apply FastPathFacts.isAlnum_range in Hca. apply U16_IS_LEAD_ascii. lia. }
  cbn [mbind option_bind]. rewrite (Hgc c Hca). cbn [Z.eqb negb].
  rewrite (scanLoop_alnum _ _ _ _ _ _ _ _ labelLength)
    by (eauto with lia).
  cbn [mbind option_bind sc_buf sc_labelLength sc_oredChars sc_didMapDevChars
       sc_info].
  unfold finishLabel, encodeLabel, checkBiDiContextJ.
  change (0 >=? 0x590) with false. change (Z.land 0 0x200c =? 0x200c) with false.
  rewrite !andb_false_r. cbn [mbind option_bind].
  unfold returnLabel, replaceLabel. cbn [default].
  rewrite bool_decide_eq_true_2 by done. by rewrite Z.sub_diag.
Qed.

End WithEnv.

Lemma toUnicode_bogus_iff_rejected_witness :
  exists dest' info' ec',
    nameToUnicode Samples.props Samples.puny Samples.norm Samples.norm 0
      (Str Samples.buecher) false reset U_ZERO_ERROR = Some (dest', info', ec') /\
    (dest' = Bogus <->
     U_FAILURE U_ZERO_ERROR = true \/ false = true \/
     Str Samples.buecher = Bogus) /\
    (dest' = Bogus ->
     info' = reset /\
     ec' = if U_FAILURE U_ZERO_ERROR then U_ZERO_ERROR
           else U_ILLEGAL_ARGUMENT_ERROR).
Proof.
  set (r := default (Bogus, reset, 0)
              (nameToUnicode Samples.props Samples.puny Samples.norm
                 Samples.norm 0 (Str Samples.buecher) false reset U_ZERO_ERROR)).
  assert (nameToUnicode Samples.props Samples.puny Samples.norm Samples.norm 0
            (Str Samples.buecher) false reset U_ZERO_ERROR
          = Some (r.1.1, r.1.2, r.2)) as E by (vm_compute; reflexivity).
  exists r.1.1, r.1.2, r.2. split; [exact E|].
  exact (toUnicode_bogus_iff_rejected Samples.props Samples.puny Samples.norm
           Samples.norm 0 (Str Samples.buecher) false reset U_ZERO_ERROR
           _ _ _ _ (or_intror eq_refl) E).
Defined.

Lemma empty_source_witness :
  U_FAILURE U_ZERO_ERROR = false /\
  labelToUnicode Samples.props Samples.puny Samples.norm Samples.norm 0
    (Str []) false reset U_ZERO_ERROR
    = Some (Str [], or_error UIDNA_ERROR_EMPTY_LABEL reset, U_ZERO_ERROR) /\
  nameToUnicode Samples.props Samples.puny Samples.norm Samples.norm 0
    (Str []) false reset U_ZERO_ERROR
    = Some (Str [], or_error UIDNA_ERROR_EMPTY_LABEL reset, U_ZERO_ERROR) /\
  labelToASCII Samples.props Samples.puny Samples.norm Samples.norm 0
    (Str []) false reset U_ZERO_ERROR
    = Some (Bogus, or_error UIDNA_ERROR_EMPTY_LABEL reset, U_ZERO_ERROR) /\
  nameToASCII Samples.props Samples.puny Samples.norm Samples.norm 0
    (Str []) false reset U_ZERO_ERROR
    = Some (Bogus, or_error UIDNA_ERROR_EMPTY_LABEL reset, U_ZERO_ERROR).
Proof.
  assert (U_FAILURE U_ZERO_ERROR = false) as H by reflexivity.
  split; [exact H|].
  exact (empty_source Samples.props Samples.puny Samples.norm Samples.norm 0
           reset U_ZERO_ERROR H).
Defined.

Lemma processLabel_keeps_alnum_label_witness :
  (0 < 70)%nat /\ (0 + 70 <= length (replicate 70 0x61))%nat /\
  (forall k c, (0 <= k < 0 + 70)%nat ->
     replicate 70 0x61 !! k = Some c -> isAlnum c = true) /\
  (forall c, isAlnum c = true ->
     Z.land (U_GET_GC_MASK Samples.props c) U_GC_M_MASK = 0) /\
  processLabel Samples.props Samples.puny Samples.norm Samples.norm 0
    (replicate 70 0x61) 0 70 true reset U_ZERO_ERROR
  = Some (replicate 70 0x61, 0, reset, U_ZERO_ERROR).
Proof.
  assert (0 < 70)%nat as H1 by lia.
  assert (0 + 70 <= length (replicate 70 0x61))%nat as H2
    by (rewrite length_replicate; lia).
  assert (forall k c, (0 <= k < 0 + 70)%nat ->
            replicate 70 0x61 !! k = Some c -> isAlnum c = true) as H3
    by (intros k c _ Hc; apply lookup_replicate in Hc as [-> _]; reflexivity).
  assert (forall c, isAlnum c = true ->
            Z.land (U_GET_GC_MASK Samples.props c) U_GC_M_MASK = 0) as H4.
  { intros c Hc. apply FastPathFacts.isAlnum_range in Hc. simpl.
    destruct (Z.eqb_spec c 0x94d); [lia|reflexivity]. }
  split; [exact H1|]. split; [exact H2|]. split; [exact H3|].
  split; [exact H4|].
  exact (processLabel_keeps_alnum_label Samples.props Samples.puny
           Samples.norm Samples.norm 0 (replicate 70 0x61) 0 70 true reset
           U_ZERO_ERROR H1 H2 H3 H4).
Defined.

End CheckFacts.
